(** * Learning_to_Survive: the visualisation script [src/visualize.py]

    A shallow embedding of [visualize.py]:

    - [Visualizer.create_episode_video]: the rollout loop with its two
      [try]/[except Exception] blocks and the video writer's life cycle;
    - [Visualizer.plot_state_heatmap]: the agent-position count grid and its
      normalisation;
    - [Visualizer.plot_training_curves], [Visualizer.plot_action_distribution]
      and [Visualizer.visualize_value_function]: what they compute and the
      calls they make into the plotting library;
    - [main]: the choice of the save directory, the construction of the
      [Visualizer] and the order of its calls.

    Python values are modelled as the script uses them.  Numbers handed over
    by the environment (rewards, the entries of [info]) are binary64 floats
    ([PrimFloat.float]); [info] is [None] or a [dict] ([gmap string float]);
    an exception is a value [pyexc] that records whether it is an instance of
    [Exception] (only those are caught by [except Exception]) and its
    [str(e)].  The environment, the agent, OpenCV's video writer, the
    plotting library and the policy network are external collaborators:
    interfaces over an arbitrary state of their own, every call of which may
    return or raise.  What reaches the video file is read off an encoder that
    keeps its own record of the calls it receives ([Tape]), not off what the
    function says it did. *)

From Stdlib Require Import ZArith QArith Lia Ascii String.
From Stdlib Require Import Floats.PrimFloat Floats.SpecFloat Floats.FloatOps.
From Stdlib Require Import DecimalString.
From stdpp Require Import gmap strings list.

Local Open Scope string_scope.
Local Open Scope Z_scope.
Local Open Scope list_scope.

(** ** Python exceptions and call results *)

(** [catchable e] is [isinstance(e, Exception)]: [KeyboardInterrupt],
    [SystemExit] and [GeneratorExit] derive from [BaseException] only and
    pass through [except Exception].  [message e] is [str(e)]. *)
Record pyexc := PyExc { catchable : bool; message : string }.

Definition TypeError (msg : string) : pyexc := PyExc true msg.
Definition IndexError (msg : string) : pyexc := PyExc true msg.
Definition ValueError (msg : string) : pyexc := PyExc true msg.
(** [str(KeyError(k))] is the [repr] of the key: the key in single quotes. *)
Definition KeyError (key : string) : pyexc := PyExc true ("'" +:+ key +:+ "'").

Variant result (A : Type) : Type :=
| Return (a : A)
| Raise (e : pyexc).
Arguments Return {A} a.
Arguments Raise {A} e.

(** ** Computations: state, exceptions and fuel *)

Section Monad.
Context {S : Type}.

(** A computation over a state [S] returns or raises and leaves a state;
    [None] only when a loop was cut off by its fuel.  A raise keeps the state
    reached so far, as an exception in Python keeps every assignment and
    effect that preceded it. *)
Definition M (A : Type) : Type := S -> option (result A * S).

Definition ret {A} (a : A) : M A := fun s => Some (Return a, s).

Definition raise {A} (e : pyexc) : M A := fun s => Some (Raise e, s).

Definition bind {A B} (c : M A) (k : A -> M B) : M B :=
  fun s =>
    match c s with
    | Some (Return a, s') => k a s'
    | Some (Raise e, s') => Some (Raise e, s')
    | None => None
    end.

(** [try: c  except Exception as e: handler e] *)
Definition try_except {A} (c : M A) (handler : pyexc -> M A) : M A :=
  fun s =>
    match c s with
    | Some (Raise e, s') =>
        if catchable e then handler e s' else Some (Raise e, s')
    | other => other
    end.

Definition gets {A} (field : S -> A) : M A :=
  fun s => Some (Return (field s), s).

Definition modify (f : S -> S) : M unit :=
  fun s => Some (Return tt, f s).

(** Partial correctness of a computation: from a state that satisfies [P],
    whatever it returns or raises, and the state it leaves, satisfy [Q]. *)
Definition triple {A} (P : S -> Prop) (c : M A)
    (Q : result A -> S -> Prop) : Prop :=
  forall s r s', P s -> c s = Some (r, s') -> Q r s'.

(** [keeps I c]: [c] preserves the invariant [I], also when it raises. *)
Definition keeps {A} (I : S -> Prop) (c : M A) : Prop :=
  triple I c (fun _ => I).

End Monad.
Arguments M : clear implicits.

Declare Scope py_scope.
Delimit Scope py_scope with py.
Notation "x <- c ;; k" := (bind c (fun x => k))
  (at level 20, c at level 99, k at level 200, only parsing) : py_scope.
Notation "' pat <- c ;; k" := (bind c (fun x => let pat := x in k))
  (at level 20, pat pattern, c at level 99, k at level 200, only parsing)
  : py_scope.
Notation "c ;; k" := (bind c (fun _ => k))
  (at level 100, k at level 200, right associativity, only parsing)
  : py_scope.
Local Open Scope py_scope.

(** ** Format specification [:.1f] *)

Module PyFormat.

(** The integer nearest to [m * 2^e * 10], ties to the even one: the number
    of tenths that a correctly rounded conversion to one decimal prints. *)
Definition tenths (m : positive) (e : Z) : Z :=
  let n := 10 * Z.pos m in
  if 0 <=? e then n * 2 ^ e
  else
    let d := 2 ^ (- e) in
    let q := n / d in
    let r := n mod d in
    if 2 * r <? d then q
    else if d <? 2 * r then q + 1
    else if Z.even q then q else q + 1.

Definition decimal (n : Z) : string :=
  NilZero.string_of_uint (N.to_uint (Z.to_N n)).

Definition sign_prefix (negative : bool) : string :=
  if negative then "-" else "".

(** [fixed1 t] prints [t] tenths with one digit after the point. *)
Definition fixed1 (t : Z) : string :=
  decimal (t / 10) +:+ "." +:+ decimal (t mod 10).

(** [format(x, '.1f')] for a Python float [x]. *)
Definition format_1f (x : float) : string :=
  match Prim2SF x with
  | S754_nan => "nan"
  | S754_infinity s => sign_prefix s +:+ "inf"
  | S754_zero s => sign_prefix s +:+ "0.0"
  | S754_finite s m e => sign_prefix s +:+ fixed1 (tenths m e)
  end.




End PyFormat.

(** ** The episode recorder: [Visualizer.create_episode_video] *)

Module Recorder.
Import PyFormat.

(** *** Frames *)

(** An image as [env.render()] returns it in [rgb_array] mode: rows of
    pixels, each pixel three channel values. *)
Definition Raster : Type := list (list (Z * Z * Z)).

(** One [cv2.putText] call: what was drawn and where. *)
Record Overlay := {
  text : string;
  org : Z * Z;
  fontFace : Z;
  fontScale : float;
  color : Z * Z * Z;
  thickness : Z
}.

(** A frame as the recorder holds it: the converted raster and the text
    drawn on it so far, oldest first. *)
Record Frame := { raster : Raster; overlays : list Overlay }.

(** [frame.shape] is [(height, width, 3)]. *)
Definition height (f : Frame) : nat := length (raster f).
Definition width (f : Frame) : nat :=
  match raster f with
  | [] => 0%nat
  | row :: _ => length row
  end.

(** [cv2.cvtColor(frame, cv2.COLOR_RGB2BGR)]: a new array with the first
    and third channel exchanged. *)
Definition cvtColor_RGB2BGR (img : Raster) : Frame :=
  {| raster := map (map (fun '(r, g, b) => (b, g, r))) img; overlays := [] |}.

Definition FONT_HERSHEY_SIMPLEX : Z := 0.

(** [cv2.putText(frame, text, org, font, scale, color, thickness)] draws in
    place. *)
Definition putText (f : Frame) (t : string) (o : Z * Z) (font : Z)
    (scale : float) (c : Z * Z * Z) (th : Z) : Frame :=
  {| raster := raster f;
     overlays := overlays f ++
       [{| text := t; org := o; fontFace := font; fontScale := scale;
           color := c; thickness := th |}] |}.

(** [cv2.VideoWriter_fourcc(c1, c2, c3, c4)]: the four character codes
    packed little-endian into one integer. *)
Definition VideoWriter_fourcc (c1 c2 c3 c4 : Ascii.ascii) : Z :=
  let code (c : Ascii.ascii) := Z.of_nat (Ascii.nat_of_ascii c) in
  Z.lor (Z.lor (code c1) (Z.shiftl (code c2) 8))
        (Z.lor (Z.shiftl (code c3) 16) (Z.shiftl (code c4) 24)).

(** *** What can be observed of a run *)

Variant event :=
| EvPrint (line : string)
    (** a line printed on standard output *)
| EvStep (reward : float)
    (** [env.step(action)] returned, with this reward *)
| EvOpen (path : string) (fourcc : Z) (fps : float) (frameSize : nat * nat)
    (** [cv2.VideoWriter(path, fourcc, fps, frameSize)] was called *)
| EvWrite (f : Frame)
    (** [out.write(f)] was called *)
| EvRelease.
    (** [out.release()] was called *)

(** *** Projections of the trace *)

Definition is_encoder_event (e : event) : bool :=
  match e with
  | EvOpen _ _ _ _ | EvWrite _ | EvRelease => true
  | EvPrint _ | EvStep _ => false
  end.

Definition encoder_events (l : list event) : list event :=
  List.filter is_encoder_event l.

Definition step_rewards (l : list event) : list float :=
  omap (fun e => match e with EvStep r => Some r | _ => None end) l.

Definition is_open (e : event) : bool :=
  match e with
  | EvOpen _ _ _ _ => true
  | _ => false
  end.

(** The number of [cv2.VideoWriter] calls: each one creates the file. *)
Definition opens (l : list event) : nat := length (List.filter is_open l).

(** *** The collaborators *)

Definition Obs : Type := list (list Z).
Definition Action : Type := Z.

(** What [env.step] returns:
    [(next_state, reward, done, truncated, next_info)]. *)
Definition StepResult : Type :=
  Obs * float * bool * bool * option (gmap string float).

(** The environment, the agent and the video encoder, over a world state
    [W] of their own.  Each call returns or raises, and leaves a new world. *)
Class Collaborators (W : Type) := {
  import_cv2 : W -> result unit * W;
  env_reset : W -> result (Obs * option (gmap string float)) * W;
  env_render : W -> result (option Raster) * W;
  (** [env.unwrapped._get_info()] *)
  env_get_info : W -> result (option (gmap string float)) * W;
  env_step : Action -> W -> result StepResult * W;
  (** [agent.select_action(state, info=info, training=training)] *)
  agent_select_action :
    Obs -> option (gmap string float) -> bool -> W -> result Action * W;
  writer_open : string -> Z -> float -> nat * nat -> W -> result unit * W;
  writer_write : Frame -> W -> result unit * W;
  writer_release : W -> result unit * W
}.

(** *** The machine: world, observable trace and the function's locals *)

Record Machine (W : Type) := {
  world : W;
  (** the trace, oldest event first *)
  log : list event;
  frames : list Frame;
  state : Obs;
  info : option (gmap string float);
  done : bool;
  truncated : bool;
  total_reward : float;
  (** ['out' in locals()] *)
  out : bool
}.
Arguments world {W} _.
Arguments log {W} _.
Arguments frames {W} _.
Arguments state {W} _.
Arguments info {W} _.
Arguments done {W} _.
Arguments truncated {W} _.
Arguments total_reward {W} _.
Arguments out {W} _.

Section Run.
Context {W : Type} `{Collaborators W}.

(** [emit e m]: the event [e] is appended to the trace. *)
Definition emit (e : event) (m : Machine W) : Machine W :=
  {| world := world m; log := log m ++ [e]; frames := frames m;
     state := state m; info := info m; done := done m;
     truncated := truncated m; total_reward := total_reward m;
     out := out m |}.

Definition set_world (w : W) (m : Machine W) : Machine W :=
  {| world := w; log := log m; frames := frames m;
     state := state m; info := info m; done := done m;
     truncated := truncated m; total_reward := total_reward m;
     out := out m |}.

Definition set_frames (fs : list Frame) (m : Machine W) : Machine W :=
  {| world := world m; log := log m; frames := fs;
     state := state m; info := info m; done := done m;
     truncated := truncated m; total_reward := total_reward m;
     out := out m |}.

Definition set_state (s : Obs) (m : Machine W) : Machine W :=
  {| world := world m; log := log m; frames := frames m;
     state := s; info := info m; done := done m;
     truncated := truncated m; total_reward := total_reward m;
     out := out m |}.

Definition set_info (i : option (gmap string float)) (m : Machine W)
    : Machine W :=
  {| world := world m; log := log m; frames := frames m;
     state := state m; info := i; done := done m;
     truncated := truncated m; total_reward := total_reward m;
     out := out m |}.

Definition set_flags (d t : bool) (m : Machine W) : Machine W :=
  {| world := world m; log := log m; frames := frames m;
     state := state m; info := info m; done := d;
     truncated := t; total_reward := total_reward m;
     out := out m |}.

Definition set_total_reward (r : float) (m : Machine W) : Machine W :=
  {| world := world m; log := log m; frames := frames m;
     state := state m; info := info m; done := done m;
     truncated := truncated m; total_reward := r;
     out := out m |}.

Definition bind_out (m : Machine W) : Machine W :=
  {| world := world m; log := log m; frames := frames m;
     state := state m; info := info m; done := done m;
     truncated := truncated m; total_reward := total_reward m;
     out := true |}.

(** A call into a collaborator. *)
Definition call {A} (f : W -> result A * W) : M (Machine W) A :=
  fun m => let '(r, w) := f (world m) in Some (r, set_world w m).

Definition print (line : string) : M (Machine W) unit :=
  modify (emit (EvPrint line)).

End Run.

Section Video.
Context {W : Type} `{Collaborators W}.

(** [info[key]]: subscripting [None] is a [TypeError], a missing key a
    [KeyError]. *)
Definition subscript (i : option (gmap string float)) (key : string)
    : M (Machine W) float :=
  match i with
  | None => raise (TypeError "'NoneType' object is not subscriptable")
  | Some d =>
      match d !! key with
      | Some v => ret v
      | None => raise (KeyError key)
      end
  end.

(** Lines 77-89: the frame is converted, the four status lines are drawn on
    it in turn, and only then is it appended to [frames]. *)
Definition annotate_and_collect (img : Raster) : M (Machine W) unit :=
  let frame := cvtColor_RGB2BGR img in
  let font := FONT_HERSHEY_SIMPLEX in
  i <- gets info ;;
  health <- subscript i "health" ;;
  let frame := putText frame ("Health: " +:+ format_1f health)
                 (10, 20) font 0.5%float (0, 0, 0) 1 in
  hunger <- subscript i "hunger" ;;
  let frame := putText frame ("Hunger: " +:+ format_1f hunger)
                 (10, 40) font 0.5%float (0, 0, 0) 1 in
  attack <- subscript i "attack" ;;
  let frame := putText frame ("Attack: " +:+ format_1f attack)
                 (10, 60) font 0.5%float (0, 0, 0) 1 in
  total <- gets total_reward ;;
  let frame := putText frame ("Reward: " +:+ format_1f total)
                 (10, 80) font 0.5%float (0, 0, 0) 1 in
  modify (fun m => set_frames (frames m ++ [frame]) m).

(** [env.step(action)] and the unpacking of its five results (line 95). *)
Definition step_and_unpack (action : Action)
    : M (Machine W) (Obs * float * option (gmap string float)) :=
  '(next_state, reward, d, t, next_info) <- call (env_step action) ;;
  modify (emit (EvStep reward)) ;;
  modify (set_flags d t) ;;
  ret (next_state, reward, next_info).

(** Lines 76-99: the body of the inner [try]. *)
Definition iteration : M (Machine W) unit :=
  frame <- call env_render ;;
  match frame with
  | Some img => annotate_and_collect img
  | None => ret tt
  end ;;
  i <- gets info ;;
  match i with
  | None => i' <- call env_get_info ;; modify (set_info i')
  | Some _ => ret tt
  end ;;
  st <- gets state ;;
  i <- gets info ;;
  action <- call (agent_select_action st i false) ;;
  '(next_state, reward, next_info) <- step_and_unpack action ;;
  modify (fun m => set_total_reward (total_reward m + reward)%float m) ;;
  modify (set_state next_state) ;;
  modify (set_info next_info).

Variant control := Continue | Break.

(** Lines 75-102: one pass of the loop body; an [Exception] raised in it is
    reported and leaves the loop. *)
Definition guarded_iteration : M (Machine W) control :=
  try_except
    (iteration ;; ret Continue)
    (fun e =>
       print ("Warning: Error during episode recording: " +:+ message e) ;;
       ret Break).

(** Lines 74-102: [while not (done or truncated)].  The loop has no bound of
    its own; [fuel] bounds the number of passes of the model. *)
Fixpoint rollout (fuel : nat) : M (Machine W) unit :=
  fun m =>
    if done m || truncated m then Some (Return tt, m)
    else
      match fuel with
      | O => None
      | S fuel' =>
          (c <- guarded_iteration ;;
           match c with
           | Continue => rollout fuel'
           | Break => ret tt
           end) m
      end.

(** [for frame in frames: out.write(frame)] *)
Fixpoint write_all (fs : list Frame) : M (Machine W) unit :=
  match fs with
  | [] => ret tt
  | f :: fs' =>
      modify (emit (EvWrite f)) ;;
      call (writer_write f) ;;
      write_all fs'
  end.

Definition release : M (Machine W) unit :=
  modify (emit EvRelease) ;;
  call writer_release.

(** Lines 104-116. *)
Definition save_video (save_path : string) : M (Machine W) unit :=
  fs <- gets frames ;;
  match fs with
  | first :: _ =>
      let height := height first in
      let width := width first in
      let fourcc := VideoWriter_fourcc "m"%char "p"%char "4"%char "v"%char in
      modify (emit (EvOpen save_path fourcc 5.0%float (width, height))) ;;
      call (writer_open save_path fourcc 5.0%float (width, height)) ;;
      modify bind_out ;;
      write_all fs ;;
      release ;;
      print ("Video saved to: " +:+ save_path)
  | [] => print "Warning: No frames were captured"
  end.

(** The locals of a fresh call: [state] and [info] are unbound until
    [env.reset()] has returned and are not read before.  [total_reward]
    starts as the int [0]; it is only formatted with [:.1f] and added to
    float rewards, where it behaves as the float [0.0]. *)
Definition fresh (w : W) : Machine W :=
  {| world := w; log := []; frames := []; state := []; info := None;
     done := false; truncated := false; total_reward := 0%float;
     out := false |}.

(** Lines 67-116: the body of the outer [try]. *)
Definition record_episode (fuel : nat) (save_path : string)
    : M (Machine W) unit :=
  call import_cv2 ;;
  modify (set_frames []) ;;
  '(s, i) <- call env_reset ;;
  modify (set_state s) ;;
  modify (set_info i) ;;
  modify (set_flags false false) ;;
  modify (set_total_reward 0%float) ;;
  rollout fuel ;;
  save_video save_path.

(** Lines 118-121: the handler of the outer [try]. *)
Definition on_failure (e : pyexc) : M (Machine W) unit :=
  print ("Warning: Failed to create video: " +:+ message e) ;;
  o <- gets out ;;
  if o then release else ret tt.

(** Lines 65-121.  [env] and [agent] are the collaborators of the world
    [w]. *)
Definition create_episode_video (fuel : nat) (save_path : string) (w : W)
    : option (result unit * Machine W) :=
  try_except (record_episode fuel save_path) on_failure (fresh w).

(** *** Episodes as the collaborators play them *)

(** One pass of the loop in which nothing raises: the image rendered, the
    three status values read from [info], and the reward of the step. *)
Record Round := {
  shown : Raster;
  health : float;
  hunger : float;
  attack : float;
  reward : float
}.

(** The frame such a pass appends when the running total is [total]. *)
Definition status_line (label : string) (value : float) (y : Z) : Overlay :=
  {| text := label +:+ ": " +:+ format_1f value; org := (10, y);
     fontFace := FONT_HERSHEY_SIMPLEX; fontScale := 0.5%float;
     color := (0, 0, 0); thickness := 1 |}.

Definition annotated (r : Round) (total : float) : Frame :=
  {| raster := raster (cvtColor_RGB2BGR (shown r));
     overlays := [status_line "Health" (health r) 20;
                  status_line "Hunger" (hunger r) 40;
                  status_line "Attack" (attack r) 60;
                  status_line "Reward" total 80] |}.

Fixpoint annotated_from (total : float) (rs : list Round) : list Frame :=
  match rs with
  | [] => []
  | r :: rs' => annotated r total :: annotated_from (total + reward r)%float rs'
  end.

(** Python's [sum]: the rewards added from the left, starting from [start]. *)
Definition total_of (start : float) (rewards : list float) : float :=
  fold_left PrimFloat.add rewards start.

(** [reads d r]: the mapping [d] holds the status values of [r]. *)
Definition reads (d : gmap string float) (r : Round) : Prop :=
  d !! "health" = Some (health r) /\
  d !! "hunger" = Some (hunger r) /\
  d !! "attack" = Some (attack r).

(** [last_pass w s d r answer w']: in one pass from the world [w] the render
    yields the image of [r], [d] holds its status values, the agent chooses
    an action, and [env.step] gives [answer] (a result or an exception) and
    leaves the world [w']. *)
Definition last_pass (w : W) (s : Obs) (d : gmap string float) (r : Round)
    (answer : result StepResult) (w' : W) : Prop :=
  exists w1 a w2,
    env_render w = (Return (Some (shown r)), w1) /\
    reads d r /\
    agent_select_action s (Some d) false w1 = (Return a, w2) /\
    env_step a w2 = (answer, w').

(** [starts w s d w']: [import cv2] and [env.reset()] succeed from the world
    [w], the latter with the observation [s] and the status mapping [d]. *)
Definition starts (w : W) (s : Obs) (d : gmap string float) (w' : W) : Prop :=
  exists w0,
    import_cv2 w = (Return tt, w0) /\
    env_reset w0 = (Return (s, Some d), w').

(** [plays w s d rs w' s' d']: from the world [w], with observation [s] and
    status mapping [d] in hand, the collaborators answer [length rs]
    successive passes (a render that yields an image, the agent's choice, a
    step that returns) none of which raises or ends the episode, and leave
    the world [w'] with [s'] and [d'] in hand. *)
Inductive plays : W -> Obs -> gmap string float -> list Round ->
                  W -> Obs -> gmap string float -> Prop :=
| plays_nil w s d : plays w s d [] w s d
| plays_cons w s d r s1 d1 w1 rs w' s' d' :
    last_pass w s d r (Return (s1, reward r, false, false, Some d1)) w1 ->
    plays w1 s1 d1 rs w' s' d' ->
    plays w s d (r :: rs) w' s' d'.

(** *** Machines that the statements below name *)

(** The locals when the loop is entered. *)
Definition entered (w : W) (s : Obs) (i : option (gmap string float))
    : Machine W :=
  {| world := w; log := []; frames := []; state := s; info := i;
     done := false; truncated := false; total_reward := 0%float;
     out := false |}.

(** The machine after a pass that went through: the frame is collected with
    the total before the step, the step is logged and its reward added. *)
Definition after_pass (m : Machine W) (r : Round) (w : W) (s : Obs)
    (dn tr : bool) (i : option (gmap string float)) : Machine W :=
  {| world := w; log := log m ++ [EvStep (reward r)];
     frames := frames m ++ [annotated r (total_reward m)];
     state := s; info := i; done := dn; truncated := tr;
     total_reward := (total_reward m + reward r)%float; out := out m |}.

(** The passes of [plays] as the loop runs them. *)
Definition after_passes (m : Machine W) (rs : list Round) (w : W) (s : Obs)
    (d : gmap string float) : Machine W :=
  {| world := w; log := log m ++ map EvStep (map reward rs);
     frames := frames m ++ annotated_from (total_reward m) rs;
     state := s; info := Some d; done := false; truncated := false;
     total_reward := total_of (total_reward m) (map reward rs);
     out := out m |}.

(** The frame size the writer is opened with. *)
Definition resolution (fs : list Frame) : nat * nat :=
  match fs with
  | f :: _ => (width f, height f)
  | [] => (0%nat, 0%nat)
  end.

Definition fourcc_mp4v : Z := VideoWriter_fourcc "m" "p" "4" "v".

(** The machine [m] with the world [w], the events [es] appended to its
    trace and [out] bound or not. *)
Definition finished (m : Machine W) (w : W) (es : list event) (o : bool)
    : Machine W :=
  {| world := w; log := log m ++ es; frames := frames m; state := state m;
     info := info m; done := done m; truncated := truncated m;
     total_reward := total_reward m; out := o |}.

(** The trace of a save that goes through. *)
Definition saved (path : string) (fs : list Frame) : list event :=
  EvOpen path fourcc_mp4v 5.0%float (resolution fs) ::
  map EvWrite fs ++ [EvRelease; EvPrint ("Video saved to: " +:+ path)].

(** The encoder accepts every call, whatever the world it is called in. *)
Definition encoder_accepts : Prop :=
  (forall p c fps sz w, (writer_open p c fps sz w).1 = Return tt) /\
  (forall f w, (writer_write f w).1 = Return tt) /\
  (forall w, (writer_release w).1 = Return tt).

(** The encoder calls of a run that opened the writer for the frames [fs],
    wrote the first [k] of them and released it [j] times. *)
Definition encoder_trace (path : string) (fs : list Frame) (k j : nat)
    : list event :=
  EvOpen path fourcc_mp4v 5.0%float (resolution fs) ::
  map EvWrite (take k fs) ++ replicate j EvRelease.

(** The frames handed to [out.write], in the order of the calls. *)
Definition written (l : list event) : list Frame :=
  omap (fun e => match e with EvWrite f => Some f | _ => None end) l.

(** The running total is the sum of the rewards of the steps logged. *)
Definition tallied (m : Machine W) : Prop :=
  total_reward m = total_of 0 (step_rewards (log m)).

(** No encoder call was made and [out] is unbound. *)
Definition quiet (m : Machine W) : Prop :=
  encoder_events (log m) = [] /\ out m = false.

(** The last thing the run did was to report the saved video. *)
Definition video_saved (path : string) (m : Machine W) : Prop :=
  last (log m) = Some (EvPrint ("Video saved to: " +:+ path)).

(** *** Parts of a pass and invariants of a run *)

(** The tail of a pass, from the step on (lines 95-99). *)
Definition step_onwards (action : Action) : M (Machine W) unit :=
  '(next_state, reward, next_info) <- step_and_unpack action ;;
  modify (fun m => set_total_reward (total_reward m + reward)%float m) ;;
  modify (set_state next_state) ;;
  modify (set_info next_info).

(** The head of a pass: render and, for an image, annotate and collect
    (lines 76-89). *)
Definition render_and_collect : M (Machine W) unit :=
  frame <- call env_render ;;
  match frame with
  | Some img => annotate_and_collect img
  | None => ret tt
  end.

(** The middle of a pass: the fallback for a missing [info] and the agent's
    choice (lines 91-94), followed by the tail. *)
Definition recover_and_step : M (Machine W) unit :=
  i <- gets info ;;
  match i with
  | None => i' <- call env_get_info ;; modify (set_info i')
  | Some _ => ret tt
  end ;;
  st <- gets state ;;
  i <- gets info ;;
  action <- call (agent_select_action st i false) ;;
  step_onwards action.

(** An invariant that no call, no assignment to [state], [info], [done] or
    [truncated] and no printed warning disturbs. *)
Record steady (I : Machine W -> Prop) : Prop := {
  steady_world : forall m w, I m -> I (set_world w m);
  steady_state : forall m s, I m -> I (set_state s m);
  steady_info : forall m i, I m -> I (set_info i m);
  steady_flags : forall m d t, I m -> I (set_flags d t m);
  steady_warning :
    forall m rest, I m -> I (emit (EvPrint ("Warning: " +:+ rest)) m)
}.

(** An invariant that the encoder calls and the printed lines of the save and
    of the outer handler do not disturb. *)
Record calm (I : Machine W -> Prop) : Prop := {
  calm_world : forall m w, I m -> I (set_world w m);
  calm_out : forall m, I m -> I (bind_out m);
  calm_event : forall m e,
    (forall r, e <> EvStep r) -> I m -> I (emit e m)
}.

(** The ways [save_video] can end. *)
Variant save_outcome (path : string) (m : Machine W)
    : result unit -> Machine W -> Prop :=
| no_frames_reported :
    frames m = [] ->
    save_outcome path m (Return tt)
      (emit (EvPrint "Warning: No frames were captured") m)
| open_raised e w :
    frames m <> [] ->
    save_outcome path m (Raise e)
      (finished m w (encoder_trace path (frames m) 0 0) (out m))
| write_raised e w k :
    frames m <> [] -> (k <= length (frames m))%nat ->
    save_outcome path m (Raise e)
      (finished m w (encoder_trace path (frames m) k 0) true)
| release_raised e w :
    frames m <> [] ->
    save_outcome path m (Raise e)
      (finished m w (encoder_trace path (frames m) (length (frames m)) 1) true)
| video_written w :
    frames m <> [] ->
    save_outcome path m (Return tt)
      (finished m w (saved path (frames m)) true).

(** What the encoder has seen when [create_episode_video] is left: nothing,
    or an opening for the first frame's size, the first [k] frames and [j]
    releases. *)
Definition accounted (path : string) (r : result unit) (m : Machine W)
    : Prop :=
  (quiet m /\ ~ video_saved path m) \/
  (frames m <> [] /\
   exists k j,
     encoder_events (log m) = encoder_trace path (frames m) k j /\
     (k <= length (frames m))%nat /\
     (out m = false -> k = 0%nat /\ j = 0%nat) /\
     (out m = true -> j = 0%nat ->
      exists e, r = Raise e /\ catchable e = false) /\
     (video_saved path m ->
      k = length (frames m) /\ j = 1%nat /\ r = Return tt)).

(** The loop makes no encoder call and does not report a saved video. *)
Definition rolling (path : string) (m : Machine W) : Prop :=
  quiet m /\ ~ video_saved path m.

(** What the outer [try] block leaves: it raised before the save, or the
    save ended in one of its ways from a machine of the loop. *)
Definition tried (path : string) (r : result unit) (m : Machine W) : Prop :=
  (rolling path m /\ exists e, r = Raise e) \/
  (exists m0, rolling path m0 /\ save_outcome path m0 r m).

(** Every line printed so far is a warning. *)
Definition warned (m : Machine W) : Prop :=
  forall line, EvPrint line ∈ log m -> exists rest, line = "Warning: " +:+ rest.

(** Nothing was collected, the encoder was not called, only warnings were
    printed. *)
Definition blank (m : Machine W) : Prop :=
  frames m = [] /\ quiet m /\ warned m.

(** What the run leaves when the environment never renders. *)
Definition reported_blank (r : result unit) (m : Machine W) : Prop :=
  blank m /\
  (r = Return tt \/ exists e, r = Raise e /\ catchable e = false) /\
  (r = Return tt ->
   last (log m) = Some (EvPrint "Warning: No frames were captured") \/
   exists e,
     last (log m) =
       Some (EvPrint ("Warning: Failed to create video: " +:+ message e))).

End Video.

End Recorder.

(** ** The position heatmap: [Visualizer.plot_state_heatmap] *)

Module Heatmap.

(** One entry of [results['results']]. *)
Record Episode := { actions : list Z; states : list (list (list Z)) }.

(** The evaluation-results file after [json.load]. *)
Record EvalResults := {
  environment : gmap string Z;
  results : list Episode
}.

(** The hits of [== 4] in the row of index [x], from column [y] on. *)
Fixpoint row_hits (x y : nat) (row : list Z) : list (nat * nat) :=
  match row with
  | [] => []
  | c :: row' =>
      if c =? 4 then (x, y) :: row_hits x (S y) row'
      else row_hits x (S y) row'
  end.

Fixpoint hits_from (x : nat) (grid : list (list Z)) : list (nat * nat) :=
  match grid with
  | [] => []
  | row :: grid' => row_hits x 0 row ++ hits_from (S x) grid'
  end.

(** [np.where(state_array == 4)] for a two-dimensional array: the row
    indices and the column indices of the cells equal to 4, in row-major
    order. *)
Definition np_where_eq4 (state_array : list (list Z)) : list nat * list nat :=
  let hits := hits_from 0 state_array in
  (map fst hits, map snd hits).

(** Lines 181-185 for one state: the position appended, if any. *)
Definition agent_position (state : list (list Z)) : option (nat * nat) :=
  let agent_pos := np_where_eq4 state in
  match agent_pos.1, agent_pos.2 with
  | x :: _, y :: _ => Some (x, y)
  | _, _ => None
  end.

(** Lines 178-185: the two nested loops that fill [positions]. *)
Definition collect_positions (episodes : list Episode) : list (nat * nat) :=
  fold_left
    (fun positions episode =>
       fold_left
         (fun positions state =>
            match agent_position state with
            | Some p => positions ++ [p]
            | None => positions
            end)
         (states episode) positions)
    episodes [].

(** [np.zeros((grid_size, grid_size))] *)
Definition np_zeros (grid_size : Z) : result (list (list nat)) :=
  if grid_size <? 0 then
    Raise (ValueError "negative dimensions are not allowed")
  else
    Return (replicate (Z.to_nat grid_size) (replicate (Z.to_nat grid_size) 0%nat)).

(** [position_counts[x, y] += 1]: an index outside the array raises. *)
Definition increment (counts : list (list nat)) (p : nat * nat)
    : result (list (list nat)) :=
  let '(x, y) := p in
  match counts !! x with
  | None => Raise (IndexError "index is out of bounds for axis 0")
  | Some row =>
      match row !! y with
      | None => Raise (IndexError "index is out of bounds for axis 1")
      | Some c => Return (<[x := <[y := S c]> row]> counts)
      end
  end.

(** Lines 189-190. *)
Fixpoint count_positions (positions : list (nat * nat))
    (counts : list (list nat)) : result (list (list nat)) :=
  match positions with
  | [] => Return counts
  | p :: positions' =>
      match increment counts p with
      | Return counts' => count_positions positions' counts'
      | Raise e => Raise e
      end
  end.

(** [position_counts.max()]: the maximum of an array without cells has no
    value. *)
Definition np_max (counts : list (list nat)) : result nat :=
  match concat counts with
  | [] =>
      Raise (ValueError
        "zero-size array to reduction operation maximum which has no identity")
  | c :: cs => Return (fold_left Nat.max cs c)
  end.

(** A count as the array element it is, and the quotient of two counts with
    a positive divisor. *)
Definition as_value (c : nat) : Q := inject_Z (Z.of_nat c).
Definition quotient (c m : nat) : Q := Qmake (Z.of_nat c) (Pos.of_nat m).

(** Lines 176-193: the array handed to [sns.heatmap]. *)
Definition plot_state_heatmap (r : EvalResults) : result (list (list Q)) :=
  let grid_size := default 16 (environment r !! "size") in
  let positions := collect_positions (results r) in
  match np_zeros grid_size with
  | Raise e => Raise e
  | Return zeros =>
      match count_positions positions zeros with
      | Raise e => Raise e
      | Return position_counts =>
          match np_max position_counts with
          | Raise e => Raise e
          | Return m =>
              if (0 <? m)%nat then
                Return (map (map (fun c => quotient c m)) position_counts)
              else
                Return (map (map as_value) position_counts)
          end
      end
  end.

(** The cell of a grid, and "before in row-major order". *)
Definition cell (grid : list (list Z)) (x y : nat) : option Z :=
  grid !! x ≫= fun row => row !! y.

Definition before (p q : nat * nat) : Prop :=
  (p.1 < q.1)%nat \/ (p.1 = q.1 /\ (p.2 < q.2)%nat).

Definition number_of_states (episodes : list Episode) : nat :=
  length (concat (map states episodes)).

(** [square n counts]: [counts] has [n] rows of [n] cells. *)
Definition square (n : nat) (counts : list (list nat)) : Prop :=
  length counts = n /\ Forall (fun row => length row = n) counts.

(** [within n p]: the position [p] is an index of an [n] x [n] array. *)
Definition within (n : nat) (p : nat * nat) : Prop :=
  (p.1 < n)%nat /\ (p.2 < n)%nat.

(** Four states on a 3 x 3 grid: the agent twice at (1, 1), where the first
    state holds a second and a third cell equal to 4, once at (0, 0), and
    once nowhere. *)
Definition sample : EvalResults :=
  {| environment := {["size" := 3]};
     results :=
       [{| actions := [1; 4];
           states := [[[0; 0; 0]; [0; 4; 4]; [4; 0; 0]];
                      [[0; 0; 0]; [0; 0; 0]; [0; 0; 0]]] |};
        {| actions := [0; 2];
           states := [[[4; 0; 0]; [0; 0; 0]; [0; 0; 0]];
                      [[0; 1; 0]; [0; 4; 0]; [0; 0; 0]]] |}] |}.

Definition sample_heatmap : list (list Q) :=
  [[1 # 2; 0 # 2; 0 # 2]; [0 # 2; 2 # 2; 0 # 2]; [0 # 2; 0 # 2; 0 # 2]]%Q.

End Heatmap.

(** ** The entry point: [main] and [Visualizer.__init__] *)

Module Script.

(** [eval_data['config']]: the two sections the script reads. *)
Record Config := {
  environment : gmap string Z;
  agent : gmap string Z
}.

(** The file system and the libraries [main] calls into, over a host state
    [H].  Queries leave the host as it is; the plotting and recording calls
    return or raise and leave a new host (with the files they wrote).  The
    first argument of a plotting call is the visualizer's [save_dir]. *)
Class Host (H : Type) := {
  (** [os.path.exists(path)] *)
  path_exists : string -> H -> bool;
  (** [open(path)], [json.load] and the lookup of ['config'] *)
  load_config : string -> H -> result Config;
  (** [os.makedirs(path, exist_ok=True)] for a [str] path *)
  os_makedirs : string -> H -> result unit * H;
  plot_training_curves : string -> string -> H -> result unit * H;
  plot_action_distribution : string -> string -> H -> result unit * H;
  plot_state_heatmap : string -> string -> H -> result unit * H;
  (** [gym.make('SurvivalGame-v0', render_mode=..., **kwargs)] *)
  gym_make : string -> list (string * Z) -> H -> result unit * H;
  (** [DQNAgent(..., config=config['agent'])] and [agent.load(model_path)] *)
  load_agent : gmap string Z -> string -> H -> result unit * H;
  create_episode_video : string -> H -> result unit * H;
  visualize_value_function : string -> H -> result unit * H;
  env_close : H -> result unit * H
}.

Record Process (H : Type) := { host : H; stdout : list string }.
Arguments host {H} _.
Arguments stdout {H} _.

(** [os.path.join(a, b)] for a relative [b]. *)
Definition path_join (a b : string) : string :=
  if String.eqb a "" then b
  else if String.eqb (substring (String.length a - 1) 1 a) "/" then a +:+ b
  else a +:+ "/" +:+ b.

(** The text an optional string is formatted to: [None] prints as
    [None]. *)
Definition str (p : option string) : string := default "None" p.

Section Main.
Context {H : Type} `{Host H}.

Definition print (line : string) : M (Process H) unit :=
  modify (fun p => {| host := host p; stdout := stdout p ++ [line] |}).

Definition query {A} (f : H -> A) : M (Process H) A := gets (fun p => f (host p)).

Definition fallible {A} (f : H -> result A) : M (Process H) A :=
  fun p =>
    match f (host p) with
    | Return a => Some (Return a, p)
    | Raise e => Some (Raise e, p)
    end.

Definition call {A} (f : H -> result A * H) : M (Process H) A :=
  fun p =>
    let '(r, h) := f (host p) in
    Some (r, {| host := h; stdout := stdout p |}).

(** [path and os.path.exists(path)] *)
Definition present (path : option string) : M (Process H) bool :=
  match path with
  | None => ret false
  | Some s => if String.eqb s "" then ret false else query (path_exists s)
  end.

(** Lines 16-18: [Visualizer(save_dir)].  [os.makedirs] takes the path
    apart with [os.fspath], which raises [TypeError] for [None]; the result
    is the visualizer's [save_dir]. *)
Definition Visualizer (save_dir : option string) : M (Process H) string :=
  match save_dir with
  | None =>
      raise (TypeError
        "expected str, bytes or os.PathLike object, not NoneType")
  | Some dir => call (os_makedirs dir) ;; ret dir
  end.

Definition get (d : gmap string Z) (key : string) (fallback : Z)
    : string * Z :=
  (key, default fallback (d !! key)).

(** Lines 206-212: the configuration is loaded, or the default one is taken
    and a warning printed. *)
Definition load_or_default (eval_results_path : option string)
    : M (Process H) Config :=
  found <- present eval_results_path ;;
  if found then fallible (load_config (str eval_results_path))
  else
    print "Warning: No evaluation results found, using default config" ;;
    ret {| environment := ∅; agent := ∅ |}.

(** Lines 205-266. *)
Definition main
    (tensorboard_log_dir eval_results_path model_path : option string)
    (save_dir timestamp : option string) : M (Process H) unit :=
  config <- load_or_default eval_results_path ;;
  let save_dir :=
    match save_dir, timestamp with
    | None, Some ts =>
        Some (path_join "results/evaluation" ("experiment_" +:+ ts))
    | _, _ => save_dir
    end in
  visualizer <- Visualizer save_dir ;;
  let grid_size := default 16 (environment config !! "size") in
  found <- present tensorboard_log_dir ;;
  (if found then
     print "Plotting training curves..." ;;
     call (plot_training_curves visualizer (str tensorboard_log_dir))
   else print "Skipping training curves (no tensorboard logs available)") ;;
  print "Plotting action distribution and state heatmap..." ;;
  found <- present eval_results_path ;;
  (if found then
     call (plot_action_distribution visualizer (str eval_results_path)) ;;
     call (plot_state_heatmap visualizer (str eval_results_path))
   else
     print ("Warning: Evaluation results not found at " +:+
            str eval_results_path)) ;;
  found <- present model_path ;;
  (if found then
     print "Creating episode video..." ;;
     let e := environment config in
     call (gym_make "rgb_array"
             [("size", grid_size); get e "max_steps" 1000;
              get e "num_food" 10; get e "num_threats" 5;
              get e "food_value_min" 10; get e "food_value_max" 30;
              get e "threat_attack_min" 20; get e "threat_attack_max" 40;
              get e "agent_attack_min" 30; get e "agent_attack_max" 50;
              get e "hungry_decay" 2; get e "observation_range" 4;
              get e "threat_perception_range" 2]) ;;
     call (load_agent (agent config) (str model_path)) ;;
     let video_path := path_join visualizer "episode.mp4" in
     call (create_episode_video video_path) ;;
     print "Visualizing value function..." ;;
     let value_path := path_join visualizer "value_function.png" in
     call (visualize_value_function value_path) ;;
     call env_close
   else ret tt) ;;
  print ("Visualizations saved to: " +:+ visualizer).

End Main.

End Script.

(** ** Stub collaborators: a scripted environment, agent and encoder *)

Module Stub.
Import Recorder.

(** The world is the script that is left: each [render] and [step] call
    consumes its next answer. *)
Record World := {
  on_reset : result (Obs * option (gmap string float));
  renders : list (result (option Raster));
  steps : list (result StepResult);
  on_get_info : result (option (gmap string float));
  get_info_calls : nat;
  (** [Some n]: a faulty encoder raises on its [n+1]-th [write] *)
  writes_until_failure : option nat
}.

Definition exhausted : pyexc := PyExc true "script exhausted".

Definition stub_render (w : World) : result (option Raster) * World :=
  match renders w with
  | [] => (Raise exhausted, w)
  | r :: rest =>
      (r, {| on_reset := on_reset w; renders := rest; steps := steps w;
             on_get_info := on_get_info w;
             get_info_calls := get_info_calls w;
             writes_until_failure := writes_until_failure w |})
  end.

Definition stub_step (a : Action) (w : World) : result StepResult * World :=
  match steps w with
  | [] => (Raise exhausted, w)
  | r :: rest =>
      (r, {| on_reset := on_reset w; renders := renders w; steps := rest;
             on_get_info := on_get_info w;
             get_info_calls := get_info_calls w;
             writes_until_failure := writes_until_failure w |})
  end.

Definition stub_get_info (w : World)
    : result (option (gmap string float)) * World :=
  (on_get_info w,
   {| on_reset := on_reset w; renders := renders w; steps := steps w;
      on_get_info := on_get_info w;
      get_info_calls := S (get_info_calls w);
      writes_until_failure := writes_until_failure w |}).

Definition faulty_write (f : Frame) (w : World) : result unit * World :=
  match writes_until_failure w with
  | None => (Return tt, w)
  | Some O => (Raise (PyExc true "encoder failure"), w)
  | Some (S n) =>
      (Return tt,
       {| on_reset := on_reset w; renders := renders w; steps := steps w;
          on_get_info := on_get_info w;
          get_info_calls := get_info_calls w;
          writes_until_failure := Some n |})
  end.

(** The scripted environment with an agent that always chooses action 0
    and an encoder that accepts every call. *)
#[export] Instance stub : Collaborators World := {|
  import_cv2 := fun w => (Return tt, w);
  env_reset := fun w => (on_reset w, w);
  env_render := stub_render;
  env_get_info := stub_get_info;
  env_step := stub_step;
  agent_select_action := fun _ _ _ w => (Return 0, w);
  writer_open := fun _ _ _ _ w => (Return tt, w);
  writer_write := fun _ w => (Return tt, w);
  writer_release := fun w => (Return tt, w)
|}.

(** The same with an encoder whose [write] fails as scripted. *)
Definition faulty_encoder : Collaborators World := {|
  import_cv2 := fun w => (Return tt, w);
  env_reset := fun w => (on_reset w, w);
  env_render := stub_render;
  env_get_info := stub_get_info;
  env_step := stub_step;
  agent_select_action := fun _ _ _ w => (Return 0, w);
  writer_open := fun _ _ _ _ w => (Return tt, w);
  writer_write := faulty_write;
  writer_release := fun w => (Return tt, w)
|}.

(** The same with an environment whose [render] always returns [None]. *)
Definition blind : Collaborators World := {|
  import_cv2 := fun w => (Return tt, w);
  env_reset := fun w => (on_reset w, w);
  env_render := fun w => (Return None, w);
  env_get_info := stub_get_info;
  env_step := stub_step;
  agent_select_action := fun _ _ _ w => (Return 0, w);
  writer_open := fun _ _ _ _ w => (Return tt, w);
  writer_write := fun _ w => (Return tt, w);
  writer_release := fun w => (Return tt, w)
|}.

(** A status mapping. *)
Definition status (health hunger attack : float) : gmap string float :=
  <["health" := health]> (<["hunger" := hunger]> (<["attack" := attack]> ∅)).

Definition pixel : Z * Z * Z := (255, 128, 0).

(** A [rows] x [cols] image of one colour. *)
Definition image (rows cols : nat) : Raster :=
  replicate rows (replicate cols pixel).

Definition scripted (reset_info : option (gmap string float))
    (rs : list (result (option Raster))) (ss : list (result StepResult))
    : World :=
  {| on_reset := Return ([[4]], reset_info); renders := rs; steps := ss;
     on_get_info := Return (Some (status 100 0 30));
     get_info_calls := 0; writes_until_failure := None |}.

Definition going (reward : float) : result StepResult :=
  Return ([[4]], reward, false, false, Some (status 100 0 30)).

Definition ending (reward : float) : result StepResult :=
  Return ([[4]], reward, true, false, Some (status 100 0 30)).

Definition shows (rows cols : nat) : result (option Raster) :=
  Return (Some (image rows cols)).

(** Three steps with the rewards of the specification's example; the
    episode ends with the third. *)
Definition three_steps : World :=
  scripted (Some (status 55 12.34 40))
    [shows 2 3; shows 2 3; shows 2 3]
    [going 1.0; going (-0.5); ending 2.25].

(** The second [step] call raises. *)
Definition second_step_raises : World :=
  scripted (Some (status 55 12.34 40))
    [shows 2 3; shows 2 3; shows 2 3]
    [going 1.0; Raise (PyExc true "boom")].

(** [env.reset()] returns no [info]; [render] yields an image. *)
Definition no_info_at_reset : World :=
  scripted None [shows 2 3; shows 2 3] [going 1.0; ending 1.0].

(** Two frames of different sizes. *)
Definition mixed_sizes : World :=
  scripted (Some (status 55 12.34 40))
    [shows 1 1; shows 2 2] [going 1.0; ending 1.0].

(** The encoder, when faulty, raises on the second [write]. *)
Definition second_write_fails : World :=
  {| on_reset := Return ([[4]], Some (status 55 12.34 40));
     renders := [shows 2 3; shows 2 3; shows 2 3];
     steps := [going 1.0; going (-0.5); ending 2.25];
     on_get_info := Return (Some (status 100 0 30));
     get_info_calls := 0; writes_until_failure := Some 1%nat |}.


(** An episode of two steps in which nothing is rendered. *)
Definition two_blind_steps : World :=
  scripted (Some (status 55 12.34 40)) [] [going 1.0; ending 1.0].

(** The passes of the stub worlds. *)
Definition first_pass : Round :=
  {| shown := image 2 3; health := 55; hunger := 12.34; attack := 40;
     reward := 1.0 |}.

Definition later_pass (reward : float) : Round :=
  {| shown := image 2 3; health := 100; hunger := 0; attack := 30;
     reward := reward |}.

(** The machine a run leaves. *)
Definition left_by (run : option (result unit * Machine World))
    : Machine World :=
  match run with
  | Some (_, m) => m
  | None => fresh three_steps
  end.

Definition three_steps_end : Machine World :=
  Eval vm_compute in
    left_by (create_episode_video 3 "episode.mp4" three_steps).

Definition second_step_raises_end : Machine World :=
  Eval vm_compute in
    left_by (create_episode_video 2 "episode.mp4" second_step_raises).

Definition no_info_at_reset_end : Machine World :=
  Eval vm_compute in
    left_by (create_episode_video 2 "episode.mp4" no_info_at_reset).

Definition two_blind_steps_end : Machine World :=
  Eval vm_compute in
    left_by (create_episode_video (H := blind) 2 "episode.mp4"
               two_blind_steps).

End Stub.

(** ** The plotting library: [matplotlib.pyplot] and [seaborn] *)

Module Pyplot.

(** One call into the plotting library, with the arguments the script
    passes.  [ax] is the index pair of [axes[i, j]]. *)
Variant drawing :=
| plt_subplots (nrows ncols : Z) (figsize : Z * Z)
| fig_suptitle (t : string) (fontsize : Z)
| ax_plot (ax : Z * Z) (xs : list Z) (ys : list float)
| ax_set_title (ax : Z * Z) (label : string)
| ax_set_xlabel (ax : Z * Z) (label : string)
| ax_set_ylabel (ax : Z * Z) (label : string)
| plt_figure (figsize : Z * Z)
| plt_bar (x : list string) (height : list nat)
| sns_heatmap (data : list (list float)) (cmap : string)
| plt_title (label : string)
| plt_xlabel (label : string)
| plt_ylabel (label : string)
| plt_xticks (rotation : Z)
| plt_tight_layout
| plt_savefig (fname : string)
| plt_close.

(** The library over a state [B] of its own (the open figures, the files
    written): every call returns or raises and leaves a new state. *)
Class Backend (B : Type) := {
  plt : drawing -> B -> result unit * B
}.

(** The library's state and the calls made so far, oldest first; a call is
    recorded when it is made, also when it raises. *)
Record Canvas (B : Type) := { backend : B; drawn : list drawing }.
Arguments backend {B} _.
Arguments drawn {B} _.

(** A computation of Python's or numpy's own, which touches no state. *)
Definition lift {S A} (r : result A) : M S A := fun s => Some (r, s).

Section Draw.
Context {B : Type} `{Backend B}.

Definition draw (d : drawing) : M (Canvas B) unit :=
  fun c =>
    let '(r, b) := plt d (backend c) in
    Some (r, {| backend := b; drawn := drawn c ++ [d] |}).

(** The library makes no objection to any call. *)
Definition accepts_all : Prop := forall d (b : B), (plt d b).1 = Return tt.

End Draw.

(** The files written: the arguments of the [savefig] calls. *)
Definition saved_files (l : list drawing) : list string :=
  omap (fun d => match d with plt_savefig f => Some f | _ => None end) l.

(** A library that accepts everything, with no state of its own. *)
#[export] Instance obliging : Backend unit := {|
  plt := fun _ b => (Return tt, b)
|}.

Definition blank_canvas : Canvas unit := {| backend := tt; drawn := [] |}.

End Pyplot.

(** ** The training curves: [Visualizer.plot_training_curves] *)

Module Curves.
Import Pyplot.

(** A [ScalarEvent] of the event accumulator. *)
Record ScalarEvent := { wall_time : float; step : Z; value : float }.

(** The accumulator after [Reload()]: the scalar series by tag.
    [Tags()['scalars']] lists the keys and [Scalars(tag)] is the series of a
    key, so [tag in tags] followed by [Scalars(tag)] is a lookup. *)
Definition EventAccumulator : Type := gmap string (list ScalarEvent).

(** [steps, values = zip(...)] on the unpacked list of pairs: the two
    columns, or with no pair nothing to unpack. *)
Definition zip_star (pairs : list (Z * float))
    : result (list Z * list float) :=
  match pairs with
  | [] => Raise (ValueError "not enough values to unpack (expected 2, got 0)")
  | _ :: _ => Return (map fst pairs, map snd pairs)
  end.

Section Plot.
Context {B : Type} `{Backend B}.

(** One of the four [if tag in tags:] blocks (lines 29-35, 37-43, 45-51 and
    53-59), which differ in the tag, the axes and the three labels only. *)
Definition curve (event_acc : EventAccumulator) (tag : string) (ax : Z * Z)
    (title xlabel ylabel : string) : M (Canvas B) unit :=
  match event_acc !! tag with
  | Some series =>
      let pairs := map (fun s => (step s, value s)) series in
      '(steps, values) <- lift (zip_star pairs) ;;
      draw (ax_plot ax steps values) ;;
      draw (ax_set_title ax title) ;;
      draw (ax_set_xlabel ax xlabel) ;;
      draw (ax_set_ylabel ax ylabel)
  | None => ret tt
  end.

(** Lines 24-63, for the accumulator that lines 21-22 have loaded. *)
Definition plot_training_curves (save_dir : string)
    (event_acc : EventAccumulator) : M (Canvas B) unit :=
  draw (plt_subplots 2 2 (15, 12)) ;;
  draw (fig_suptitle "Training Progress" 16) ;;
  curve event_acc "Train/Episode_Reward" (0, 0)
    "Training Rewards" "Episode" "Reward" ;;
  curve event_acc "Eval/Average_Reward" (0, 1)
    "Evaluation Rewards" "Episode" "Average Reward" ;;
  curve event_acc "Train/Health" (1, 0)
    "Agent Health" "Episode" "Health" ;;
  curve event_acc "Train/Average_Loss" (1, 1)
    "Training Loss" "Episode" "Loss" ;;
  draw plt_tight_layout ;;
  draw (plt_savefig (Script.path_join save_dir "training_curves.png")) ;;
  draw plt_close.

End Plot.

(** The calls of one block. *)
Definition curve_calls (event_acc : EventAccumulator) (tag : string)
    (ax : Z * Z) (title xlabel ylabel : string) : list drawing :=
  match event_acc !! tag with
  | Some series =>
      [ax_plot ax (map step series) (map value series);
       ax_set_title ax title; ax_set_xlabel ax xlabel;
       ax_set_ylabel ax ylabel]
  | None => []
  end.

(** The four curves: tag and axes. *)
Definition slots : list (string * (Z * Z)) :=
  [("Train/Episode_Reward", (0, 0)); ("Eval/Average_Reward", (0, 1));
   ("Train/Health", (1, 0)); ("Train/Average_Loss", (1, 1))].

(** The curves drawn, in the order of the calls: axes, abscissae and
    ordinates. *)
Definition plotted (l : list drawing)
    : list (Z * Z * list Z * list float) :=
  omap (fun d =>
          match d with
          | ax_plot ax xs ys => Some (ax, xs, ys)
          | _ => None
          end) l.

(** What a series is drawn as. *)
Definition as_curve (ax : Z * Z) (series : list ScalarEvent)
    : Z * Z * list Z * list float :=
  (ax, map step series, map value series).

(** A log with rewards and losses but no health and no evaluation series,
    and one whose loss series is there but empty. *)
Definition at_step (s : Z) (v : float) : ScalarEvent :=
  {| wall_time := 0; step := s; value := v |}.

Definition two_tags : EventAccumulator :=
  {[ "Train/Episode_Reward" := [at_step 1 0.5; at_step 2 1.5];
     "Train/Average_Loss" := [at_step 1 0.25];
     "Train/Epsilon" := [at_step 1 1.0] ]}.


End Curves.

(** ** The action histogram: [Visualizer.plot_action_distribution] *)

Module Actions.
Import Pyplot Heatmap.

(** [np.bincount(x)] for a list of integers: one counter for each value from
    0 to the largest, none for an empty list; a negative entry is refused. *)
Definition np_bincount (x : list Z) : result (list nat) :=
  if existsb (fun a => a <? 0) x then
    Raise (ValueError "'list' argument must have no negative elements")
  else
    let size :=
      match x with
      | [] => 0%nat
      | _ :: _ => S (Z.to_nat (fold_left Z.max x 0))
      end in
    Return (fold_left (fun counts a => alter S (Z.to_nat a) counts) x
              (replicate size 0%nat)).

(** Lines 154-156: the actions of all episodes, in order. *)
Definition gather (episodes : list Episode) : list Z :=
  fold_left (fun all_actions episode => all_actions ++ actions episode)
    episodes [].

Definition action_names : list string :=
  ["Stay"; "Up"; "Down"; "Left"; "Right"].

Section Plot.
Context {B : Type} `{Backend B}.

(** Lines 154-170, for the results that lines 151-152 have loaded. *)
Definition plot_action_distribution (save_dir : string) (r : EvalResults)
    : M (Canvas B) unit :=
  let all_actions := gather (results r) in
  draw (plt_figure (10, 6)) ;;
  action_counts <- lift (np_bincount all_actions) ;;
  draw (plt_bar action_names action_counts) ;;
  draw (plt_title "Distribution of Actions During Evaluation") ;;
  draw (plt_xlabel "Action") ;;
  draw (plt_ylabel "Count") ;;
  draw (plt_xticks 45) ;;
  draw plt_tight_layout ;;
  draw (plt_savefig (Script.path_join save_dir "action_distribution.png")) ;;
  draw plt_close.

End Plot.

(** The largest action taken (0 when none is). *)
Definition largest (x : list Z) : Z := fold_left Z.max x 0.

(** The number of times the action [a] was taken. *)
Definition occurrences (a : nat) (x : list Z) : nat :=
  length (filter (fun b => b = Z.of_nat a) x).

(** The bars drawn: names and heights. *)
Definition bars (l : list drawing) : list (list string * list nat) :=
  omap (fun d => match d with plt_bar x h => Some (x, h) | _ => None end) l.

(** Results in which the agent never goes right, and results with an action
    that is no index. *)
Definition never_right : EvalResults :=
  {| environment := ∅;
     results := [{| actions := [0; 1; 1; 3]; states := [] |};
                 {| actions := [2; 1]; states := [] |}] |}.


(** A library that, as [matplotlib] does, refuses a bar chart whose heights
    can not be broadcast against its names -- they are neither as many as
    the names nor a single one -- and accepts every other call. *)
Definition exacting : Backend unit := {|
  plt := fun d b =>
    match d with
    | plt_bar x height =>
        if decide (length height = length x \/ length height = 1%nat)
        then (Return tt, b)
        else
          (Raise (ValueError
            "shape mismatch: objects cannot be broadcast to a single shape"),
           b)
    | _ => (Return tt, b)
    end
|}.

End Actions.

(** ** The value heatmap: [Visualizer.visualize_value_function] *)

Module ValueFunction.
Import Pyplot.

(** An observation: a grid of cells, here of the two dimensions the
    environment's grid has ([agent.state_shape] is [(rows, cols)]). *)
Definition State : Type := list (list float).

(** The policy network behind [agent.policy_net(states, additional)
    .max(1)[0].cpu().numpy()]: the forward pass on the batch and the largest
    action value of every row, as torch computes them. *)
Class PolicyNet (B : Type) := {
  state_values : list State -> list (list float) -> B -> result (list float) * B
}.

(** [np.zeros((n, rows, cols))] *)
Definition np_zeros (n rows cols : nat) : list State :=
  replicate n (replicate rows (replicate cols 0%float)).

(** [states[idx, i, j] = v]: in place, or [IndexError] for an index outside
    the array. *)
Definition assign (states : list State) (idx i j : nat) (v : float)
    : result (list State) :=
  match states !! idx with
  | None => Raise (IndexError "index is out of bounds for axis 0")
  | Some grid =>
      match grid !! i with
      | None => Raise (IndexError "index is out of bounds for axis 1")
      | Some row =>
          match row !! j with
          | None => Raise (IndexError "index is out of bounds for axis 2")
          | Some _ => Return (<[idx := <[i := <[j := v]> row]> grid]> states)
          end
      end
  end.

(** A [for] loop whose body updates [s] or raises. *)
Fixpoint for_each {A S} (l : list A) (body : A -> S -> result S) (s : S)
    : result S :=
  match l with
  | [] => Return s
  | a :: l' =>
      match body a s with
      | Return s' => for_each l' body s'
      | Raise e => Raise e
      end
  end.

(** Lines 126-129. *)
Definition mark_agents (grid_size : nat) (states : list State)
    : result (list State) :=
  for_each (seq 0 grid_size)
    (fun i states =>
       for_each (seq 0 grid_size)
         (fun j states =>
            let idx := (i * grid_size + j)%nat in
            assign states idx i j 4%float)
         states)
    states.

(** [values.reshape((rows, cols))] for a one-dimensional array. *)
Definition reshape (values : list float) (rows cols : nat)
    : result (list (list float)) :=
  if (length values =? rows * cols)%nat then
    Return (map (fun i => take cols (drop (i * cols) values)) (seq 0 rows))
  else Raise (ValueError "cannot reshape array into the requested shape").

Section Plot.
Context {B : Type} `{Backend B} `{PolicyNet B}.

Definition query (states : list State) (additional : list (list float))
    : M (Canvas B) (list float) :=
  fun c =>
    let '(r, b) := state_values states additional (backend c) in
    Some (r, {| backend := b; drawn := drawn c |}).

(** Lines 123-148; [state_shape] is [agent.state_shape]. *)
Definition visualize_value_function (state_shape : nat * nat)
    (save_path : string) : M (Canvas B) unit :=
  let grid_size := state_shape.1 in
  let states :=
    np_zeros (grid_size * grid_size) state_shape.1 state_shape.2 in
  states <- lift (mark_agents grid_size states) ;;
  let additional_state := replicate (length states) (replicate 3 1%float) in
  values <- query states additional_state ;;
  value_grid <- lift (reshape values grid_size grid_size) ;;
  draw (plt_figure (10, 8)) ;;
  draw (sns_heatmap value_grid "viridis") ;;
  draw (plt_title "State Value Function") ;;
  draw (plt_xlabel "X Position") ;;
  draw (plt_ylabel "Y Position") ;;
  draw plt_tight_layout ;;
  draw (plt_savefig save_path) ;;
  draw plt_close.

End Plot.

(** The cell of a grid. *)
Definition cell {A} (grid : list (list A)) (i j : nat) : option A :=
  grid !! i ≫= fun row => row !! j.

(** The grid of [rows] x [cols] cells that holds 4 at [(i, j)] and 0
    elsewhere. *)
Definition lone_agent (rows cols i j : nat) : State :=
  <[i := <[j := 4%float]> (replicate cols 0%float)]>
    (replicate rows (replicate cols 0%float)).

(** [marked g c k states]: in the batch for a [g] x [c] observation the
    first [k] states hold their agent and the others are still empty. *)
Definition marked (g c k : nat) (states : list State) : Prop :=
  length states = (g * g)%nat /\
  forall i j, (i < g)%nat -> (j < g)%nat ->
    states !! (i * g + j)%nat =
      Some (if (i * g + j <? k)%nat then lone_agent g c i j
            else replicate g (replicate c 0%float)).

(** The heatmaps drawn. *)
Definition heatmaps (l : list drawing) : list (list (list float)) :=
  omap (fun d => match d with sns_heatmap g _ => Some g | _ => None end) l.

(** A network that values a state by its first cell, and records the
    batches it was asked about. *)
Record Asked := { batches : list (list State * list (list float)) }.

Definition first_cell (s : State) : float :=
  default 0%float (cell s 0 0).

#[export] Instance answering : PolicyNet Asked := {|
  state_values := fun states additional b =>
    (Return (map first_cell states),
     {| batches := batches b ++ [(states, additional)] |})
|}.

#[export] Instance silent : Backend Asked := {|
  plt := fun _ b => (Return tt, b)
|}.

Definition nothing_asked : Canvas Asked :=
  {| backend := {| batches := [] |}; drawn := [] |}.

End ValueFunction.

(** ** Views of the position heatmap *)

Module Visits.
Import Heatmap.

(** The entry [grid[x, y]] of a two-dimensional array. *)
Definition entry {A} (grid : list (list A)) (x y : nat) : option A :=
  grid !! x ≫= fun row => row !! y.

(** [results['config']['environment'].get('size', 16)] *)
Definition grid_size (r : EvalResults) : Z :=
  default 16 (environment r !! "size").

(** The number of states of the results whose agent is found at [p]. *)
Definition visits (r : EvalResults) (p : nat * nat) : nat :=
  length (filter (fun state => agent_position state = Some p)
            (concat (map states (results r)))).

(** Results for a grid of one cell in which the agent is found outside it. *)
Definition off_grid : EvalResults :=
  {| environment := {["size" := 1]};
     results := [{| actions := [4]; states := [[[4; 0]]; [[0; 4]]] |}] |}.

End Visits.

(** ** Frames and steps of the recorder *)

Module Pace.
Import Recorder.

Section Pace.
Context {W : Type}.

(** [paced n m]: at most [n] frames more than steps. *)
Definition paced (n : nat) (m : Machine W) : Prop :=
  (length (frames m) <= n + length (step_rewards (log m)))%nat.

(** In a pass, after the render. *)
Definition rendered (m : Machine W) : Prop :=
  paced 1 m /\ done m = false /\ truncated m = false.

(** When the function is left. *)
Definition kept_pace (m : Machine W) : Prop :=
  paced 1 m /\ (done m || truncated m = true -> paced 0 m).

End Pace.

End Pace.

(** ** More stub collaborators for the recorder *)

Module Faults.
Import Recorder Stub.

(** An encoder that cannot be opened. *)
Definition closed_encoder : Collaborators World := {|
  import_cv2 := fun w => (Return tt, w);
  env_reset := fun w => (on_reset w, w);
  env_render := stub_render;
  env_get_info := stub_get_info;
  env_step := stub_step;
  agent_select_action := fun _ _ _ w => (Return 0, w);
  writer_open := fun _ _ _ _ w => (Raise (PyExc true "cannot open"), w);
  writer_write := fun _ w => (Return tt, w);
  writer_release := fun w => (Return tt, w)
|}.

(** An encoder whose [write] fails as scripted and whose [release] always
    raises. *)
Definition stuck_encoder : Collaborators World := {|
  import_cv2 := fun w => (Return tt, w);
  env_reset := fun w => (on_reset w, w);
  env_render := stub_render;
  env_get_info := stub_get_info;
  env_step := stub_step;
  agent_select_action := fun _ _ _ w => (Return 0, w);
  writer_open := fun _ _ _ _ w => (Return tt, w);
  writer_write := faulty_write;
  writer_release := fun w => (Raise (PyExc true "cannot release"), w)
|}.

(** [env.reset()] raises. *)
Definition reset_fails : World :=
  {| on_reset := Raise (PyExc true "no such environment");
     renders := [shows 2 3]; steps := [ending 1.0];
     on_get_info := Return None;
     get_info_calls := 0; writes_until_failure := None |}.

(** A machine about to start a pass with a status mapping that has no
    [hunger]. *)
Definition hungerless : Machine World :=
  {| world := three_steps; log := []; frames := []; state := [[4]];
     info := Some (<["health" := 90%float]> (<["attack" := 30%float]> ∅));
     done := false; truncated := false; total_reward := 0%float;
     out := false |}.

(** The second [step] call is interrupted from the keyboard. *)
Definition interrupted : World :=
  scripted (Some (status 55 12.34 40))
    [shows 2 3; shows 2 3; shows 2 3]
    [going 1.0; Raise (PyExc false "KeyboardInterrupt")].

Definition unopened_end : Machine World :=
  Eval vm_compute in
    left_by (create_episode_video (H := closed_encoder) 3 "episode.mp4"
               three_steps).

Definition stuck_end : Machine World :=
  Eval vm_compute in
    left_by (create_episode_video (H := stuck_encoder) 3 "episode.mp4"
               second_write_fails).

End Faults.

(** ** A host that records the calls made on it *)

Module Instrumented.
Import Script.

(** The calls of [main] that change the host. *)
Variant hostcall :=
| Makedirs (path : string)
| PlotTrainingCurves (save_dir log_dir : string)
| PlotActionDistribution (save_dir path : string)
| PlotStateHeatmap (save_dir path : string)
| GymMake (render_mode : string) (kwargs : list (string * Z))
| LoadAgent (config : gmap string Z) (model_path : string)
| CreateEpisodeVideo (save_path : string)
| VisualizeValueFunction (save_path : string)
| EnvClose.

(** A host together with the calls made on it so far, oldest first, each
    with whether it returned. *)
Record Logged (H : Type) := {
  inner : H;
  made : list (hostcall * bool)
}.
Arguments inner {H} _.
Arguments made {H} _.

Definition returned {A} (r : result A) : bool :=
  match r with
  | Return _ => true
  | Raise _ => false
  end.

Definition logging {H A} (c : hostcall) (f : H -> result A * H)
    (l : Logged H) : result A * Logged H :=
  let '(r, h) := f (inner l) in
  (r, {| inner := h; made := made l ++ [(c, returned r)] |}).

#[export] Instance logged {H : Type} `{Host H} : Host (Logged H) := {|
  path_exists := fun p l => path_exists p (inner l);
  load_config := fun p l => load_config p (inner l);
  os_makedirs := fun d => logging (Makedirs d) (os_makedirs d);
  plot_training_curves := fun d p =>
    logging (PlotTrainingCurves d p) (plot_training_curves d p);
  plot_action_distribution := fun d p =>
    logging (PlotActionDistribution d p) (plot_action_distribution d p);
  plot_state_heatmap := fun d p =>
    logging (PlotStateHeatmap d p) (plot_state_heatmap d p);
  gym_make := fun mode kwargs =>
    logging (GymMake mode kwargs) (gym_make mode kwargs);
  load_agent := fun c p => logging (LoadAgent c p) (load_agent c p);
  create_episode_video := fun p =>
    logging (CreateEpisodeVideo p) (create_episode_video p);
  visualize_value_function := fun p =>
    logging (VisualizeValueFunction p) (visualize_value_function p);
  env_close := logging EnvClose env_close
|}.

Definition observed {H} (h : H) : Process (Logged H) :=
  {| host := {| inner := h; made := [] |}; stdout := [] |}.

(** The keyword arguments of [gym.make] when the configuration names none
    of them. *)
Definition default_kwargs : list (string * Z) :=
  [("size", 16); ("max_steps", 1000); ("num_food", 10); ("num_threats", 5);
   ("food_value_min", 10); ("food_value_max", 30);
   ("threat_attack_min", 20); ("threat_attack_max", 40);
   ("agent_attack_min", 30); ("agent_attack_max", 50);
   ("hungry_decay", 2); ("observation_range", 4);
   ("threat_perception_range", 2)].

(** A file system that holds the listed paths, on which every call returns
    except the value-function visualisation. *)
Record Disk := { files : list string }.

#[export] Instance disk : Host Disk := {|
  path_exists := fun p d => bool_decide (p ∈ files d);
  load_config := fun p d =>
    Return {| environment := {["size" := 8]}; agent := ∅ |};
  os_makedirs := fun _ d => (Return tt, d);
  plot_training_curves := fun _ _ d => (Return tt, d);
  plot_action_distribution := fun _ _ d => (Return tt, d);
  plot_state_heatmap := fun _ _ d => (Return tt, d);
  gym_make := fun _ _ d => (Return tt, d);
  load_agent := fun _ _ d => (Return tt, d);
  create_episode_video := fun _ d => (Return tt, d);
  visualize_value_function := fun _ d =>
    (Raise (PyExc true "size mismatch"), d);
  env_close := fun d => (Return tt, d)
|}.


(** [under dir c]: what the call [c] writes, it writes in [dir]. *)
Definition under (dir : string) (c : hostcall) : Prop :=
  match c with
  | Makedirs d => d = dir
  | PlotTrainingCurves d _ => d = dir
  | PlotActionDistribution d _ => d = dir
  | PlotStateHeatmap d _ => d = dir
  | CreateEpisodeVideo f => f = path_join dir "episode.mp4"
  | VisualizeValueFunction f => f = path_join dir "value_function.png"
  | GymMake _ _ | LoadAgent _ _ | EnvClose => True
  end.

(** A disk that holds a model only, and what a run for that model leaves. *)
Definition model_only : Disk := {| files := ["model.pt"] |}.

Definition model_only_end : Process (Logged Disk) :=
  Eval vm_compute in
    match main None None (Some "model.pt") (Some "out") None
            (observed model_only) with
    | Some (_, p) => p
    | None => observed model_only
    end.

End Instrumented.

(** ** An encoder that keeps a record of its calls *)

Module Tape.
Import Recorder Stub.

(** A call on the video writer: the constructor [cv2.VideoWriter],
    [out.write] or [out.release], with its arguments. *)
Variant encoder_call :=
| Opened (path : string) (fourcc : Z) (fps : float) (frameSize : nat * nat)
| Wrote (f : Frame)
| Released.

(** Collaborators together with the calls their encoder has received so far,
    oldest first, each with whether it returned.  The record is kept by the
    encoder, not by the function that calls it. *)
Record Taped (W : Type) := {
  beneath : W;
  tape : list (encoder_call * bool)
}.
Arguments beneath {W} _.
Arguments tape {W} _.

Definition went_through {A} (r : result A) : bool :=
  match r with
  | Return _ => true
  | Raise _ => false
  end.

(** A call of the encoder is passed on and recorded. *)
Definition taping {W A} (c : encoder_call) (f : W -> result A * W)
    (t : Taped W) : result A * Taped W :=
  let '(r, w) := f (beneath t) in
  (r, {| beneath := w; tape := tape t ++ [(c, went_through r)] |}).

(** A call of the environment or of the agent is passed on. *)
Definition passing {W A} (f : W -> result A * W) (t : Taped W)
    : result A * Taped W :=
  let '(r, w) := f (beneath t) in
  (r, {| beneath := w; tape := tape t |}).

Definition taped {W : Type} `{Collaborators W} : Collaborators (Taped W) := {|
  import_cv2 := passing import_cv2;
  env_reset := passing env_reset;
  env_render := passing env_render;
  env_get_info := passing env_get_info;
  env_step := fun a => passing (env_step a);
  agent_select_action := fun s i training =>
    passing (agent_select_action s i training);
  writer_open := fun p c fps size =>
    taping (Opened p c fps size) (writer_open p c fps size);
  writer_write := fun f => taping (Wrote f) (writer_write f);
  writer_release := taping Released writer_release
|}.

(** The collaborators before any call of the encoder. *)
Definition unplayed {W} (w : W) : Taped W := {| beneath := w; tape := [] |}.

(** The constructor call for the frames [fs], when it returns. *)
Definition opening (path : string) (fs : list Frame) : encoder_call * bool :=
  (Opened path fourcc_mp4v 5.0%float (resolution fs), true).

(** [write] calls that returned, one for each frame. *)
Definition wrote (fs : list Frame) : list (encoder_call * bool) :=
  map (fun f => (Wrote f, true)) fs.

(** The calls of a video written whole: the writer opened for the size of
    the first frame, every frame written in order, the writer released, and
    no call refused. *)
Definition video (path : string) (fs : list Frame)
    : list (encoder_call * bool) :=
  opening path fs :: wrote fs ++ [(Released, true)].

(** The frames handed to [out.write], in the order of the calls. *)
Definition handed (t : list (encoder_call * bool)) : list Frame :=
  omap (fun c => match c.1 with Wrote f => Some f | _ => None end) t.

Definition is_opening (c : encoder_call * bool) : bool :=
  match c.1 with
  | Opened _ _ _ _ => true
  | _ => false
  end.

Definition is_release (c : encoder_call * bool) : bool :=
  match c.1 with
  | Released => true
  | _ => false
  end.

(** The encoder's record is [t]. *)
Definition untouched {W} (t : list (encoder_call * bool))
    (m : Machine (Taped W)) : Prop :=
  tape (world m) = t.

(** How a call that did or did not go through ends. *)
Definition answers (b : bool) (r : result unit) : Prop :=
  if b then r = Return tt else exists e, r = Raise e.

(** What the encoder has received when the save of lines 104-113 is left,
    for the frames [fs]: the constructor raised; the [k+1]-th [write] raised;
    [release] raised; or every call returned. *)
Variant save_tape (path : string) (fs : list Frame)
    : result unit -> bool -> list (encoder_call * bool) -> Prop :=
| open_refused e :
    save_tape path fs (Raise e) false
      [(Opened path fourcc_mp4v 5.0%float (resolution fs), false)]
| write_refused e k f :
    fs !! k = Some f ->
    save_tape path fs (Raise e) true
      (opening path fs :: wrote (take k fs) ++ [(Wrote f, false)])
| release_refused e :
    save_tape path fs (Raise e) true
      (opening path fs :: wrote fs ++ [(Released, false)])
| all_written :
    save_tape path fs (Return tt) true (video path fs).

(** What the encoder has received when [create_episode_video] is left with
    the frames [fs] collected, and how the function is left.  [saved] is
    whether the video was reported as saved. *)
Variant exit_tape (path : string) (fs : list Frame) (saved : Prop)
    : result unit -> list (encoder_call * bool) -> Prop :=
| exit_unopened r :
    ~ saved ->
    (r = Return tt -> fs = []) ->
    (forall e, r = Raise e -> catchable e = false) ->
    exit_tape path fs saved r []
| exit_open_caught e :
    ~ saved -> fs <> [] -> catchable e = true ->
    exit_tape path fs saved (Return tt)
      [(Opened path fourcc_mp4v 5.0%float (resolution fs), false)]
| exit_open_passed e :
    ~ saved -> fs <> [] -> catchable e = false ->
    exit_tape path fs saved (Raise e)
      [(Opened path fourcc_mp4v 5.0%float (resolution fs), false)]
| exit_write_caught k f b r :
    ~ saved -> fs !! k = Some f -> answers b r ->
    exit_tape path fs saved r
      (opening path fs :: wrote (take k fs) ++
       [(Wrote f, false); (Released, b)])
| exit_write_passed e k f :
    ~ saved -> fs !! k = Some f -> catchable e = false ->
    exit_tape path fs saved (Raise e)
      (opening path fs :: wrote (take k fs) ++ [(Wrote f, false)])
| exit_release_caught b r :
    ~ saved -> fs <> [] -> answers b r ->
    exit_tape path fs saved r
      (opening path fs :: wrote fs ++ [(Released, false); (Released, b)])
| exit_release_passed e :
    ~ saved -> fs <> [] -> catchable e = false ->
    exit_tape path fs saved (Raise e)
      (opening path fs :: wrote fs ++ [(Released, false)])
| exit_saved :
    saved -> fs <> [] ->
    exit_tape path fs saved (Return tt) (video path fs).

(** The stub encoder, instrumented. *)
Definition taped_stub : Collaborators (Taped World) := taped (H := stub).

(** The stub whose [write] fails as scripted, instrumented. *)
Definition taped_faulty : Collaborators (Taped World) :=
  taped (H := faulty_encoder).

(** A [write] that is interrupted from the keyboard as scripted:
    [KeyboardInterrupt] is no [Exception]. *)
Definition interrupted_write (f : Frame) (w : World) : result unit * World :=
  match writes_until_failure w with
  | None => (Return tt, w)
  | Some O => (Raise (PyExc false "KeyboardInterrupt"), w)
  | Some (S n) =>
      (Return tt,
       {| on_reset := on_reset w; renders := renders w; steps := steps w;
          on_get_info := on_get_info w;
          get_info_calls := get_info_calls w;
          writes_until_failure := Some n |})
  end.

Definition interrupted_encoder : Collaborators World := {|
  import_cv2 := fun w => (Return tt, w);
  env_reset := fun w => (on_reset w, w);
  env_render := stub_render;
  env_get_info := stub_get_info;
  env_step := stub_step;
  agent_select_action := fun _ _ _ w => (Return 0, w);
  writer_open := fun _ _ _ _ w => (Return tt, w);
  writer_write := interrupted_write;
  writer_release := fun w => (Return tt, w)
|}.

Definition taped_interrupted : Collaborators (Taped World) :=
  taped (H := interrupted_encoder).

(** The machine a run on instrumented collaborators leaves. *)
Definition left_taped (run : option (result unit * Machine (Taped World)))
    : Machine (Taped World) :=
  match run with
  | Some (_, m) => m
  | None => fresh (unplayed three_steps)
  end.

Definition taped_second_step_raises_end : Machine (Taped World) :=
  Eval vm_compute in
    left_taped (create_episode_video (H := taped_stub) 2 "episode.mp4"
                  (unplayed second_step_raises)).

Definition taped_mixed_sizes_end : Machine (Taped World) :=
  Eval vm_compute in
    left_taped (create_episode_video (H := taped_stub) 2 "episode.mp4"
                  (unplayed mixed_sizes)).

Definition taped_write_fails_end : Machine (Taped World) :=
  Eval vm_compute in
    left_taped (create_episode_video (H := taped_faulty) 3 "episode.mp4"
                  (unplayed second_write_fails)).

Definition taped_write_interrupted_end : Machine (Taped World) :=
  Eval vm_compute in
    left_taped (create_episode_video (H := taped_interrupted) 3 "episode.mp4"
                  (unplayed second_write_fails)).

End Tape.

(** * Facts about the computations *)

Section MonadFacts.
Context {S : Type}.

Lemma triple_weaken {A} (P P' : S -> Prop) (Q Q' : result A -> S -> Prop)
    (c : M S A) :
  triple P c Q ->
  (forall s, P' s -> P s) ->
  (forall r s, Q r s -> Q' r s) ->
  triple P' c Q'.
Proof. intros Hc HP HQ s r s' Hs Hrun. eauto. Qed.

Lemma triple_ext {A} (P : S -> Prop) (Q : result A -> S -> Prop)
    (c c' : M S A) :
  (forall s, c s = c' s) -> triple P c' Q -> triple P c Q.
Proof. intros Heq Hc s r s' Hs Hrun. rewrite Heq in Hrun. eauto. Qed.

Lemma triple_ret {A} (P : S -> Prop) (Q : result A -> S -> Prop) (a : A) :
  (forall s, P s -> Q (Return a) s) -> triple P (ret a) Q.
Proof. intros HQ s r s' Hs [= <- <-]. auto. Qed.

Lemma triple_raise {A} (P : S -> Prop) (Q : result A -> S -> Prop) e :
  (forall s, P s -> Q (Raise e) s) -> triple P (raise e) Q.
Proof. intros HQ s r s' Hs [= <- <-]. auto. Qed.

Lemma triple_gets {A} (P : S -> Prop) (Q : result A -> S -> Prop)
    (f : S -> A) :
  (forall s, P s -> Q (Return (f s)) s) -> triple P (gets f) Q.
Proof. intros HQ s r s' Hs [= <- <-]. auto. Qed.

Lemma triple_modify (P : S -> Prop) (Q : result unit -> S -> Prop)
    (f : S -> S) :
  (forall s, P s -> Q (Return tt) (f s)) -> triple P (modify f) Q.
Proof. intros HQ s r s' Hs [= <- <-]. auto. Qed.

Lemma triple_bind {A B} (P : S -> Prop) (R : result A -> S -> Prop)
    (Q : result B -> S -> Prop) (c : M S A) (k : A -> M S B) :
  triple P c R ->
  (forall a, triple (R (Return a)) (k a) Q) ->
  (forall e s, R (Raise e) s -> Q (Raise e) s) ->
  triple P (bind c k) Q.
Proof.
  intros Hc Hk He s r s' Hs. unfold bind.
  destruct (c s) as [[[a | e] s1] |] eqn:Hrun; [| | discriminate].
  - intros Hrun'. eapply Hk; [eapply Hc |]; eauto.
  - intros [= <- <-]. eapply He, Hc; eauto.
Qed.

Lemma triple_try {A} (P : S -> Prop) (R Q : result A -> S -> Prop)
    (c : M S A) (h : pyexc -> M S A) :
  triple P c R ->
  (forall a s, R (Return a) s -> Q (Return a) s) ->
  (forall e, catchable e = true -> triple (R (Raise e)) (h e) Q) ->
  (forall e s, catchable e = false -> R (Raise e) s -> Q (Raise e) s) ->
  triple P (try_except c h) Q.
Proof.
  intros Hc Hret Hh Hpass s r s' Hs. unfold try_except.
  destruct (c s) as [[[a | e] s1] |] eqn:Hrun; [| | discriminate].
  - intros [= <- <-]. eapply Hret, Hc; eauto.
  - destruct (catchable e) eqn:He.
    + intros Hrun'. eapply Hh; [exact He | eapply Hc | ]; eauto.
    + intros [= <- <-]. eapply Hpass, Hc; eauto.
Qed.

Lemma keeps_ret {A} (I : S -> Prop) (a : A) : keeps I (ret a).
Proof. apply triple_ret. auto. Qed.

Lemma keeps_raise {A} (I : S -> Prop) e : keeps I (@raise S A e).
Proof. apply triple_raise. auto. Qed.

Lemma keeps_gets {A} (I : S -> Prop) (f : S -> A) : keeps I (gets f).
Proof. apply triple_gets. auto. Qed.

Lemma keeps_modify (I : S -> Prop) (f : S -> S) :
  (forall s, I s -> I (f s)) -> keeps I (modify f).
Proof. intros Hf. apply triple_modify. auto. Qed.

Lemma keeps_bind {A B} (I : S -> Prop) (c : M S A) (k : A -> M S B) :
  keeps I c -> (forall a, keeps I (k a)) -> keeps I (bind c k).
Proof.
  intros Hc Hk. eapply triple_bind; [exact Hc | exact Hk | auto].
Qed.

Lemma keeps_try {A} (I : S -> Prop) (c : M S A) (h : pyexc -> M S A) :
  keeps I c -> (forall e, keeps I (h e)) -> keeps I (try_except c h).
Proof.
  intros Hc Hh. eapply triple_try; [exact Hc | auto | intros; apply Hh | auto].
Qed.

End MonadFacts.

(** * The format specification *)

Module PyFormatFacts.
Import PyFormat.







End PyFormatFacts.

(** * The episode recorder *)

Module RecorderFacts.
Import PyFormat Recorder.

Section Passes.
Context {W : Type} `{Collaborators W}.

Lemma annotate_reads (m : Machine W) d r :
  info m = Some d -> reads d r ->
  annotate_and_collect (shown r) m =
    Some (Return tt, set_frames (frames m ++ [annotated r (total_reward m)]) m).
Proof.
  intros Hi (Hh & Hu & Ha).
  unfold annotate_and_collect, bind, gets, subscript, ret; cbn.
  rewrite Hi, Hh, Hu, Ha. reflexivity.
Qed.

Lemma annotate_without_info (m : Machine W) img :
  info m = None ->
  annotate_and_collect img m =
    Some (Raise (TypeError "'NoneType' object is not subscriptable"), m).
Proof.
  intros Hi. unfold annotate_and_collect, bind, gets, subscript; cbn.
  rewrite Hi. reflexivity.
Qed.

Lemma iteration_returns (m : Machine W) d r s1 dn tr i1 w1 :
  info m = Some d ->
  last_pass (world m) (state m) d r (Return (s1, reward r, dn, tr, i1)) w1 ->
  iteration m = Some (Return tt, after_pass m r w1 s1 dn tr i1).
Proof.
  intros Hi (wr & a & ws & Hrender & Hreads & Hselect & Hstep).
  unfold iteration. unfold bind at 1. unfold call at 1. rewrite Hrender.
  unfold bind at 1. rewrite (annotate_reads _ d r) by (exact Hi || exact Hreads).
  repeat (unfold bind, gets, call, step_and_unpack, modify, ret; cbn;
          rewrite ?Hi, ?Hselect, ?Hstep).
  reflexivity.
Qed.

Lemma iteration_step_raises (m : Machine W) d r e w1 :
  info m = Some d ->
  last_pass (world m) (state m) d r (Raise e) w1 ->
  iteration m =
    Some (Raise e,
          set_world w1 (set_frames (frames m ++ [annotated r (total_reward m)]) m)).
Proof.
  intros Hi (wr & a & ws & Hrender & Hreads & Hselect & Hstep).
  unfold iteration. unfold bind at 1. unfold call at 1. rewrite Hrender.
  unfold bind at 1. rewrite (annotate_reads _ d r) by (exact Hi || exact Hreads).
  repeat (unfold bind, gets, call, step_and_unpack, modify, ret; cbn;
          rewrite ?Hi, ?Hselect, ?Hstep).
  reflexivity.
Qed.

Lemma rollout_plays w s d rs w' s' d' :
  plays w s d rs w' s' d' ->
  forall (m : Machine W) fuel,
    world m = w -> state m = s -> info m = Some d ->
    done m = false -> truncated m = false ->
    rollout (length rs + fuel) m = rollout fuel (after_passes m rs w' s' d').
Proof.
  induction 1 as [w s d | w s d r s1 d1 w1 rs w' s' d' Hpass Hrest IH];
    intros m fuel Hw Hs Hi Hd Ht.
  - cbn. f_equal. destruct m; cbn in *. subst.
    unfold after_passes; cbn. rewrite !app_nil_r. reflexivity.
  - cbn [length Nat.add rollout]. rewrite Hd, Ht. cbn [orb].
    unfold bind at 1. unfold guarded_iteration, try_except.
    unfold bind at 1. subst w s.
    rewrite (iteration_returns m d r s1 false false (Some d1) w1 Hi Hpass).
    cbn [ret].
    rewrite (IH (after_pass m r w1 s1 false false (Some d1)) fuel)
      by reflexivity.
    f_equal. unfold after_passes, after_pass; cbn.
    rewrite <- !app_assoc. reflexivity.
Qed.


Lemma write_all_accepts :
  (forall f w, (writer_write f w).1 = Return tt) ->
  forall fs (m : Machine W),
    exists w, write_all fs m = Some (Return tt, finished m w (map EvWrite fs) (out m)).
Proof.
  intros Hwrite fs. induction fs as [| f fs IH]; intros m.
  - exists (world m). cbn. unfold ret, finished. rewrite app_nil_r.
    destruct m; reflexivity.
  - cbn [write_all]. unfold bind at 1, modify at 1. unfold bind at 1, call.
    specialize (Hwrite f (world (emit (EvWrite f) m))).
    destruct (writer_write f (world (emit (EvWrite f) m))) as [r w1].
    cbn in Hwrite. subst r.
    destruct (IH (set_world w1 (emit (EvWrite f) m))) as [w2 ->].
    exists w2. unfold finished; cbn. rewrite <- app_assoc. reflexivity.
Qed.

Lemma save_video_accepts path (m : Machine W) :
  encoder_accepts -> frames m <> [] ->
  exists w,
    save_video path m = Some (Return tt, finished m w (saved path (frames m)) true).
Proof.
  intros (Hopen & Hwrite & Hrelease) Hfs.
  unfold save_video. unfold bind at 1, gets at 1.
  destruct (frames m) as [| f0 fs] eqn:Hframes; [done |].
  unfold bind at 1, modify at 1. unfold bind at 1, call at 1.
  match goal with |- context [writer_open ?p ?c ?fps ?sz ?w] =>
    specialize (Hopen p c fps sz w);
    destruct (writer_open p c fps sz w) as [r w1] end.
  cbn in Hopen. subst r. unfold bind at 1, modify at 1. unfold bind at 1.
  match goal with |- context [write_all ?fs ?m0] =>
    destruct (write_all_accepts Hwrite fs m0) as [w2 ->] end.
  unfold bind at 1, release. unfold bind at 1, modify at 1, call at 1.
  match goal with |- context [writer_release ?w] =>
    specialize (Hrelease w); destruct (writer_release w) as [r w3] end.
  cbn in Hrelease. subst r.
  exists w3. unfold print, modify, finished, saved, fourcc_mp4v, emit, set_world.
  cbn. rewrite Hframes. cbn. do 3 f_equal.
  rewrite <- ?app_assoc. cbn. rewrite <- ?app_assoc. reflexivity.
Qed.

Lemma record_episode_starts fuel path w0 s0 d0 w1 :
  starts w0 s0 d0 w1 ->
  record_episode fuel path (fresh w0) =
    (rollout fuel ;; save_video path) (entered w1 s0 (Some d0)).
Proof.
  intros (w & Himport & Hreset).
  unfold record_episode. unfold bind at 1, call at 1; cbn. rewrite Himport.
  unfold bind at 1, modify at 1; cbn. unfold bind at 1, call at 1; cbn.
  rewrite Hreset. reflexivity.
Qed.


Lemma annotated_from_app total rs r :
  annotated_from total (rs ++ [r]) =
    annotated_from total rs ++ [annotated r (total_of total (map reward rs))].
Proof.
  revert total. induction rs as [| r0 rs IH]; intros total; cbn; [done |].
  rewrite IH. reflexivity.
Qed.

Lemma annotated_from_length total rs :
  length (annotated_from total rs) = length rs.
Proof. revert total. induction rs; intros; cbn; auto. Qed.

Lemma total_of_app start rs r :
  total_of start (rs ++ [r]) = (total_of start rs + r)%float.
Proof. unfold total_of. rewrite fold_left_app. reflexivity. Qed.

(** The loop up to its last pass, when the step of that pass returns: the
    machine on which the loop condition is evaluated next. *)
Lemma rollout_last w s d rs w' s' d' r s1 dn tr i1 w1 (m : Machine W) fuel :
  plays w s d rs w' s' d' ->
  last_pass w' s' d' r (Return (s1, reward r, dn, tr, i1)) w1 ->
  world m = w -> state m = s -> info m = Some d ->
  done m = false -> truncated m = false ->
  rollout (length rs + S fuel) m =
    rollout fuel (after_pass (after_passes m rs w' s' d') r w1 s1 dn tr i1).
Proof.
  intros Hplays Hlast Hw Hs Hi Hd Ht.
  rewrite (rollout_plays _ _ _ _ _ _ _ Hplays m (S fuel)) by assumption.
  cbn [rollout after_passes done truncated orb].
  unfold bind at 1, guarded_iteration, try_except. unfold bind at 1.
  erewrite iteration_returns; [reflexivity | reflexivity | exact Hlast].
Qed.

Lemma rollout_aborts w s d rs w' s' d' r e w1 (m : Machine W) fuel :
  plays w s d rs w' s' d' ->
  last_pass w' s' d' r (Raise e) w1 ->
  catchable e = true ->
  world m = w -> state m = s -> info m = Some d ->
  done m = false -> truncated m = false ->
  rollout (length rs + S fuel) m =
    Some (Return tt,
          emit (EvPrint ("Warning: Error during episode recording: " +:+ message e))
            (set_world w1
               (set_frames
                  (frames m ++ annotated_from (total_reward m) (rs ++ [r]))
                  (after_passes m rs w' s' d')))).
Proof.
  intros Hplays Hlast He Hw Hs Hi Hd Ht.
  rewrite (rollout_plays _ _ _ _ _ _ _ Hplays m (S fuel)) by assumption.
  cbn [rollout after_passes done truncated orb].
  unfold bind at 1, guarded_iteration, try_except. unfold bind at 1.
  erewrite iteration_step_raises; [| reflexivity | exact Hlast].
  rewrite He. unfold bind, print, modify, ret; cbn.
  rewrite annotated_from_app, app_assoc. reflexivity.
Qed.


(** An episode that ends with the step of its last pass is recorded whole. *)
Lemma episode_recorded (w0 : W) s0 d0 w1 rs w2 s d r s' dn tr i' w3 path fuel :
  encoder_accepts ->
  starts w0 s0 d0 w1 ->
  plays w1 s0 d0 rs w2 s d ->
  last_pass w2 s d r (Return (s', reward r, dn, tr, i')) w3 ->
  dn || tr = true ->
  (length rs + 1 <= fuel)%nat ->
  exists w4,
    create_episode_video fuel path w0 =
      Some (Return tt,
            {| world := w4;
               log := map EvStep (map reward (rs ++ [r])) ++
                      saved path (annotated_from 0 (rs ++ [r]));
               frames := annotated_from 0 (rs ++ [r]);
               state := s'; info := i'; done := dn; truncated := tr;
               total_reward := total_of 0 (map reward (rs ++ [r]));
               out := true |}).
Proof.
  intros Henc Hstart Hplays Hlast Hend Hfuel.
  unfold create_episode_video, try_except.
  rewrite (record_episode_starts _ _ _ _ _ _ Hstart).
  unfold bind at 1.
  replace fuel with (length rs + S (fuel - length rs - 1))%nat by lia.
  erewrite rollout_last by (first [exact Hplays | exact Hlast | reflexivity]).
  set (m1 := after_pass _ _ _ _ _ _ _).
  assert (Hdone : done m1 || truncated m1 = true) by exact Hend.
  assert (Hfs : frames m1 <> []) by (cbn; intros [_ [=]]%app_eq_nil).
  destruct (save_video_accepts path m1 Henc Hfs) as [w4 Hsave].
  exists w4.
  destruct (fuel - length rs - 1)%nat; cbn [rollout]; rewrite Hdone, Hsave.
  all: unfold finished, m1; cbn.
  all: rewrite !map_app; cbn [map]; rewrite annotated_from_app, total_of_app.
  all: reflexivity.
Qed.

(** An episode whose last step raises an [Exception] is recorded up to and
    including the frame of that pass. *)
Lemma episode_salvaged (w0 : W) s0 d0 w1 rs w2 s d r e w3 path fuel :
  encoder_accepts ->
  starts w0 s0 d0 w1 ->
  plays w1 s0 d0 rs w2 s d ->
  last_pass w2 s d r (Raise e) w3 ->
  catchable e = true ->
  (length rs + 1 <= fuel)%nat ->
  exists w4,
    create_episode_video fuel path w0 =
      Some (Return tt,
            {| world := w4;
               log := map EvStep (map reward rs) ++
                      EvPrint ("Warning: Error during episode recording: "
                               +:+ message e) ::
                      saved path (annotated_from 0 (rs ++ [r]));
               frames := annotated_from 0 (rs ++ [r]);
               state := s; info := Some d; done := false; truncated := false;
               total_reward := total_of 0 (map reward rs);
               out := true |}).
Proof.
  intros Henc Hstart Hplays Hlast He Hfuel.
  unfold create_episode_video, try_except.
  rewrite (record_episode_starts _ _ _ _ _ _ Hstart).
  unfold bind at 1.
  replace fuel with (length rs + S (fuel - length rs - 1))%nat by lia.
  erewrite rollout_aborts
    by (first [exact Hplays | exact Hlast | exact He | reflexivity]).
  match goal with |- context [save_video path ?m] => set (m1 := m) end.
  assert (Hfs : frames m1 <> []).
  { cbn. rewrite annotated_from_app. intros [_ [=]]%app_eq_nil. }
  destruct (save_video_accepts path m1 Henc Hfs) as [w4 ->].
  exists w4. unfold finished, m1; cbn.
  rewrite <- app_assoc. reflexivity.
Qed.

End Passes.
End RecorderFacts.

Module RunFacts.
Import PyFormat Recorder RecorderFacts.

Section Invariants.
Context {W : Type} `{Collaborators W}.

Lemma triple_call {A} (P : Machine W -> Prop) (Q : result A -> Machine W -> Prop)
    (f : W -> result A * W) :
  (forall m, P m -> Q (f (world m)).1 (set_world (f (world m)).2 m)) ->
  triple P (call f) Q.
Proof.
  intros HQ m r m' Hm. unfold call. specialize (HQ m Hm).
  destruct (f (world m)) as [r0 w]. intros [= <- <-]. exact HQ.
Qed.

Lemma keeps_call {A} (I : Machine W -> Prop) (f : W -> result A * W) :
  (forall m w, I m -> I (set_world w m)) -> keeps I (call f).
Proof. intros Hw. apply triple_call. auto. Qed.

Lemma keeps_rollout (I : Machine W -> Prop) :
  keeps I guarded_iteration -> forall fuel, keeps I (rollout fuel).
Proof.
  intros Hbody fuel. induction fuel as [| fuel IH]; intros m r m' Hm; cbn.
  - destruct (done m || truncated m); [| discriminate].
    intros [= <- <-]. exact Hm.
  - destruct (done m || truncated m); [intros [= <- <-]; exact Hm |].
    revert m r m' Hm. apply keeps_bind; [exact Hbody |].
    intros [|]; [exact IH | apply keeps_ret].
Qed.

Lemma keeps_subscript (I : Machine W -> Prop) i key :
  keeps I (subscript i key).
Proof.
  unfold subscript. destruct i as [d |]; [| apply keeps_raise].
  destruct (d !! key); [apply keeps_ret | apply keeps_raise].
Qed.

Lemma iteration_parts (m : Machine W) :
  iteration m = (render_and_collect ;; recover_and_step) m.
Proof.
  unfold iteration, render_and_collect, recover_and_step, step_onwards.
  unfold bind. destruct (call env_render m) as [[[fr | e] m1] |];
    reflexivity.
Qed.

Lemma keeps_annotate (I : Machine W -> Prop) img :
  (forall m fs, I m -> I (set_frames fs m)) ->
  keeps I (annotate_and_collect img).
Proof.
  intros Hframes. unfold annotate_and_collect.
  repeat (apply keeps_bind;
          [first [apply keeps_gets | apply keeps_subscript] | intro]).
  apply keeps_modify. auto.
Qed.

Lemma keeps_render_and_collect (I : Machine W -> Prop) :
  steady I ->
  (forall m fs, I m -> I (set_frames fs m)) ->
  keeps I render_and_collect.
Proof.
  intros HI Hframes. unfold render_and_collect.
  apply keeps_bind; [apply keeps_call, HI |].
  intros [img |]; [apply keeps_annotate, Hframes | apply keeps_ret].
Qed.

Lemma keeps_step_onwards (I : Machine W -> Prop) action :
  steady I ->
  (forall m r, I m -> I (set_total_reward r m)) ->
  (forall m r, I m -> I (emit (EvStep r) m)) ->
  keeps I (step_onwards action).
Proof.
  intros HI Htotal Hstep. unfold step_onwards, step_and_unpack.
  apply keeps_bind.
  - apply keeps_bind; [apply keeps_call, HI |].
    intros [[[[s r] d] t] i].
    apply keeps_bind; [apply keeps_modify; auto |]. intros _.
    apply keeps_bind; [apply keeps_modify; intros; apply HI; auto |].
    intros _. apply keeps_ret.
  - intros [[s r] i].
    apply keeps_bind; [apply keeps_modify; auto |]. intros _.
    apply keeps_bind; [| intros _]; apply keeps_modify; intros; apply HI; auto.
Qed.

Lemma keeps_recover_and_step (I : Machine W -> Prop) :
  steady I ->
  (forall action, keeps I (step_onwards action)) ->
  keeps I recover_and_step.
Proof.
  intros HI Htail. unfold recover_and_step.
  apply keeps_bind; [apply keeps_gets |]. intros i.
  apply keeps_bind.
  { destruct i; [apply keeps_ret |].
    apply keeps_bind; [apply keeps_call, HI |].
    intros i'. apply keeps_modify. intros; apply HI; auto. }
  intros _. apply keeps_bind; [apply keeps_gets |]. intros st.
  apply keeps_bind; [apply keeps_gets |]. intros i'.
  apply keeps_bind; [apply keeps_call, HI | exact Htail].
Qed.

Lemma keeps_iteration (I : Machine W -> Prop) :
  steady I ->
  keeps I render_and_collect ->
  (forall action, keeps I (step_onwards action)) ->
  keeps I iteration.
Proof.
  intros HI Hhead Htail.
  eapply triple_ext; [exact iteration_parts |].
  apply keeps_bind; [exact Hhead |]. intros _.
  apply keeps_recover_and_step; assumption.
Qed.


Lemma keeps_guarded_iteration (I : Machine W -> Prop) :
  steady I -> keeps I iteration -> keeps I guarded_iteration.
Proof.
  intros HI Hbody. unfold guarded_iteration. apply keeps_try.
  - apply keeps_bind; [exact Hbody | intros _; apply keeps_ret].
  - intros e. apply keeps_bind; [| intros _; apply keeps_ret].
    apply keeps_modify. intros m Hm.
    apply (steady_warning I HI m
             ("Error during episode recording: " +:+ message e) Hm).
Qed.

Lemma keeps_loop (I : Machine W -> Prop) fuel :
  steady I ->
  keeps I render_and_collect ->
  (forall action, keeps I (step_onwards action)) ->
  keeps I (rollout fuel).
Proof.
  intros HI Hhead Htail.
  apply keeps_rollout, keeps_guarded_iteration, keeps_iteration; assumption.
Qed.

(** The outer [try] up to the loop: either [import cv2] or [env.reset()]
    raised, or the loop is entered. *)
Lemma record_episode_cases fuel path (w : W) :
  (exists e w', record_episode fuel path (fresh w) = Some (Raise e, set_world w' (fresh w))) \/
  (exists s i w',
     record_episode fuel path (fresh w) =
       (rollout fuel ;; save_video path) (entered w' s i)).
Proof.
  destruct (import_cv2 w) as [[[] | e] w1] eqn:Himport.
  - destruct (env_reset w1) as [[[s i] | e] w2] eqn:Hreset.
    + right. exists s, i, w2. unfold record_episode.
      unfold bind at 1, call at 1; cbn. rewrite Himport.
      unfold bind at 1, modify at 1; cbn. unfold bind at 1, call at 1; cbn.
      rewrite Hreset. reflexivity.
    + left. exists e, w2. unfold record_episode.
      unfold bind at 1, call at 1; cbn. rewrite Himport.
      unfold bind at 1, modify at 1; cbn. unfold bind at 1, call at 1; cbn.
      rewrite Hreset. reflexivity.
  - left. exists e, w1. unfold record_episode.
    unfold bind at 1, call at 1; cbn. rewrite Himport. reflexivity.
Qed.


Lemma keeps_write_all (I : Machine W -> Prop) fs :
  calm I -> keeps I (write_all fs).
Proof.
  intros HI. induction fs as [| f fs IH]; cbn; [apply keeps_ret |].
  apply keeps_bind; [apply keeps_modify; intros; apply HI; auto; done |].
  intros _. apply keeps_bind; [apply keeps_call, HI | intros _; exact IH].
Qed.

Lemma keeps_release (I : Machine W -> Prop) : calm I -> keeps I release.
Proof.
  intros HI. unfold release.
  apply keeps_bind; [apply keeps_modify; intros; apply HI; auto; done |].
  intros _. apply keeps_call, HI.
Qed.

Lemma keeps_save_video (I : Machine W -> Prop) path :
  calm I -> keeps I (save_video path).
Proof.
  intros HI. unfold save_video.
  apply keeps_bind; [apply keeps_gets |].
  intros [| first fs];
    [apply keeps_modify; intros; apply HI; auto; done |].
  apply keeps_bind; [apply keeps_modify; intros; apply HI; auto; done |].
  intros _. apply keeps_bind; [apply keeps_call, HI |].
  intros _. apply keeps_bind; [apply keeps_modify, HI |].
  intros _. apply keeps_bind; [apply keeps_write_all, HI |].
  intros _. apply keeps_bind; [apply keeps_release, HI |].
  intros _. apply keeps_modify; intros; apply HI; auto; done.
Qed.

Lemma keeps_on_failure (I : Machine W -> Prop) e :
  calm I -> keeps I (on_failure e).
Proof.
  intros HI. unfold on_failure.
  apply keeps_bind; [apply keeps_modify; intros; apply HI; auto; done |].
  intros _. apply keeps_bind; [apply keeps_gets |].
  intros [|]; [apply keeps_release, HI | apply keeps_ret].
Qed.

(** The outer [try] block: what holds of the machine it leaves, from an
    invariant [I] of the loop and what the save makes of it. *)
Lemma record_episode_triple (I : Machine W -> Prop)
    (R : result unit -> Machine W -> Prop) fuel path w :
  steady I ->
  keeps I render_and_collect ->
  (forall action, keeps I (step_onwards action)) ->
  (forall w s i, I (entered w s i)) ->
  (forall e w', R (Raise e) (set_world w' (fresh w))) ->
  (forall e m, I m -> R (Raise e) m) ->
  triple I (save_video path) R ->
  forall r m, record_episode fuel path (fresh w) = Some (r, m) -> R r m.
Proof.
  intros Hsteady Hhead Htail Hentered Hprefix Hloop Hsave r m.
  destruct (record_episode_cases fuel path w)
    as [(e & w' & ->) | (s & i & w' & ->)].
  - intros [= <- <-]. apply Hprefix.
  - revert r m. generalize (Hentered w' s i).
    generalize (entered w' s i). intros m0 Hm0 r m. revert m0 r m Hm0.
    eapply triple_bind; [apply keeps_loop; assumption | | exact Hloop].
    intros []. exact Hsave.
Qed.

Lemma create_episode_video_triple (R Q : result unit -> Machine W -> Prop)
    fuel path w :
  (forall r m, record_episode fuel path (fresh w) = Some (r, m) -> R r m) ->
  (forall m, R (Return tt) m -> Q (Return tt) m) ->
  (forall e, catchable e = true -> triple (R (Raise e)) (on_failure e) Q) ->
  (forall e m, catchable e = false -> R (Raise e) m -> Q (Raise e) m) ->
  forall r m, create_episode_video fuel path w = Some (r, m) -> Q r m.
Proof.
  intros Hbody Hret Hcatch Hpass r m. unfold create_episode_video.
  generalize (eq_refl (fresh w)). generalize (fresh w) at 1 3.
  intros m0 Hm0. revert m0 r m Hm0.
  eapply triple_try; [| | exact Hcatch | exact Hpass].
  - intros m0 r m ->. apply Hbody.
  - intros [] m. apply Hret.
Qed.

(** An invariant of the loop and of the save that holds when the loop is
    entered holds when [create_episode_video] is left, however that
    happens. *)
Lemma create_episode_video_keeps (I : Machine W -> Prop) fuel path w r m :
  steady I -> calm I ->
  keeps I render_and_collect ->
  (forall action, keeps I (step_onwards action)) ->
  (forall w s i, I (entered w s i)) ->
  I (fresh w) ->
  create_episode_video fuel path w = Some (r, m) ->
  I m.
Proof.
  intros Hsteady Hcalm Hhead Htail Hentered Hfresh.
  apply (create_episode_video_triple (fun _ => I) (fun _ => I)); auto.
  - apply record_episode_triple with (I := I); auto.
    + intros. apply Hsteady, Hfresh.
    + apply keeps_save_video, Hcalm.
  - intros e _. apply keeps_on_failure, Hcalm.
Qed.

(** *** The running total *)

Lemma step_rewards_app l1 l2 :
  step_rewards (l1 ++ l2) = step_rewards l1 ++ step_rewards l2.
Proof. apply omap_app. Qed.

Lemma step_rewards_other l e :
  (forall r, e <> EvStep r) -> step_rewards (l ++ [e]) = step_rewards l.
Proof.
  intros He. rewrite step_rewards_app. destruct e; cbn;
    rewrite ?app_nil_r; try reflexivity.
  exfalso. eapply He. reflexivity.
Qed.

Lemma tallied_steady : steady (tallied (W:=W)).
Proof.
  split; intros; unfold tallied in *; cbn; try assumption.
  rewrite step_rewards_other; [assumption | done].
Qed.

Lemma tallied_calm : calm (tallied (W:=W)).
Proof.
  split; intros; unfold tallied in *; cbn; try assumption.
  rewrite step_rewards_other; assumption.
Qed.

Lemma tallied_step_onwards action : keeps tallied (step_onwards action).
Proof.
  intros m r m' Hm.
  unfold step_onwards, step_and_unpack, bind, call, modify, ret.
  destruct (env_step action (world m)) as [[[[[[s rw] d] t] i] | e] w]; cbn.
  - intros [= <- <-]. unfold tallied in *.
    cbn [log total_reward emit set_total_reward set_state set_info set_flags
         set_world].
    rewrite step_rewards_app. change (step_rewards [EvStep rw]) with [rw].
    rewrite total_of_app, Hm. reflexivity.
  - intros [= <- <-]. exact Hm.
Qed.

Lemma tallied_at_exit fuel path (w : W) r m :
  create_episode_video fuel path w = Some (r, m) -> tallied m.
Proof.
  apply create_episode_video_keeps.
  - exact tallied_steady.
  - exact tallied_calm.
  - apply keeps_render_and_collect; [exact tallied_steady | auto].
  - exact tallied_step_onwards.
  - reflexivity.
  - reflexivity.
Qed.


(** *** The encoder calls *)

Lemma encoder_events_app l1 l2 :
  encoder_events (l1 ++ l2) = encoder_events l1 ++ encoder_events l2.
Proof. apply List.filter_app. Qed.

Lemma encoder_events_writes fs :
  encoder_events (map EvWrite fs) = map EvWrite fs.
Proof.
  unfold encoder_events.
  induction fs as [| f fs IH]; cbn; [| rewrite IH]; reflexivity.
Qed.

Lemma quiet_steady : steady (quiet (W:=W)).
Proof.
  split.
  - intros m w [Hlog Hout]. split; assumption.
  - intros m s [Hlog Hout]. split; assumption.
  - intros m i [Hlog Hout]. split; assumption.
  - intros m d t [Hlog Hout]. split; assumption.
  - intros m rest [Hlog Hout]. split; cbn; [| assumption].
    rewrite encoder_events_app, Hlog. reflexivity.
Qed.

Lemma quiet_loop fuel : keeps quiet (rollout fuel).
Proof.
  apply keeps_loop.
  - exact quiet_steady.
  - apply keeps_render_and_collect; [exact quiet_steady |].
    intros m fs [Hlog Hout]. split; assumption.
  - intros action. apply keeps_step_onwards; [exact quiet_steady | |].
    + intros m r [Hlog Hout]. split; assumption.
    + intros m r [Hlog Hout]. split; cbn; [| assumption].
      rewrite encoder_events_app, Hlog. reflexivity.
Qed.

Lemma finished_same (m : Machine W) : finished m (world m) [] (out m) = m.
Proof. destruct m. unfold finished; cbn. rewrite app_nil_r. reflexivity. Qed.

Lemma write_all_cases fs (m : Machine W) r m' :
  write_all fs m = Some (r, m') ->
  exists k w,
    m' = finished m w (map EvWrite (take k fs)) (out m) /\
    (k <= length fs)%nat /\
    ((r = Return tt /\ k = length fs) \/ (exists e, r = Raise e)).
Proof.
  revert m. induction fs as [| f fs IH]; intros m; cbn [write_all].
  - intros [= <- <-]. exists 0%nat, (world m). cbn.
    rewrite finished_same. auto.
  - unfold bind at 1, modify at 1. unfold bind at 1, call at 1.
    destruct (writer_write f (world (emit (EvWrite f) m)))
      as [[[] | e] w1].
    + intros (k & w & -> & Hk & Hr)%IH. exists (S k), w.
      split; [| split; [cbn; lia |]].
      * unfold finished; cbn. rewrite <- app_assoc. reflexivity.
      * destruct Hr as [[-> ->] | He]; [left | right]; auto.
    + intros [= <- <-]. exists 1%nat, w1.
      split; [| split; [cbn; lia | eauto]].
      cbn. rewrite take_0. reflexivity.
Qed.

Lemma save_video_cases path (m : Machine W) r m' :
  save_video path m = Some (r, m') -> save_outcome path m r m'.
Proof.
  unfold save_video. unfold bind at 1, gets at 1.
  destruct (frames m) as [| f0 fs] eqn:Hframes.
  { intros [= <- <-]. apply no_frames_reported, Hframes. }
  assert (Hfs : frames m <> []) by (rewrite Hframes; discriminate).
  unfold bind at 1, modify at 1. unfold bind at 1, call at 1.
  match goal with |- context [writer_open ?p ?c ?fps ?sz ?w] =>
    destruct (writer_open p c fps sz w) as [[[] | e] w1] end.
  2:{ intros [= <- <-].
      replace (set_world w1 _)
        with (finished m w1 (encoder_trace path (frames m) 0 0) (out m)).
      - apply open_raised, Hfs.
      - unfold finished, encoder_trace, fourcc_mp4v, emit, set_world; cbn.
        rewrite Hframes. reflexivity. }
  unfold bind at 1, modify at 1. unfold bind at 1.
  match goal with |- context [write_all ?l ?m0] =>
    destruct (write_all l m0) as [[rw m1] |] eqn:Hwrite; [| discriminate] end.
  apply write_all_cases in Hwrite as (k & w2 & -> & Hk & Hrw).
  destruct Hrw as [[-> ->] | [e ->]].
  2:{ intros [= <- <-].
      match goal with |- save_outcome _ _ _ ?m1 =>
        replace m1
          with (finished m w2 (encoder_trace path (frames m) k 0) true) end.
      - apply write_raised; [exact Hfs | rewrite Hframes; exact Hk].
      - unfold finished, encoder_trace, fourcc_mp4v, emit, set_world; cbn.
        rewrite Hframes; cbn. rewrite <- app_assoc, app_nil_r. reflexivity. }
  rewrite firstn_all.
  unfold bind at 1, release. unfold bind at 1, modify at 1, call at 1.
  match goal with |- context [writer_release ?w] =>
    destruct (writer_release w) as [[[] | e] w3] end.
  - intros [= <- <-].
    match goal with |- save_outcome _ _ _ ?m1 =>
      replace m1 with (finished m w3 (saved path (frames m)) true) end.
    + apply video_written, Hfs.
    + unfold finished, saved, fourcc_mp4v, emit, set_world; cbn.
      rewrite Hframes; cbn.
      rewrite <- ?app_assoc. cbn. rewrite <- ?app_assoc. reflexivity.
  - intros [= <- <-].
    match goal with |- save_outcome _ _ _ ?m1 =>
      replace m1
        with (finished m w3
                (encoder_trace path (frames m) (length (frames m)) 1) true)
    end.
    + apply release_raised, Hfs.
    + unfold finished, encoder_trace, fourcc_mp4v, emit, set_world; cbn.
      rewrite Hframes; cbn. rewrite firstn_all.
      rewrite <- ?app_assoc. cbn. rewrite <- ?app_assoc. reflexivity.
Qed.


Lemma encoder_events_releases j :
  encoder_events (replicate j EvRelease) = replicate j EvRelease.
Proof.
  unfold encoder_events.
  induction j as [| j IH]; cbn; [| rewrite IH]; reflexivity.
Qed.

Lemma encoder_events_trace path fs k j :
  encoder_events (encoder_trace path fs k j) = encoder_trace path fs k j.
Proof.
  unfold encoder_trace.
  change (encoder_events (?e :: ?l)) with (e :: encoder_events l).
  rewrite encoder_events_app, encoder_events_writes, encoder_events_releases.
  reflexivity.
Qed.

Lemma saved_trace path fs :
  encoder_events (saved path fs) = encoder_trace path fs (length fs) 1.
Proof.
  unfold saved, encoder_trace.
  change (encoder_events (?e :: ?l)) with (e :: encoder_events l).
  rewrite encoder_events_app, encoder_events_writes, firstn_all.
  reflexivity.
Qed.

Lemma trace_released path fs k j :
  encoder_trace path fs k j ++ [EvRelease] = encoder_trace path fs k (S j).
Proof.
  unfold encoder_trace. cbn [app]. rewrite <- app_assoc.
  rewrite <- replicate_S_end. reflexivity.
Qed.

Lemma trace_ends_with_call l path fs k j e :
  last (l ++ encoder_trace path fs k j) = Some e -> is_encoder_event e = true.
Proof.
  rewrite last_app_Some. intros [Hlast | [Hnone _]].
  - apply last_Some_elem_of in Hlast. unfold encoder_trace in Hlast.
    apply elem_of_cons in Hlast as [-> | Hin]; [reflexivity |].
    apply elem_of_app in Hin as [Hin | Hin].
    + apply list_elem_of_fmap in Hin as (f & -> & _). reflexivity.
    + apply elem_of_replicate in Hin as [-> _]. reflexivity.
  - apply last_None in Hnone. discriminate.
Qed.

Lemma not_saved_after_trace path (m : Machine W) w fs k j o :
  ~ video_saved path (finished m w (encoder_trace path fs k j) o).
Proof.
  unfold video_saved; cbn. intros Hlast.
  apply trace_ends_with_call in Hlast. discriminate.
Qed.

Lemma not_saved_after_warning path (m : Machine W) rest :
  ~ video_saved path (emit (EvPrint ("Warning: " +:+ rest)) m).
Proof. unfold video_saved; cbn. rewrite last_snoc. intros [=]. Qed.

Lemma rolling_steady path : steady (rolling (W:=W) path).
Proof.
  split.
  - intros m w [Hq Hns]. split; [apply quiet_steady |]; assumption.
  - intros m s [Hq Hns]. split; [apply quiet_steady |]; assumption.
  - intros m i [Hq Hns]. split; [apply quiet_steady |]; assumption.
  - intros m d t [Hq Hns]. split; [apply quiet_steady |]; assumption.
  - intros m rest [Hq Hns].
    split; [apply quiet_steady, Hq | apply not_saved_after_warning].
Qed.

Lemma rolling_render path : keeps (rolling path) render_and_collect.
Proof.
  apply keeps_render_and_collect; [apply rolling_steady |].
  intros m fs [[Hlog Hout] Hns]. repeat split; assumption.
Qed.

Lemma rolling_step path action : keeps (rolling path) (step_onwards action).
Proof.
  apply keeps_step_onwards; [apply rolling_steady | |].
  - intros m r [[Hlog Hout] Hns]. repeat split; assumption.
  - intros m r [[Hlog Hout] Hns]. repeat split; cbn; [| assumption |].
    + rewrite encoder_events_app, Hlog. reflexivity.
    + unfold video_saved; cbn. rewrite last_snoc. intros [=].
Qed.

Lemma record_episode_tried fuel path w r m :
  record_episode fuel path (fresh w) = Some (r, m) -> tried path r m.
Proof.
  apply record_episode_triple with (I := rolling path).
  - apply rolling_steady.
  - apply rolling_render.
  - apply rolling_step.
  - intros w' s i. repeat split. intros [=].
  - intros e w'. left. split; [| eauto]. repeat split. intros [=].
  - intros e m0 Hm0. left. eauto.
  - intros m0 r0 m1 Hm0 Hsave. right. exists m0.
    split; [exact Hm0 | apply save_video_cases, Hsave].
Qed.

Lemma accounted_trace path r (m0 : Machine W) w k j o :
  quiet m0 -> frames m0 <> [] -> (k <= length (frames m0))%nat ->
  (o = false -> k = 0%nat /\ j = 0%nat) ->
  (o = true -> j = 0%nat -> exists e, r = Raise e /\ catchable e = false) ->
  accounted path r (finished m0 w (encoder_trace path (frames m0) k j) o).
Proof.
  intros [Hlog Hout] Hfs Hk Hoff Hon. right. split; [exact Hfs |].
  exists k, j. cbn. rewrite encoder_events_app, Hlog, encoder_events_trace.
  split; [reflexivity |]. split; [exact Hk |]. split; [exact Hoff |].
  split; [exact Hon |].
  intros Hsaved. exfalso. revert Hsaved.
  apply (not_saved_after_trace path m0 w (frames m0) k j o).
Qed.

Lemma tried_returned path (m : Machine W) :
  tried path (Return tt) m -> accounted path (Return tt) m.
Proof.
  intros [[_ [e [=]]] | (m0 & [Hq Hns] & Hsave)].
  inversion Hsave as [Hfs | | | | w Hfs]; subst.
  - left. split.
    + destruct Hq as [Hlog Hout]. split; cbn; [| assumption].
      rewrite encoder_events_app, Hlog. reflexivity.
    + apply (not_saved_after_warning path m0 "No frames were captured").
  - right. split; [exact Hfs |].
    exists (length (frames m0)), 1%nat. destruct Hq as [Hlog Hout]. cbn.
    rewrite encoder_events_app, Hlog, saved_trace.
    repeat split; auto; discriminate.
Qed.

Lemma tried_passed path e (m : Machine W) :
  catchable e = false ->
  tried path (Raise e) m -> accounted path (Raise e) m.
Proof.
  intros He [[Hroll _] | (m0 & [Hq Hns] & Hsave)]; [left; exact Hroll |].
  inversion Hsave as [| e0 w Hfs | e0 w k Hfs Hk | e0 w Hfs |]; subst.
  - apply accounted_trace; auto with lia.
    destruct Hq as [_ ->]. discriminate.
  - apply accounted_trace; eauto. discriminate.
  - apply accounted_trace; eauto; discriminate.
Qed.


Lemma on_failure_unbound e (m : Machine W) :
  out m = false ->
  on_failure e m =
    Some (Return tt,
          emit (EvPrint ("Warning: Failed to create video: " +:+ message e)) m).
Proof.
  intros Hout. unfold on_failure, bind, print, modify, gets; cbn.
  rewrite Hout. reflexivity.
Qed.

Lemma on_failure_bound e (m : Machine W) :
  out m = true ->
  exists r w,
    on_failure e m =
      Some (r, finished m w
                 [EvPrint ("Warning: Failed to create video: " +:+ message e);
                  EvRelease] true).
Proof.
  intros Hout. unfold on_failure, bind, print, modify, gets, release; cbn.
  rewrite Hout. unfold bind, modify, call; cbn.
  destruct (writer_release (world m)) as [r w]. exists r, w.
  unfold finished, emit, set_world; cbn. rewrite Hout, <- app_assoc.
  reflexivity.
Qed.

Lemma tried_caught path e :
  triple (tried path (Raise e)) (on_failure e) (accounted path).
Proof.
  intros m1 r m [[[Hq Hns] _] | (m0 & [Hq Hns] & Hsave)].
  - rewrite on_failure_unbound by apply Hq. intros [= <- <-]. left.
    split.
    + destruct Hq as [Hlog Hout]. split; cbn; [| assumption].
      rewrite encoder_events_app, Hlog. reflexivity.
    + apply (not_saved_after_warning path m1
               ("Failed to create video: " +:+ message e)).
  - assert (Hwarned : forall (m' : Machine W),
              ~ video_saved path
                  (emit (EvPrint ("Warning: Failed to create video: "
                                  +:+ message e)) m')).
    { intros m'. apply (not_saved_after_warning path m'
                          ("Failed to create video: " +:+ message e)). }
    assert (Hcase : exists w k j o,
              m1 = finished m0 w (encoder_trace path (frames m0) k j) o /\
              frames m0 <> [] /\ (k <= length (frames m0))%nat /\
              (o = false -> k = 0%nat /\ j = 0%nat /\ out m0 = false)).
    { inversion Hsave as [| e0 w Hfs | e0 w k Hfs Hk | e0 w Hfs |]; subst.
      - exists w, 0%nat, 0%nat, (out m0). repeat split; auto with lia.
      - exists w, k, 0%nat, true. repeat split; auto; discriminate.
      - exists w, (length (frames m0)), 1%nat, true.
        repeat split; auto; discriminate. }
    destruct Hcase as (w & k & j & o & -> & Hfs & Hk & Hoff).
    destruct Hq as [Hlog Hout]. destruct o.
    + destruct (on_failure_bound e
                  (finished m0 w (encoder_trace path (frames m0) k j) true)
                  eq_refl) as (r' & w' & ->).
      intros [= <- <-]. right. split; [exact Hfs |]. exists k, (S j).
      cbn [log frames out finished].
      rewrite !encoder_events_app, Hlog, encoder_events_trace.
      change (encoder_events [EvPrint _; EvRelease]) with [EvRelease].
      cbn [app]. rewrite trace_released.
      split; [reflexivity |]. split; [exact Hk |].
      split; [discriminate |]. split; [discriminate |].
      unfold video_saved; cbn [log finished]. rewrite last_app. cbn.
      intros [=].
    + rewrite on_failure_unbound by reflexivity. intros [= <- <-].
      destruct (Hoff eq_refl) as (-> & -> & _).
      right. split; [exact Hfs |]. exists 0%nat, 0%nat.
      cbn [log frames out finished emit].
      rewrite !encoder_events_app, Hlog, encoder_events_trace.
      change (encoder_events [EvPrint _]) with (@nil event).
      rewrite app_nil_r. cbn [app].
      split; [reflexivity |]. split; [lia |].
      split; [auto |]. split; [discriminate |].
      intros Hsaved. exfalso. revert Hsaved. apply Hwarned.
Qed.

(** Every way out of [create_episode_video] is accounted for. *)
Lemma encoder_account fuel path (w : W) r m :
  create_episode_video fuel path w = Some (r, m) -> accounted path r m.
Proof.
  apply (create_episode_video_triple (tried path) (accounted path)).
  - intros r0 m0. apply record_episode_tried.
  - apply tried_returned.
  - intros e _. apply tried_caught.
  - apply tried_passed.
Qed.


(** *** The number of files *)

Lemma opens_encoder_events l : opens l = opens (encoder_events l).
Proof.
  unfold opens, encoder_events. f_equal.
  induction l as [| e l IH]; [reflexivity |].
  destruct e; cbn; rewrite <- IH; reflexivity.
Qed.

Lemma opens_trace path fs k j : opens (encoder_trace path fs k j) = 1%nat.
Proof.
  unfold opens, encoder_trace. cbn. f_equal.
  rewrite List.filter_app.
  assert (Hw : forall l, List.filter is_open (map EvWrite l) = []).
  { induction l; [reflexivity | assumption]. }
  assert (Hr : forall n, List.filter is_open (replicate n EvRelease) = []).
  { induction n; [reflexivity | assumption]. }
  rewrite Hw, Hr. reflexivity.
Qed.

Lemma at_most_one_open fuel path (w : W) r m :
  create_episode_video fuel path w = Some (r, m) -> (opens (log m) <= 1)%nat.
Proof.
  intros Hrun. rewrite opens_encoder_events.
  destruct (encoder_account _ _ _ _ _ Hrun)
    as [[[-> _] _] | (_ & k & j & -> & _)].
  - cbn. lia.
  - rewrite opens_trace. lia.
Qed.

(** *** An environment that never renders *)

Lemma warned_emit (m : Machine W) e :
  (forall line, e = EvPrint line -> exists rest, line = "Warning: " +:+ rest) ->
  warned m -> warned (emit e m).
Proof.
  intros He Hm line. cbn. rewrite elem_of_app, list_elem_of_singleton.
  intros [Hin | <-]; [apply Hm, Hin | apply He; reflexivity].
Qed.

Lemma blank_warning (m : Machine W) rest :
  blank m -> blank (emit (EvPrint ("Warning: " +:+ rest)) m).
Proof.
  intros (Hfs & Hq & Hw). split; [exact Hfs |]. split.
  - apply quiet_steady, Hq.
  - apply warned_emit; [| exact Hw]. intros line [= <-]. eauto.
Qed.

Lemma blank_steady : steady (blank (W:=W)).
Proof.
  split; try (intros m ? (Hfs & Hq & Hw); repeat split; try apply Hq;
              assumption).
  - intros m d t (Hfs & Hq & Hw). repeat split; try apply Hq; assumption.
  - intros m rest. apply blank_warning.
Qed.

Section NeverRenders.
Hypothesis never_renders : forall w : W, (env_render w).1 = Return None.

Lemma blank_render : keeps blank render_and_collect.
Proof.
  intros m r m' Hm. unfold render_and_collect, bind, call.
  specialize (never_renders (world m)).
  destruct (env_render (world m)) as [r0 w]. cbn in never_renders. subst r0.
  intros [= <- <-]. apply blank_steady, Hm.
Qed.

Lemma blank_step action : keeps blank (step_onwards action).
Proof.
  apply keeps_step_onwards; [exact blank_steady | |].
  - intros m r (Hfs & Hq & Hw). repeat split; try apply Hq; assumption.
  - intros m r (Hfs & [Hlog Hout] & Hw). repeat split; try assumption.
    + cbn. rewrite encoder_events_app, Hlog. reflexivity.
    + apply warned_emit; [discriminate | exact Hw].
Qed.

Lemma never_renders_blank fuel path (w : W) r m :
  create_episode_video fuel path w = Some (r, m) -> reported_blank r m.
Proof.
  apply (create_episode_video_triple
           (fun r m =>
              blank m /\
              (r = Return tt ->
               last (log m) = Some (EvPrint "Warning: No frames were captured")))
           reported_blank).
  - apply record_episode_triple with (I := blank).
    + exact blank_steady.
    + exact blank_render.
    + exact blank_step.
    + intros w' s i. repeat split. intros line Hin. inversion Hin.
    + intros e w'. split; [| discriminate].
      repeat split. intros line Hin. inversion Hin.
    + intros e m0 Hm0. split; [exact Hm0 | discriminate].
    + intros m0 r0 m1 Hm0. pose proof Hm0 as (Hfs & _).
      unfold save_video, bind, gets. rewrite Hfs. intros [= <- <-].
      split; [apply (blank_warning m0 "No frames were captured"), Hm0 |].
      intros _. cbn. apply last_snoc.
  - intros m0 [Hm0 Hlast]. split; [exact Hm0 |]. split; [left |]; auto.
  - intros e He m0 r0 m1 [Hm0 _].
    rewrite on_failure_unbound by apply Hm0. intros [= <- <-].
    split; [| split; [auto |]].
    + apply (blank_warning m0 ("Failed to create video: " +:+ message e)), Hm0.
    + intros _. right. exists e. cbn. apply last_snoc.
  - intros e m0 He [Hm0 _]. split; [exact Hm0 |].
    split; [eauto | discriminate].
Qed.

End NeverRenders.

End Invariants.
End RunFacts.

(** * The encoder's own record of a run *)

Module TapeFacts.
Import PyFormat Recorder RecorderFacts RunFacts Tape.

Section Taped.
Context {W : Type} `{Collaborators W}.

Lemma passing_tape {A} (f : W -> result A * W) (t : Taped W) :
  tape (passing f t).2 = tape t.
Proof. unfold passing. destruct (f (beneath t)). reflexivity. Qed.

Lemma untouched_passing {A} t (f : W -> result A * W) :
  keeps (untouched t) (call (passing f)).
Proof.
  apply triple_call. intros m Hm. unfold untouched. cbn [world set_world].
  rewrite passing_tape. exact Hm.
Qed.

Lemma untouched_locals t (g : Machine (Taped W) -> Machine (Taped W)) :
  (forall m, world (g m) = world m) -> keeps (untouched t) (modify g).
Proof.
  intros Hg. apply keeps_modify. intros m Hm. unfold untouched.
  rewrite Hg. exact Hm.
Qed.

(** *** The loop makes no call on the encoder *)

Lemma untouched_step_onwards t action :
  keeps (untouched t) (step_onwards (H := taped) action).
Proof.
  unfold step_onwards, step_and_unpack. apply keeps_bind.
  - apply keeps_bind; [apply untouched_passing |].
    intros [[[[s r] d] tr] i].
    apply keeps_bind; [apply untouched_locals; reflexivity |]. intros _.
    apply keeps_bind; [apply untouched_locals; reflexivity |]. intros _.
    apply keeps_ret.
  - intros [[s r] i].
    apply keeps_bind; [apply untouched_locals; reflexivity |]. intros _.
    apply keeps_bind; [| intros _]; apply untouched_locals; reflexivity.
Qed.

Lemma untouched_iteration t : keeps (untouched t) (iteration (H := taped)).
Proof.
  eapply triple_ext; [exact iteration_parts |].
  apply keeps_bind.
  - unfold render_and_collect. apply keeps_bind; [apply untouched_passing |].
    intros [img |]; [| apply keeps_ret].
    apply keeps_annotate. intros m fs Hm. exact Hm.
  - intros _. unfold recover_and_step.
    apply keeps_bind; [apply keeps_gets |]. intros i.
    apply keeps_bind.
    { destruct i; [apply keeps_ret |].
      apply keeps_bind; [apply untouched_passing |].
      intros i'. apply untouched_locals. reflexivity. }
    intros _. apply keeps_bind; [apply keeps_gets |]. intros st.
    apply keeps_bind; [apply keeps_gets |]. intros i'.
    apply keeps_bind; [apply untouched_passing |].
    apply untouched_step_onwards.
Qed.

(** A pass leaves the loop by an exception only if that is no
    [Exception]. *)
Lemma untouched_guarded t :
  triple (untouched t) (guarded_iteration (H := taped))
    (fun r m => untouched t m /\ forall e, r = Raise e -> catchable e = false).
Proof.
  unfold guarded_iteration.
  eapply triple_try with (R := fun _ => untouched t).
  - apply keeps_bind; [apply untouched_iteration | intros _; apply keeps_ret].
  - intros a m Hm. split; [exact Hm | discriminate].
  - intros e _ m r m' Hm. unfold bind, print, modify, ret.
    intros [= <- <-]. split; [exact Hm | discriminate].
  - intros e m He Hm. split; [exact Hm |]. intros e0 [= <-]. exact He.
Qed.

Lemma untouched_rollout t fuel :
  triple (untouched t) (rollout (H := taped) fuel)
    (fun r m => untouched t m /\ forall e, r = Raise e -> catchable e = false).
Proof.
  induction fuel as [| fuel IH]; intros m r m' Hm; cbn [rollout].
  - destruct (done m || truncated m); [| discriminate].
    intros [= <- <-]. split; [exact Hm | discriminate].
  - destruct (done m || truncated m).
    { intros [= <- <-]. split; [exact Hm | discriminate]. }
    revert m r m' Hm. eapply triple_bind; [apply untouched_guarded | |].
    + intros [|]; cbn beta.
      * intros m r m' [Hm _]. apply IH, Hm.
      * apply triple_ret. intros m [Hm _]. split; [exact Hm | discriminate].
    + intros e m [Hm He]. split; [exact Hm |]. intros e0 [= <-]. auto.
Qed.

(** The outer [try] up to the loop, on instrumented collaborators. *)
Lemma record_episode_taped fuel path (w : W) :
  (exists e w',
     record_episode (H := taped) fuel path (fresh (unplayed w)) =
       Some (Raise e, set_world (unplayed w') (fresh (unplayed w)))) \/
  (exists s i w',
     record_episode (H := taped) fuel path (fresh (unplayed w)) =
       (rollout (H := taped) fuel ;; save_video (H := taped) path)
         (entered (unplayed w') s i)).
Proof.
  destruct (import_cv2 w) as [[[] | e] w1] eqn:Himport.
  - destruct (env_reset w1) as [[[s i] | e] w2] eqn:Hreset.
    + right. exists s, i, w2. unfold record_episode.
      unfold bind at 1, call at 1; cbn. unfold passing; cbn. rewrite Himport.
      unfold bind at 1, modify at 1; cbn. unfold bind at 1, call at 1; cbn.
      unfold passing; cbn. rewrite Hreset. reflexivity.
    + left. exists e, w2. unfold record_episode.
      unfold bind at 1, call at 1; cbn. unfold passing; cbn. rewrite Himport.
      unfold bind at 1, modify at 1; cbn. unfold bind at 1, call at 1; cbn.
      unfold passing; cbn. rewrite Hreset. reflexivity.
  - left. exists e, w1. unfold record_episode.
    unfold bind at 1, call at 1; cbn. unfold passing; cbn. rewrite Himport.
    reflexivity.
Qed.

(** *** The save, as the encoder records it *)

Lemma wrote_app fs gs : wrote (fs ++ gs) = wrote fs ++ wrote gs.
Proof. apply map_app. Qed.

Lemma write_all_taped fs (m : Machine (Taped W)) r m' :
  write_all (H := taped) fs m = Some (r, m') ->
  frames m' = frames m /\ out m' = out m /\
  ((r = Return tt /\ tape (world m') = tape (world m) ++ wrote fs) \/
   (exists e k f,
      r = Raise e /\ fs !! k = Some f /\
      tape (world m') =
        tape (world m) ++ wrote (take k fs) ++ [(Wrote f, false)])).
Proof.
  revert m. induction fs as [| f fs IH]; intros m; cbn [write_all].
  - intros [= <- <-]. split; [reflexivity |]. split; [reflexivity |].
    left. split; [reflexivity |]. cbn. rewrite app_nil_r. reflexivity.
  - unfold bind at 1, modify at 1. unfold bind at 1, call at 1.
    cbn [world emit writer_write taped]. unfold taping.
    destruct (writer_write f (beneath (world m))) as [[[] | e] w1].
    + intros (Hfs & Hout & Hcase)%IH. cbn in Hfs, Hout, Hcase.
      split; [exact Hfs |]. split; [exact Hout |].
      destruct Hcase as [[-> Htape] | (e & k & g & -> & Hk & Htape)].
      * left. split; [reflexivity |]. rewrite Htape, <- app_assoc.
        reflexivity.
      * right. exists e, (S k), g. split; [reflexivity |].
        split; [exact Hk |]. rewrite Htape, <- app_assoc. reflexivity.
    + intros [= <- <-]. split; [reflexivity |]. split; [reflexivity |].
      right. exists e, 0%nat, f. split; [reflexivity |].
      split; reflexivity.
Qed.

Lemma save_video_taped path (m : Machine (Taped W)) r m' :
  frames m <> [] ->
  out m = false ->
  save_video (H := taped) path m = Some (r, m') ->
  exists o calls,
    save_tape path (frames m) r o calls /\
    tape (world m') = tape (world m) ++ calls /\
    frames m' = frames m /\
    out m' = o /\
    (r = Return tt -> video_saved path m').
Proof.
  intros Hfs Hout. unfold save_video. unfold bind at 1, gets at 1.
  destruct (frames m) as [| f0 fs] eqn:Hframes; [done |].
  unfold bind at 1, modify at 1. unfold bind at 1, call at 1.
  cbn [world emit writer_open taped]. unfold taping at 1.
  match goal with |- context [writer_open ?p ?c ?fps ?sz ?w] =>
    destruct (writer_open p c fps sz w) as [[[] | e] w1] end.
  2:{ intros [= <- <-]. eexists _, _. split; [apply (open_refused _ _ e) |].
      cbn. rewrite Hframes.
      split; [reflexivity |]. split; [reflexivity |]. split; [exact Hout |].
      discriminate. }
  unfold bind at 1, modify at 1. unfold bind at 1.
  match goal with |- context [write_all ?l ?m0] =>
    destruct (write_all l m0) as [[rw m1] |] eqn:Hwrite; [| discriminate] end.
  apply write_all_taped in Hwrite as (Hfs1 & Hout1 & Hcase).
  cbn in Hfs1, Hout1, Hcase.
  destruct Hcase as [[-> Htape] | (e & k & g & -> & Hk & Htape)].
  2:{ intros [= <- <-]. eexists _, _.
      split; [apply (write_refused _ _ e k g Hk) |].
      rewrite Htape, Hfs1, Hframes, <- app_assoc.
      split; [reflexivity |]. split; [reflexivity |]. split; [exact Hout1 |].
      discriminate. }
  unfold bind at 1, release. unfold bind at 1, modify at 1, call at 1.
  cbn [world emit writer_release taped]. unfold taping at 1.
  destruct (writer_release (beneath (world m1))) as [[[] | e] w3].
  - unfold print, modify. intros [= <- <-]. eexists _, _.
    split; [apply all_written |]. cbn. rewrite Htape, Hfs1, Hframes.
    rewrite <- !app_assoc.
    split; [reflexivity |]. split; [reflexivity |]. split; [exact Hout1 |].
    intros _. unfold video_saved. cbn. apply last_snoc.
  - intros [= <- <-]. eexists _, _.
    split; [apply (release_refused _ _ e) |]. cbn.
    rewrite Htape, Hfs1, Hframes, <- !app_assoc.
    split; [reflexivity |]. split; [reflexivity |]. split; [exact Hout1 |].
    discriminate.
Qed.

(** *** The outer handler, as the encoder records it *)

Lemma on_failure_taped e (m : Machine (Taped W)) r m' :
  on_failure (H := taped) e m = Some (r, m') ->
  frames m' = frames m /\
  (forall path, ~ video_saved path m') /\
  if out m then
    exists b, tape (world m') = tape (world m) ++ [(Released, b)] /\
              answers b r
  else tape (world m') = tape (world m) /\ r = Return tt.
Proof.
  unfold on_failure, bind, print, modify, gets, release; cbn.
  destruct (out m).
  - unfold bind, modify, call; cbn. unfold taping.
    destruct (writer_release (beneath (world m))) as [[[] | e'] w1];
      intros [= <- <-]; cbn.
    + split; [reflexivity |]. split.
      { intros path. unfold video_saved; cbn. rewrite last_snoc. intros [=]. }
      exists true. split; reflexivity.
    + split; [reflexivity |]. split.
      { intros path. unfold video_saved; cbn. rewrite last_snoc. intros [=]. }
      exists false. split; [reflexivity | eexists; reflexivity].
  - intros [= <- <-]; cbn. split; [reflexivity |]. split; [| auto].
    intros path. unfold video_saved; cbn. rewrite last_snoc. intros [=].
Qed.

(** *** Every way out, as the encoder records it *)

Lemma rolling_rollout fuel path :
  keeps (rolling path) (rollout (H := taped) fuel).
Proof.
  apply keeps_loop;
    [apply rolling_steady | apply rolling_render | apply rolling_step].
Qed.

Lemma save_raised_not_saved path (m : Machine (Taped W)) e m' :
  save_video (H := taped) path m = Some (Raise e, m') ->
  ~ video_saved path m'.
Proof.
  intros Hsave%save_video_cases.
  inversion Hsave; subst; apply not_saved_after_trace.
Qed.

Lemma encoder_tape_account fuel path (w : W) r m :
  create_episode_video (H := taped) fuel path (unplayed w) = Some (r, m) ->
  exit_tape path (frames m) (video_saved path m) r (tape (world m)).
Proof.
  unfold create_episode_video, try_except.
  destruct (record_episode_taped fuel path w)
    as [(e & w' & ->) | (s & i & w' & ->)].
  - destruct (catchable e) eqn:He.
    + intros (Hfs & Hns & Htape & ->)%on_failure_taped.
      cbn in Hfs, Htape. rewrite Htape, Hfs.
      apply exit_unopened; [apply Hns | reflexivity | discriminate].
    + intros [= <- <-]. cbn.
      apply exit_unopened;
        [intros [=] | discriminate | intros e0 [= <-]; exact He].
  - unfold bind at 1.
    assert (Hroll : rolling path (entered (unplayed w') s i)).
    { split; [split; reflexivity | intros [=]]. }
    destruct (rollout fuel (entered (unplayed w') s i))
      as [[[[] | e] m1] |] eqn:Hloop; [| | discriminate].
    + pose proof (rolling_rollout fuel path _ _ _ Hroll Hloop)
        as [[_ Hunbound] _].
      apply (untouched_rollout [] fuel) in Hloop as [Hquiet _];
        [| reflexivity].
      destruct (frames m1) as [| f0 fs] eqn:Hframes.
      { unfold save_video, bind, gets, print, modify. rewrite Hframes.
        intros [= <- <-]. cbn. rewrite Hquiet, Hframes.
        apply exit_unopened; [| reflexivity | discriminate].
        unfold video_saved; cbn. rewrite last_snoc. intros [=]. }
      assert (Hfs : frames m1 <> []) by (rewrite Hframes; discriminate).
      destruct (save_video path m1) as [[r1 m2] |] eqn:Hsave;
        [| discriminate].
      pose proof Hsave as Hraised.
      apply (save_video_taped path m1 r1 m2 Hfs Hunbound) in Hsave
        as (o & calls & Hst & Htape & Hfs2 & Hout2 & Hsaved).
      rewrite Hquiet in Htape. cbn [app] in Htape. rewrite <- Hfs2 in Hfs, Hst.
      destruct Hst as [e | e k f Hk | e |].
      * apply save_raised_not_saved in Hraised.
        destruct (catchable e) eqn:He.
        -- intros (Hfs3 & Hns & Hcase)%on_failure_taped.
           rewrite Hout2 in Hcase.
           destruct Hcase as [-> ->]. rewrite Htape, Hfs3.
           apply (exit_open_caught _ _ _ e); auto.
        -- intros [= <- <-]. rewrite Htape.
           apply exit_open_passed; assumption.
      * apply save_raised_not_saved in Hraised.
        destruct (catchable e) eqn:He.
        -- intros (Hfs3 & Hns & Hcase)%on_failure_taped.
           rewrite Hout2 in Hcase.
           destruct Hcase as (b & -> & Hb). rewrite Htape, Hfs3.
           cbn [app]. rewrite <- app_assoc. cbn [app].
           apply exit_write_caught; auto.
        -- intros [= <- <-]. rewrite Htape.
           apply exit_write_passed; assumption.
      * apply save_raised_not_saved in Hraised.
        destruct (catchable e) eqn:He.
        -- intros (Hfs3 & Hns & Hcase)%on_failure_taped.
           rewrite Hout2 in Hcase.
           destruct Hcase as (b & -> & Hb). rewrite Htape, Hfs3.
           cbn [app]. rewrite <- app_assoc. cbn [app].
           apply exit_release_caught; auto.
        -- intros [= <- <-]. rewrite Htape.
           apply exit_release_passed; assumption.
      * intros [= <- <-]. rewrite Htape.
        apply exit_saved; [apply Hsaved; reflexivity | exact Hfs].
    + pose proof (rolling_rollout fuel path _ _ _ Hroll Hloop) as [_ Hns].
      apply (untouched_rollout [] fuel) in Hloop as [Hquiet He];
        [| reflexivity].
      rewrite (He e eq_refl). intros [= <- <-]. rewrite Hquiet.
      apply exit_unopened; [exact Hns | discriminate |].
      intros e0 [= <-]. apply He. reflexivity.
Qed.

(** *** Episodes on instrumented collaborators *)

Lemma taped_accepts : encoder_accepts (W := W) -> encoder_accepts (H := taped).
Proof.
  intros (Hopen & Hwrite & Hrelease). repeat split.
  - intros p c fps sz [w t]. cbn. unfold taping; cbn.
    specialize (Hopen p c fps sz w).
    destruct (writer_open p c fps sz w). exact Hopen.
  - intros f [w t]. cbn. unfold taping; cbn. specialize (Hwrite f w).
    destruct (writer_write f w). exact Hwrite.
  - intros [w t]. cbn. unfold taping; cbn. specialize (Hrelease w).
    destruct (writer_release w). exact Hrelease.
Qed.

Lemma taped_last_pass w s d r answer w' t :
  last_pass w s d r answer w' ->
  last_pass (H := taped) {| beneath := w; tape := t |} s d r answer
    {| beneath := w'; tape := t |}.
Proof.
  intros (w1 & a & w2 & Hrender & Hreads & Hselect & Hstep).
  exists {| beneath := w1; tape := t |}, a, {| beneath := w2; tape := t |}.
  cbn. unfold passing; cbn. rewrite Hrender, Hselect, Hstep.
  repeat split; apply Hreads.
Qed.

Lemma taped_plays w s d rs w' s' d' t :
  plays w s d rs w' s' d' ->
  plays (H := taped) {| beneath := w; tape := t |} s d rs
    {| beneath := w'; tape := t |} s' d'.
Proof.
  induction 1 as [w s d | w s d r s1 d1 w1 rs w' s' d' Hpass Hrest IH].
  - apply plays_nil.
  - eapply plays_cons; [apply taped_last_pass, Hpass | exact IH].
Qed.

Lemma taped_starts w s d w' :
  starts w s d w' -> starts (H := taped) (unplayed w) s d (unplayed w').
Proof.
  intros (w0 & Himport & Hreset). exists (unplayed w0).
  cbn. unfold passing; cbn. rewrite Himport, Hreset. split; reflexivity.
Qed.

Lemma saved_last l path fs :
  last (l ++ saved path fs) = Some (EvPrint ("Video saved to: " +:+ path)).
Proof.
  unfold saved. rewrite app_comm_cons, !app_assoc.
  change [EvRelease; ?e] with ([EvRelease] ++ [e]).
  rewrite app_assoc. apply last_snoc.
Qed.

(** The record of a run whose video is reported as saved. *)
Lemma saved_tape fuel path (w : W) r m :
  create_episode_video (H := taped) fuel path (unplayed w) = Some (r, m) ->
  video_saved path m ->
  r = Return tt /\ frames m <> [] /\ tape (world m) = video path (frames m).
Proof.
  intros Hrun%encoder_tape_account Hsaved.
  destruct Hrun; try contradiction. auto.
Qed.

End Taped.

End TapeFacts.

Module RecorderClaims.
Import PyFormat PyFormatFacts Recorder RecorderFacts RunFacts.
Import Tape TapeFacts.

Section Claims.
Context {W : Type} `{Collaborators W}.

Lemma written_app l1 l2 : written (l1 ++ l2) = written l1 ++ written l2.
Proof. apply omap_app. Qed.

Lemma written_writes fs : written (map EvWrite fs) = fs.
Proof.
  induction fs as [| f fs IH]; [reflexivity |].
  cbn. unfold written in IH. rewrite IH. reflexivity.
Qed.

Lemma written_trace path fs k j : written (encoder_trace path fs k j) = take k fs.
Proof.
  unfold encoder_trace.
  change (written (EvOpen ?p ?c ?x ?s :: ?l)) with (written l).
  rewrite written_app, written_writes.
  assert (Hr : written (replicate j EvRelease) = []).
  { induction j; [reflexivity | assumption]. }
  rewrite Hr. apply app_nil_r.
Qed.

Lemma written_encoder_events l : written l = written (encoder_events l).
Proof.
  unfold written, encoder_events.
  induction l as [| e l IH]; [reflexivity |].
  destruct e; cbn; rewrite <- ?IH; reflexivity.
Qed.

Lemma step_rewards_steps rs : step_rewards (map EvStep rs) = rs.
Proof.
  induction rs as [| r rs IH]; [reflexivity |].
  cbn. unfold step_rewards in IH. rewrite IH. reflexivity.
Qed.

Lemma step_rewards_saved path fs : step_rewards (saved path fs) = [].
Proof.
  unfold saved.
  change (step_rewards (EvOpen ?p ?c ?x ?s :: ?l)) with (step_rewards l).
  rewrite step_rewards_app.
  assert (Hw : step_rewards (map EvWrite fs) = []).
  { induction fs; [reflexivity | assumption]. }
  rewrite Hw. reflexivity.
Qed.

Lemma handed_wrote fs : handed (wrote fs) = fs.
Proof.
  induction fs as [| f fs IH]; [reflexivity |].
  cbn. unfold handed, wrote in IH. rewrite IH. reflexivity.
Qed.

Lemma handed_app t1 t2 : handed (t1 ++ t2) = handed t1 ++ handed t2.
Proof. apply omap_app. Qed.

Lemma handed_video path fs : handed (video path fs) = fs.
Proof.
  unfold video. change (handed (opening ?p ?l :: ?t)) with (handed t).
  rewrite handed_app, handed_wrote. cbn. apply app_nil_r.
Qed.

Lemma wrote_not_opening fs c : c ∈ wrote fs -> is_opening c = false.
Proof. intros (f & -> & _)%list_elem_of_fmap. reflexivity. Qed.

Lemma wrote_not_release fs b : (Released, b) ∉ wrote fs.
Proof. intros (f & [=] & _)%list_elem_of_fmap. Qed.

(** C3.  For an environment that renders an image on every call and whose
    [N]-th step is the first to report [terminated] or [truncated] (the
    [N - 1] passes of [plays] and the last pass), with an encoder that
    accepts every call, [create_episode_video] returns with exactly [N]
    frames collected, and the encoder has received exactly these calls: the
    writer opened, one [write] for each of the [N] frames in the order they
    were collected, and [release]; the video is reported as saved.  The
    render of a pass precedes its step, so the count is [N] and not
    [N + 1]. *)
Theorem frame_count_invariant
    (w0 : W) s0 d0 w1 rs w2 s d r s' dn tr i' w3 path fuel :
  encoder_accepts (W := W) ->
  starts w0 s0 d0 w1 ->
  plays w1 s0 d0 rs w2 s d ->
  last_pass w2 s d r (Return (s', reward r, dn, tr, i')) w3 ->
  dn || tr = true ->
  (S (length rs) <= fuel)%nat ->
  exists m,
    create_episode_video (H := taped) fuel path (unplayed w0) =
      Some (Return tt, m) /\
    length (step_rewards (log m)) = S (length rs) /\
    length (frames m) = S (length rs) /\
    tape (world m) = video path (frames m) /\
    handed (tape (world m)) = frames m /\
    video_saved path m.
Proof.
  intros Henc Hstart Hplays Hlast Hend Hfuel.
  destruct (episode_recorded (H := taped) (unplayed w0) s0 d0 (unplayed w1)
              rs (unplayed w2) s d r s' dn tr i' (unplayed w3) path fuel)
    as [w4 Hrun].
  { apply taped_accepts, Henc. }
  { apply taped_starts, Hstart. }
  { apply taped_plays, Hplays. }
  { apply taped_last_pass, Hlast. }
  { exact Hend. }
  { lia. }
  eexists. split; [exact Hrun |].
  assert (Hsaved : video_saved path
            {| world := w4;
               log := map EvStep (map reward (rs ++ [r])) ++
                      saved path (annotated_from 0 (rs ++ [r]));
               frames := annotated_from 0 (rs ++ [r]);
               state := s'; info := i'; done := dn; truncated := tr;
               total_reward := total_of 0 (map reward (rs ++ [r]));
               out := true |}).
  { unfold video_saved. cbn [log]. apply saved_last. }
  destruct (saved_tape _ _ _ _ _ Hrun Hsaved) as (_ & _ & Htape).
  cbn [log frames world] in *.
  rewrite step_rewards_app, step_rewards_steps, step_rewards_saved.
  rewrite Htape, handed_video.
  rewrite app_nil_r, annotated_from_length, !length_map, length_app.
  repeat split; try (cbn; lia). exact Hsaved.
Qed.

(** C1, as the code has it.  If the [K]-th call of [env.step] raises an
    [Exception] (after [K - 1] passes that went through, an image rendered in
    every pass), with an encoder that accepts every call,
    [create_episode_video] returns normally with exactly [K] frames
    collected: the frame of the [K]-th pass is collected before its step is
    taken.  The encoder has received exactly these calls: the writer opened,
    one [write] for each of the [K] frames in order, and [release]; the video
    is reported as saved and the exception as a warning. *)
Theorem early_abort_salvage
    (w0 : W) s0 d0 w1 rs w2 s d r e w3 path fuel :
  encoder_accepts (W := W) ->
  starts w0 s0 d0 w1 ->
  plays w1 s0 d0 rs w2 s d ->
  last_pass w2 s d r (Raise e) w3 ->
  catchable e = true ->
  (S (length rs) <= fuel)%nat ->
  exists m,
    create_episode_video (H := taped) fuel path (unplayed w0) =
      Some (Return tt, m) /\
    length (step_rewards (log m)) = length rs /\
    length (frames m) = S (length rs) /\
    tape (world m) = video path (frames m) /\
    handed (tape (world m)) = frames m /\
    video_saved path m /\
    EvPrint ("Warning: Error during episode recording: " +:+ message e)
      ∈ log m.
Proof.
  intros Henc Hstart Hplays Hlast He Hfuel.
  destruct (episode_salvaged (H := taped) (unplayed w0) s0 d0 (unplayed w1)
              rs (unplayed w2) s d r e (unplayed w3) path fuel)
    as [w4 Hrun].
  { apply taped_accepts, Henc. }
  { apply taped_starts, Hstart. }
  { apply taped_plays, Hplays. }
  { apply taped_last_pass, Hlast. }
  { exact He. }
  { lia. }
  eexists. split; [exact Hrun |].
  assert (Hsaved : video_saved path
            {| world := w4;
               log := map EvStep (map reward rs) ++
                      EvPrint ("Warning: Error during episode recording: "
                               +:+ message e) ::
                      saved path (annotated_from 0 (rs ++ [r]));
               frames := annotated_from 0 (rs ++ [r]);
               state := s; info := Some d; done := false; truncated := false;
               total_reward := total_of 0 (map reward rs);
               out := true |}).
  { unfold video_saved. cbn [log]. rewrite cons_middle, app_assoc.
    apply saved_last. }
  destruct (saved_tape _ _ _ _ _ Hrun Hsaved) as (_ & _ & Htape).
  cbn [log frames world] in *.
  rewrite step_rewards_app, step_rewards_steps.
  change (step_rewards (EvPrint ?l :: ?t)) with (step_rewards t).
  rewrite step_rewards_saved.
  rewrite Htape, handed_video.
  rewrite app_nil_r, annotated_from_length, !length_map, length_app.
  repeat split; try (cbn; lia); [exact Hsaved |].
  apply elem_of_app. right. apply elem_of_cons. left. reflexivity.
Qed.

(** *** The call returns unless its loop runs on *)

Lemma write_all_total fs (m : Machine W) : is_Some (write_all fs m).
Proof.
  revert m. induction fs as [| f fs IH]; intros m; cbn; [eauto |].
  unfold bind, modify, call.
  destruct (writer_write f (world (emit (EvWrite f) m))) as [[[] | e] w1];
    [apply IH | eauto].
Qed.

Lemma release_total (m : Machine W) : is_Some (release m).
Proof.
  unfold release, bind, modify, call.
  destruct (writer_release (world (emit EvRelease m))) as [r w1]. eauto.
Qed.

Lemma save_video_total path (m : Machine W) : is_Some (save_video path m).
Proof.
  unfold save_video. unfold bind at 1, gets at 1.
  destruct (frames m) as [| f0 fs]; [eexists; reflexivity |].
  unfold bind at 1, modify at 1. unfold bind at 1, call at 1.
  match goal with |- context [writer_open ?p ?c ?fps ?sz ?w] =>
    destruct (writer_open p c fps sz w) as [[[] | e] w1] end; [| eauto].
  unfold bind at 1, modify at 1. unfold bind at 1.
  match goal with |- context [write_all ?l ?m0] =>
    destruct (write_all_total l m0) as [[[[] | e] m1] ->] end; [| eauto].
  unfold bind at 1.
  destruct (release_total m1) as [[[[] | e] m2] ->]; [| eauto].
  eexists; reflexivity.
Qed.

Lemma on_failure_total e (m : Machine W) : is_Some (on_failure e m).
Proof.
  unfold on_failure, bind, print, modify, gets.
  destruct (out _); [apply release_total | eauto].
Qed.

Lemma returns_unless_loop_runs_on fuel path (w : W) :
  create_episode_video fuel path w = None ->
  exists w' s i, rollout fuel (entered w' s i) = None.
Proof.
  unfold create_episode_video, try_except.
  destruct (record_episode_cases fuel path w)
    as [(e & w' & ->) | (s & i & w' & ->)].
  - destruct (catchable e); [| discriminate].
    destruct (on_failure_total e (set_world w' (fresh w))) as [x ->].
    discriminate.
  - unfold bind at 1.
    destruct (rollout fuel (entered w' s i)) as [[[[] | e] m1] |] eqn:Hloop;
      [| | eauto].
    + destruct (save_video_total path m1) as [[[[] | e] m2] ->];
        [discriminate |].
      destruct (catchable e); [| discriminate].
      destruct (on_failure_total e m2) as [x ->]. discriminate.
    + destruct (catchable e); [| discriminate].
      destruct (on_failure_total e m1) as [x ->]. discriminate.
Qed.

(** *** A missing [info] *)

(** With an image rendered, the overlay reads [info] before the fallback of
    line 91 is reached: the pass raises and only the render has happened. *)
Lemma iteration_without_info (m : Machine W) img w1 :
  info m = None ->
  env_render (world m) = (Return (Some img), w1) ->
  iteration m =
    Some (Raise (TypeError "'NoneType' object is not subscriptable"),
          set_world w1 m).
Proof.
  intros Hinfo Hrender. rewrite iteration_parts.
  unfold bind at 1. unfold render_and_collect, bind at 1, call at 1.
  rewrite Hrender.
  rewrite (annotate_without_info (set_world w1 m) img Hinfo). reflexivity.
Qed.

(** With nothing rendered, the fallback is reached: [info] is taken from
    [env.unwrapped._get_info()] and the pass goes on with it. *)
Lemma iteration_recovers_unrendered (m : Machine W) w1 i w2 :
  info m = None ->
  env_render (world m) = (Return None, w1) ->
  env_get_info w1 = (Return i, w2) ->
  iteration m =
    (st <- gets state ;;
     action <- call (agent_select_action st i false) ;;
     step_onwards action) (set_info i (set_world w2 m)).
Proof.
  intros Hinfo Hrender Hget. rewrite iteration_parts.
  unfold bind at 1. unfold render_and_collect, bind at 1, call at 1.
  rewrite Hrender. cbn [ret].
  unfold recover_and_step. unfold bind at 1, gets at 1. cbn [info set_world].
  rewrite Hinfo. unfold bind at 1. unfold bind at 1, call at 1.
  cbn [world set_world]. rewrite Hget. reflexivity.
Qed.

(** C4.  When [create_episode_video] is left, in whatever way, the running
    total is the sum, from the left and starting at 0, of the rewards that the
    [env.step] calls of the run returned; for the rewards 1.0, -0.5 and 2.25
    it is 2.75. *)
Theorem reward_accumulation fuel path (w : W) r m :
  create_episode_video fuel path w = Some (r, m) ->
  total_reward m = total_of 0 (step_rewards (log m)) /\
  (step_rewards (log m) = [1.0; -0.5; 2.25]%float ->
   total_reward m = 2.75%float).
Proof.
  intros Hrun. pose proof (tallied_at_exit _ _ _ _ _ Hrun) as Htotal.
  split; [exact Htotal |].
  intros Hrewards. rewrite Htotal, Hrewards. reflexivity.
Qed.

(** C5.  No run calls [cv2.VideoWriter] more than once, so it creates one
    video file or none.  If [env.render()] returns [None] whenever it is
    called, then however the run ends no frame is collected, the encoder is
    never called and [out] stays unbound; every line printed is a warning;
    the call returns normally unless an exception that is no [Exception]
    passes through; and when it returns, the last line printed is the warning
    that no frames were captured (or, if [import cv2] or [env.reset()]
    raised, that the video could not be created).  The call fails to return
    only if its loop does not end. *)
Theorem zero_frame_case fuel path (w : W) :
  (create_episode_video fuel path w = None ->
   exists w' s i, rollout fuel (entered w' s i) = None) /\
  forall r m,
    create_episode_video fuel path w = Some (r, m) ->
    (opens (log m) <= 1)%nat /\
    ((forall w : W, (env_render w).1 = Return None) ->
     frames m = [] /\
     encoder_events (log m) = [] /\
     out m = false /\
     (forall line, EvPrint line ∈ log m ->
        exists rest, line = "Warning: " +:+ rest) /\
     (r = Return tt \/ exists e, r = Raise e /\ catchable e = false) /\
     (r = Return tt ->
      last (log m) = Some (EvPrint "Warning: No frames were captured") \/
      exists e,
        last (log m) =
          Some (EvPrint ("Warning: Failed to create video: " +:+ message e)))).
Proof.
  split; [apply returns_unless_loop_runs_on |].
  intros r m Hrun. split; [eapply at_most_one_open, Hrun |].
  intros Hnever.
  destruct (never_renders_blank Hnever _ _ _ _ _ Hrun)
    as ((Hfs & [Hlog Hout] & Hwarned) & Hr & Hlast).
  repeat split; assumption.
Qed.

(** C7, as the code has it.  Take any run in which the video writer was
    opened (the constructor returned).  If [create_episode_video] returns --
    after the loop ended or was aborted, also when a [write] or the first
    [release] raised an [Exception] -- the last call the encoder has received
    is an [out.release()] that returned.  If an [Exception] leaves the
    function, it was raised by [out.release()], the last call.  If an
    exception that is no [Exception] leaves it, the call that raised it is
    the last one: an [out.release()], or an [out.write] after which the
    writer is never released, there being no [finally]. *)
Theorem writer_released fuel path (w : W) r m p c fps size :
  create_episode_video (H := taped) fuel path (unplayed w) = Some (r, m) ->
  (Opened p c fps size, true) ∈ tape (world m) ->
  (r = Return tt -> last (tape (world m)) = Some (Released, true)) /\
  (forall e, r = Raise e -> catchable e = true ->
     last (tape (world m)) = Some (Released, false)) /\
  (forall e, r = Raise e -> catchable e = false ->
     last (tape (world m)) = Some (Released, false) \/
     exists f,
       last (tape (world m)) = Some (Wrote f, false) /\
       forall b, (Released, b) ∉ tape (world m)).
Proof.
  intros Hrun%encoder_tape_account Hin.
  destruct Hrun as [r _ _ _ | e _ _ _ | e _ _ _ | k f b r _ Hk Hb
                   | e k f _ Hk He | b r _ _ Hb | e _ _ He | _ _].
  - inversion Hin.
  - apply list_elem_of_singleton in Hin. discriminate.
  - apply list_elem_of_singleton in Hin. discriminate.
  - assert (Hlast : forall t, last (opening path (frames m) :: t ++
                      [(Wrote f, false); (Released, b)]) =
                    Some (Released, b)).
    { intros t. rewrite app_comm_cons.
      change [(Wrote f, false); (Released, b)]
        with ([(Wrote f, false)] ++ [(Released, b)]).
      rewrite app_assoc. apply last_snoc. }
    rewrite Hlast. destruct b; cbn in Hb.
    + subst r. repeat split; [discriminate | discriminate].
    + destruct Hb as [e ->]. split; [discriminate |]. split; auto.
  - rewrite app_comm_cons, last_snoc.
    split; [discriminate |]. split; [congruence |].
    intros e0 _ _. right. exists f. split; [reflexivity |].
    intros b Hrel. apply elem_of_cons in Hrel as [[=] | Hrel].
    apply elem_of_app in Hrel as [Hrel | Hrel].
    + revert Hrel. apply wrote_not_release.
    + apply list_elem_of_singleton in Hrel. discriminate.
  - assert (Hlast : forall t, last (opening path (frames m) :: t ++
                      [(Released, false); (Released, b)]) =
                    Some (Released, b)).
    { intros t. rewrite app_comm_cons.
      change [(Released, false); (Released, b)]
        with ([(Released, false)] ++ [(Released, b)]).
      rewrite app_assoc. apply last_snoc. }
    rewrite Hlast. destruct b; cbn in Hb.
    + subst r. repeat split; [discriminate | discriminate].
    + destruct Hb as [e ->]. split; [discriminate |]. split; auto.
  - rewrite app_comm_cons, last_snoc.
    split; [discriminate |]. split; [congruence | auto].
  - unfold video. rewrite app_comm_cons, last_snoc.
    repeat split; discriminate.
Qed.

(** C8, as the code has it.  Take any run that has collected at least one
    frame.  Unless an exception that is no [Exception] left the loop (and
    then the encoder was never called), [cv2.VideoWriter] was called, once
    and before any other call of the encoder, for [save_path], at 5 frames
    per second, with the width and height of the first collected frame.  The
    frames handed to [out.write] are the collected frames themselves, in
    order and from the first on, whatever their size: none is checked,
    rejected or resized.  All of them are handed over unless the constructor
    or a [write] raised; when no call of the encoder raised the calls are
    those of a whole video, the function returns and reports the video as
    saved; and whenever the video is reported as saved the calls are those
    of a whole video. *)
Theorem resolution_of_first_frame fuel path (w : W) r m first rest :
  create_episode_video (H := taped) fuel path (unplayed w) = Some (r, m) ->
  frames m = first :: rest ->
  (tape (world m) = [] /\ exists e, r = Raise e /\ catchable e = false) \/
  exists b calls,
    tape (world m) =
      (Opened path fourcc_mp4v 5.0%float (width first, height first), b)
        :: calls /\
    (forall c, c ∈ calls -> is_opening c = false) /\
    (b = false -> calls = []) /\
    handed calls `prefix_of` frames m /\
    ((forall c, c ∈ tape (world m) -> is_release c = false -> c.2 = true) ->
     handed calls = frames m) /\
    (Forall (fun c => c.2 = true) (tape (world m)) ->
     tape (world m) = video path (frames m) /\
     r = Return tt /\ video_saved path m) /\
    (video_saved path m -> tape (world m) = video path (frames m)).
Proof.
  intros Hrun Hframes.
  apply encoder_tape_account in Hrun.
  assert (Hres : resolution (frames m) = (width first, height first))
    by (rewrite Hframes; reflexivity).
  assert (Hprefix : forall k f,
            frames m !! k = Some f ->
            take k (frames m) ++ [f] `prefix_of` frames m).
  { intros k f Hk. rewrite <- (take_S_r _ _ _ Hk). apply prefix_take. }
  destruct Hrun as [r Hns Hret Hraise | e Hns _ _ | e Hns _ _
                   | k f b r Hns Hk Hb | e k f Hns Hk He | b r Hns _ Hb
                   | e Hns _ He | Hs _].
  - left. split; [reflexivity |]. destruct r as [[] | e].
    + rewrite Hret in Hframes by reflexivity. discriminate.
    + exists e. auto.
  - right. exists false, []. rewrite Hres.
    split; [reflexivity |]. split; [intros c Hc; inversion Hc |].
    split; [reflexivity |]. split; [apply prefix_nil |].
    split; [| split].
    + intros Hall. specialize (Hall _ (list_elem_of_here _ _) eq_refl).
      discriminate.
    + intros Hall. apply Forall_cons in Hall as [[=] _].
    + intros Hs. contradiction.
  - right. exists false, []. rewrite Hres.
    split; [reflexivity |]. split; [intros c Hc; inversion Hc |].
    split; [reflexivity |]. split; [apply prefix_nil |].
    split; [| split].
    + intros Hall. specialize (Hall _ (list_elem_of_here _ _) eq_refl).
      discriminate.
    + intros Hall. apply Forall_cons in Hall as [[=] _].
    + intros Hs. contradiction.
  - right. eexists true, _. unfold opening. rewrite Hres.
    split; [reflexivity |]. split; [| split; [discriminate |]].
    { intros c0 [Hc | Hc]%elem_of_app; [eapply wrote_not_opening, Hc |].
      apply elem_of_cons in Hc as [-> | Hc]; [reflexivity |].
      apply list_elem_of_singleton in Hc as ->. reflexivity. }
    rewrite handed_app, handed_wrote. cbn.
    split; [apply Hprefix, Hk |]. split; [| split].
    + intros Hall.
      assert (Hin : (Wrote f, false) ∈
                (Opened path fourcc_mp4v 5 (width first, height first), true)
                  :: wrote (take k (frames m)) ++
                     [(Wrote f, false); (Released, b)]).
      { apply list_elem_of_further, elem_of_app. right.
        apply list_elem_of_here. }
      specialize (Hall _ Hin eq_refl). discriminate.
    + intros Hall. apply Forall_cons in Hall as [_ Hall].
      apply Forall_app in Hall as [_ Hall].
      apply Forall_cons in Hall as [[=] _].
    + intros Hs. contradiction.
  - right. eexists true, _. unfold opening. rewrite Hres.
    split; [reflexivity |]. split; [| split; [discriminate |]].
    { intros c0 [Hc | Hc]%elem_of_app; [eapply wrote_not_opening, Hc |].
      apply list_elem_of_singleton in Hc as ->. reflexivity. }
    rewrite handed_app, handed_wrote. cbn.
    split; [apply Hprefix, Hk |]. split; [| split].
    + intros Hall.
      assert (Hin : (Wrote f, false) ∈
                (Opened path fourcc_mp4v 5 (width first, height first), true)
                  :: wrote (take k (frames m)) ++ [(Wrote f, false)]).
      { apply list_elem_of_further, elem_of_app. right.
        apply list_elem_of_here. }
      specialize (Hall _ Hin eq_refl). discriminate.
    + intros Hall. apply Forall_cons in Hall as [_ Hall].
      apply Forall_app in Hall as [_ Hall].
      apply Forall_cons in Hall as [[=] _].
    + intros Hs. contradiction.
  - right. eexists true, _. unfold opening. rewrite Hres.
    split; [reflexivity |]. split; [| split; [discriminate |]].
    { intros c0 [Hc | Hc]%elem_of_app; [eapply wrote_not_opening, Hc |].
      apply elem_of_cons in Hc as [-> | Hc]; [reflexivity |].
      apply list_elem_of_singleton in Hc as ->. reflexivity. }
    rewrite handed_app, handed_wrote. cbn. rewrite app_nil_r.
    split; [reflexivity |]. split; [auto |]. split.
    + intros Hall. apply Forall_cons in Hall as [_ Hall].
      apply Forall_app in Hall as [_ Hall].
      apply Forall_cons in Hall as [[=] _].
    + intros Hs. contradiction.
  - right. eexists true, _. unfold opening. rewrite Hres.
    split; [reflexivity |]. split; [| split; [discriminate |]].
    { intros c0 [Hc | Hc]%elem_of_app; [eapply wrote_not_opening, Hc |].
      apply list_elem_of_singleton in Hc as ->. reflexivity. }
    rewrite handed_app, handed_wrote. cbn. rewrite app_nil_r.
    split; [reflexivity |]. split; [auto |]. split.
    + intros Hall. apply Forall_cons in Hall as [_ Hall].
      apply Forall_app in Hall as [_ Hall].
      apply Forall_cons in Hall as [[=] _].
    + intros Hs. contradiction.
  - right. eexists true, _. unfold video, opening. rewrite Hres.
    split; [reflexivity |]. split; [| split; [discriminate |]].
    { intros c0 [Hc | Hc]%elem_of_app; [eapply wrote_not_opening, Hc |].
      apply list_elem_of_singleton in Hc as ->. reflexivity. }
    rewrite handed_app, handed_wrote. cbn. rewrite app_nil_r.
    split; [reflexivity |]. split; [auto |]. split; [auto | auto].
Qed.

End Claims.

Section Overlay.
Context {W : Type} `{Collaborators W}.


End Overlay.

Import Stub.

(** *** The runs of the stub worlds *)

Lemma three_steps_run :
  create_episode_video 3 "episode.mp4" three_steps =
    Some (Return tt, three_steps_end).
Proof. vm_compute. reflexivity. Qed.

Lemma second_step_raises_run :
  create_episode_video 2 "episode.mp4" second_step_raises =
    Some (Return tt, second_step_raises_end).
Proof. vm_compute. reflexivity. Qed.

Lemma no_info_at_reset_run :
  create_episode_video 2 "episode.mp4" no_info_at_reset =
    Some (Return tt, no_info_at_reset_end).
Proof. vm_compute. reflexivity. Qed.

Lemma two_blind_steps_run :
  create_episode_video (H := blind) 2 "episode.mp4" two_blind_steps =
    Some (Return tt, two_blind_steps_end).
Proof. vm_compute. reflexivity. Qed.

Lemma taped_second_step_raises_run :
  create_episode_video (H := taped_stub) 2 "episode.mp4"
    (unplayed second_step_raises) =
    Some (Return tt, taped_second_step_raises_end).
Proof. vm_compute. reflexivity. Qed.

Lemma taped_mixed_sizes_run :
  create_episode_video (H := taped_stub) 2 "episode.mp4"
    (unplayed mixed_sizes) = Some (Return tt, taped_mixed_sizes_end).
Proof. vm_compute. reflexivity. Qed.

Lemma taped_write_fails_run :
  create_episode_video (H := taped_faulty) 3 "episode.mp4"
    (unplayed second_write_fails) = Some (Return tt, taped_write_fails_end).
Proof. vm_compute. reflexivity. Qed.

Lemma taped_write_interrupted_run :
  create_episode_video (H := taped_interrupted) 3 "episode.mp4"
    (unplayed second_write_fails) =
    Some (Raise (PyExc false "KeyboardInterrupt"),
          taped_write_interrupted_end).
Proof. vm_compute. reflexivity. Qed.

Ltac play_pass :=
  unfold last_pass; eexists _, _, _; repeat split; reflexivity.

Lemma stub_accepts : encoder_accepts (H := stub).
Proof. repeat split. Qed.

Lemma frame_count_witness :
  exists m,
    create_episode_video (H := taped_stub) 3 "episode.mp4"
      (unplayed three_steps) = Some (Return tt, m) /\
    length (step_rewards (log m)) = 3%nat /\
    length (frames m) = 3%nat /\
    tape (world m) = video "episode.mp4" (frames m) /\
    handed (tape (world m)) = frames m /\
    video_saved "episode.mp4" m.
Proof.
  eapply (frame_count_invariant (H := stub) three_steps _ _ _
            [first_pass; later_pass (-0.5)] _ _ _ (later_pass 2.25)).
  - exact stub_accepts.
  - eexists. split; reflexivity.
  - eapply plays_cons; [play_pass |].
    eapply plays_cons; [play_pass |]. apply plays_nil.
  - play_pass.
  - reflexivity.
  - cbn. lia.
Defined.

Lemma early_abort_witness :
  exists m,
    create_episode_video (H := taped_stub) 2 "episode.mp4"
      (unplayed second_step_raises) = Some (Return tt, m) /\
    length (step_rewards (log m)) = 1%nat /\
    length (frames m) = 2%nat /\
    tape (world m) = video "episode.mp4" (frames m) /\
    handed (tape (world m)) = frames m /\
    video_saved "episode.mp4" m /\
    EvPrint "Warning: Error during episode recording: boom" ∈ log m.
Proof.
  eapply (early_abort_salvage (H := stub) second_step_raises _ _ _
            [first_pass] _ _ _ (later_pass 0) (PyExc true "boom")).
  - exact stub_accepts.
  - eexists. split; reflexivity.
  - eapply plays_cons; [play_pass |]. apply plays_nil.
  - play_pass.
  - reflexivity.
  - cbn. lia.
Defined.

(** C1 as stated fails: with [K = 2] (the second [env.step] call is the
    one that raises, an image rendered in every pass) the function collects
    [2] frames and hands both to the encoder, not [K - 1 = 1]. *)
Lemma early_abort_counterexample :
  steps second_step_raises !! 1%nat = Some (Raise (PyExc true "boom")) /\
  create_episode_video (H := taped_stub) 2 "episode.mp4"
    (unplayed second_step_raises) =
    Some (Return tt, taped_second_step_raises_end) /\
  steps (beneath (world taped_second_step_raises_end)) = [] /\
  length (frames taped_second_step_raises_end) = 2%nat /\
  length (handed (tape (world taped_second_step_raises_end))) = 2%nat /\
  length (frames taped_second_step_raises_end) <> (2 - 1)%nat.
Proof.
  split; [reflexivity |]. split; [exact taped_second_step_raises_run |].
  repeat split. cbn. lia.
Qed.

Lemma reward_accumulation_witness :
  step_rewards (log three_steps_end) = [1.0; -0.5; 2.25]%float /\
  total_reward three_steps_end = 2.75%float.
Proof.
  split; [reflexivity |].
  apply (reward_accumulation 3 "episode.mp4" three_steps (Return tt)
           three_steps_end three_steps_run).
  reflexivity.
Defined.

Lemma zero_frame_witness :
  frames two_blind_steps_end = [] /\
  encoder_events (log two_blind_steps_end) = [] /\
  last (log two_blind_steps_end) =
    Some (EvPrint "Warning: No frames were captured").
Proof.
  destruct (proj2 (zero_frame_case (H := blind) 2 "episode.mp4"
                     two_blind_steps)
              _ _ two_blind_steps_run) as [_ Hblank].
  destruct Hblank as (Hfs & Hlog & _); [intros w; reflexivity |].
  split; [exact Hfs |]. split; [exact Hlog | reflexivity].
Defined.

Lemma writer_released_witness :
  (Opened "episode.mp4" fourcc_mp4v 5.0%float (3%nat, 2%nat), true)
    ∈ tape (world taped_write_fails_end) /\
  EvPrint "Warning: Failed to create video: encoder failure"
    ∈ log taped_write_fails_end /\
  last (tape (world taped_write_fails_end)) = Some (Released, true).
Proof.
  assert (Hopened :
            (Opened "episode.mp4" fourcc_mp4v 5.0%float (3%nat, 2%nat), true)
              ∈ tape (world taped_write_fails_end))
    by apply list_elem_of_here.
  split; [exact Hopened |]. split.
  - apply list_elem_of_In. cbn. tauto.
  - apply (writer_released (H := faulty_encoder) 3 "episode.mp4"
             second_write_fails (Return tt) taped_write_fails_end
             _ _ _ _ taped_write_fails_run Hopened).
    reflexivity.
Defined.

(** C7 as stated fails: when the second [out.write] is interrupted from the
    keyboard, the function is left by the [KeyboardInterrupt] with the
    writer opened and no [out.release()] ever called. *)
Lemma writer_left_open_counterexample :
  create_episode_video (H := taped_interrupted) 3 "episode.mp4"
    (unplayed second_write_fails) =
    Some (Raise (PyExc false "KeyboardInterrupt"),
          taped_write_interrupted_end) /\
  head (tape (world taped_write_interrupted_end)) =
    Some (Opened "episode.mp4" fourcc_mp4v 5.0%float (3%nat, 2%nat), true) /\
  out taped_write_interrupted_end = true /\
  length (handed (tape (world taped_write_interrupted_end))) = 2%nat /\
  forall b, (Released, b) ∉ tape (world taped_write_interrupted_end).
Proof.
  split; [exact taped_write_interrupted_run |].
  split; [reflexivity |]. split; [reflexivity |]. split; [reflexivity |].
  intros b Hin. apply list_elem_of_In in Hin. cbn in Hin.
  repeat destruct Hin as [[=] | Hin]. exact Hin.
Qed.

Lemma resolution_witness :
  exists first later,
    frames taped_mixed_sizes_end = [first; later] /\
    (height first, width first) = (1%nat, 1%nat) /\
    (height later, width later) = (2%nat, 2%nat) /\
    tape (world taped_mixed_sizes_end) =
      [(Opened "episode.mp4" fourcc_mp4v 5.0%float (1%nat, 1%nat), true);
       (Wrote first, true); (Wrote later, true); (Released, true)].
Proof.
  destruct (frames taped_mixed_sizes_end) as [| first rest] eqn:Hframes;
    [discriminate |].
  destruct (resolution_of_first_frame (H := stub) 2 "episode.mp4" mixed_sizes
              (Return tt) taped_mixed_sizes_end first rest
              taped_mixed_sizes_run Hframes)
    as [[_ (e & [=] & _)] | (b & calls & _ & _ & _ & _ & _ & _ & Hsaved)].
  specialize (Hsaved eq_refl). rewrite Hsaved, Hframes.
  injection Hframes as <- <-.
  eexists _, _. repeat split.
Defined.

(** C8 as stated fails: a frame of another size than the first is neither
    rejected nor normalised.  With a 1 x 1 frame followed by a 2 x 2 frame
    the writer is opened for 1 x 1, the 2 x 2 frame is handed to it as it was
    collected, and the video is reported as saved. *)
Lemma resolution_counterexample :
  create_episode_video (H := taped_stub) 2 "episode.mp4"
    (unplayed mixed_sizes) = Some (Return tt, taped_mixed_sizes_end) /\
  head (tape (world taped_mixed_sizes_end)) =
    Some (Opened "episode.mp4" fourcc_mp4v 5.0%float (1%nat, 1%nat), true) /\
  video_saved "episode.mp4" taped_mixed_sizes_end /\
  exists f,
    frames taped_mixed_sizes_end !! 1%nat = Some f /\
    (Wrote f, true) ∈ tape (world taped_mixed_sizes_end) /\
    (width f, height f) = (2%nat, 2%nat) /\
    (width f, height f) <> (1%nat, 1%nat).
Proof.
  split; [exact taped_mixed_sizes_run |].
  split; [reflexivity |]. split; [reflexivity |].
  eexists. split; [reflexivity |].
  split; [apply list_elem_of_In; cbn; tauto |].
  split; [reflexivity | discriminate].
Qed.

(** C2 fails on the code.  With [info] returned as [None] by [env.reset()]
    and an image rendered in the first pass, the overlay subscripts [info]
    before the fallback is reached: the pass raises [TypeError], the loop is
    left with no frame, [env.unwrapped._get_info()] is never called and no
    step is taken. *)
Theorem info_recovery_skipped :
  create_episode_video 2 "episode.mp4" no_info_at_reset =
    Some (Return tt, no_info_at_reset_end) /\
  log no_info_at_reset_end =
    [EvPrint ("Warning: Error during episode recording: " +:+
              "'NoneType' object is not subscriptable");
     EvPrint "Warning: No frames were captured"] /\
  frames no_info_at_reset_end = [] /\
  get_info_calls (world no_info_at_reset_end) = 0%nat /\
  steps (world no_info_at_reset_end) = steps no_info_at_reset.
Proof.
  split; [exact no_info_at_reset_run |].
  repeat split.
Qed.


End RecorderClaims.

(** * The position heatmap *)

Module HeatmapFacts.
Import Heatmap.

(** *** The first cell equal to 4 *)

Lemma row_hits_head x y0 row :
  match row_hits x y0 row with
  | [] => forall j, row !! j <> Some 4
  | (x', y') :: _ =>
      x' = x /\
      exists j, y' = (y0 + j)%nat /\ row !! j = Some 4 /\
                forall j', (j' < j)%nat -> row !! j' <> Some 4
  end.
Proof.
  revert y0. induction row as [| c row IH]; intros y0; cbn.
  - intros j. rewrite lookup_nil. discriminate.
  - destruct (Z.eqb_spec c 4) as [-> | Hc].
    + split; [reflexivity |]. exists 0%nat.
      repeat split; [lia | intros j' Hj'; lia].
    + specialize (IH (S y0)).
      destruct (row_hits x (S y0) row) as [| [x' y'] rest].
      * intros [| j]; cbn; [congruence | apply IH].
      * destruct IH as (-> & j & -> & Hj & Hbefore).
        split; [reflexivity |]. exists (S j).
        repeat split; [lia | exact Hj |].
        intros [| j'] Hj'; cbn; [congruence | apply Hbefore; lia].
Qed.

Lemma hits_from_head x0 grid :
  match hits_from x0 grid with
  | [] => forall i row, grid !! i = Some row -> forall j, row !! j <> Some 4
  | (x', y') :: _ =>
      exists i row,
        x' = (x0 + i)%nat /\ grid !! i = Some row /\ row !! y' = Some 4 /\
        (forall j', (j' < y')%nat -> row !! j' <> Some 4) /\
        (forall i' row', (i' < i)%nat -> grid !! i' = Some row' ->
           forall j, row' !! j <> Some 4)
  end.
Proof.
  revert x0. induction grid as [| row grid IH]; intros x0; cbn.
  - intros i row. rewrite lookup_nil. discriminate.
  - pose proof (row_hits_head x0 0 row) as Hrow.
    destruct (row_hits x0 0 row) as [| [x' y'] rest]; cbn.
    + specialize (IH (S x0)).
      destruct (hits_from (S x0) grid) as [| [x' y'] rest].
      * intros [| i] row'; cbn; [intros [= <-]; exact Hrow | apply IH].
      * destruct IH as (i & row' & -> & Hi & Hy & Hcols & Hrows).
        exists (S i), row'. repeat split; [lia | exact Hi | exact Hy | exact Hcols |].
        intros [| i'] row'' Hlt; cbn;
          [intros [= <-]; exact Hrow | apply Hrows; lia].
    + destruct Hrow as (-> & j & -> & Hj & Hbefore).
      exists 0%nat, row. repeat split; [lia | exact Hj | exact Hbefore |].
      intros i' row' Hlt. lia.
Qed.

Lemma agent_position_hits state :
  agent_position state = head (hits_from 0 state).
Proof.
  unfold agent_position, np_where_eq4; cbn.
  destruct (hits_from 0 state) as [| [x y] rest]; reflexivity.
Qed.

(** The position recorded for a state is its first cell equal to 4 in
    row-major order; a state without such a cell gives none. *)
Lemma agent_position_first state :
  match agent_position state with
  | Some (x, y) =>
      cell state x y = Some 4 /\
      forall x' y', before (x', y') (x, y) -> cell state x' y' <> Some 4
  | None => forall x y, cell state x y <> Some 4
  end.
Proof.
  rewrite agent_position_hits. pose proof (hits_from_head 0 state) as Hhits.
  destruct (hits_from 0 state) as [| [x y] rest]; cbn.
  - intros x y. unfold cell. destruct (state !! x) as [row |] eqn:Hrow; cbn;
      [eapply Hhits; exact Hrow | discriminate].
  - destruct Hhits as (i & row & -> & Hi & Hy & Hcols & Hrows). cbn.
    split; [unfold cell; rewrite Hi; exact Hy |].
    intros x' y' [Hlt | [Heq Hlt]]; cbn in *; unfold cell.
    + destruct (state !! x') as [row' |] eqn:Hrow'; cbn; [| discriminate].
      eapply Hrows; [exact Hlt | exact Hrow'].
    + subst x'. rewrite Hi. cbn. apply Hcols, Hlt.
Qed.

(** *** One position per state at most *)

Lemma collect_in_state positions states :
  fold_left
    (fun positions state =>
       match agent_position state with
       | Some p => positions ++ [p]
       | None => positions
       end) states positions =
  positions ++ omap agent_position states.
Proof.
  revert positions. induction states as [| state states IH]; intros positions;
    cbn; [rewrite app_nil_r; reflexivity |].
  rewrite IH. destruct (agent_position state); [| reflexivity].
  rewrite <- app_assoc. reflexivity.
Qed.

Lemma collect_positions_omap episodes :
  collect_positions episodes =
    omap agent_position (concat (map states episodes)).
Proof.
  unfold collect_positions.
  assert (Hgen : forall positions,
            fold_left
              (fun positions episode =>
                 fold_left
                   (fun positions state =>
                      match agent_position state with
                      | Some p => positions ++ [p]
                      | None => positions
                      end) (states episode) positions) episodes positions =
            positions ++ omap agent_position (concat (map states episodes))).
  { induction episodes as [| ep episodes IH]; intros positions; cbn;
      [rewrite app_nil_r; reflexivity |].
    rewrite IH, collect_in_state, omap_app, app_assoc. reflexivity. }
  apply (Hgen []).
Qed.

Lemma omap_length_le {A B} (f : A -> option B) l :
  (length (omap f l) <= length l)%nat.
Proof.
  induction l as [| a l IH]; cbn; [lia |]. destruct (f a); cbn; lia.
Qed.


(** *** The count grid and its normalisation *)

Lemma increment_square n counts p :
  square n counts -> within n p ->
  exists counts', increment counts p = Return counts' /\ square n counts'.
Proof.
  intros [Hrows Hcols] [Hx Hy]. destruct p as [x y]; cbn in *.
  destruct (lookup_lt_is_Some_2 counts x) as [row Hrow]; [lia |].
  assert (Hlen : length row = n)
    by exact (Forall_lookup_1 _ _ _ _ Hcols Hrow).
  destruct (lookup_lt_is_Some_2 row y) as [c Hc]; [lia |].
  rewrite Hrow, Hc. eexists. split; [reflexivity |].
  split; [rewrite length_insert; exact Hrows |].
  apply Forall_insert; [exact Hcols | rewrite length_insert; exact Hlen].
Qed.

Lemma count_positions_square n positions counts :
  square n counts -> Forall (within n) positions ->
  exists counts',
    count_positions positions counts = Return counts' /\ square n counts'.
Proof.
  revert counts. induction positions as [| p positions IH]; intros counts Hsq Hin;
    cbn; [eauto |].
  inversion Hin as [| ? ? Hp Hrest]; subst.
  destruct (increment_square n counts p Hsq Hp) as (counts1 & -> & Hsq1).
  apply IH; assumption.
Qed.

Lemma fold_max_bound cs c0 :
  (c0 <= fold_left Nat.max cs c0)%nat /\
  Forall (fun c => (c <= fold_left Nat.max cs c0)%nat) cs.
Proof.
  revert c0. induction cs as [| c cs IH]; intros c0; cbn; [auto |].
  destruct (IH (Nat.max c0 c)) as [Hle Hall].
  split; [lia |]. constructor; [lia | exact Hall].
Qed.

Lemma np_max_bound counts m :
  np_max counts = Return m ->
  forall row c, row ∈ counts -> c ∈ row -> (c <= m)%nat.
Proof.
  unfold np_max. intros Hmax row c Hrow Hc.
  assert (Hin : c ∈ concat counts).
  { apply list_elem_of_In, in_concat. exists row.
    split; apply list_elem_of_In; assumption. }
  destruct (concat counts) as [| c0 cs]; [discriminate |].
  injection Hmax as <-. destruct (fold_max_bound cs c0) as [Hle Hall].
  apply elem_of_cons in Hin as [-> | Hin]; [exact Hle |].
  rewrite Forall_forall in Hall. apply Hall, Hin.
Qed.

Lemma np_max_square n counts :
  (0 < n)%nat -> square n counts -> exists m, np_max counts = Return m.
Proof.
  intros Hn [Hrows Hcols]. unfold np_max.
  destruct counts as [| row counts]; [cbn in Hrows; lia |].
  inversion Hcols as [| ? ? Hrow _]; subst.
  destruct row as [| c row]; [cbn in *; lia |]. cbn. eauto.
Qed.

Lemma quotient_range c m :
  (c <= m)%nat -> (0 < m)%nat -> (0 <= quotient c m <= 1)%Q.
Proof.
  intros Hc Hm. unfold quotient, Qle; cbn [Qnum Qden inject_Z].
  assert (Hpos : Z.pos (Pos.of_nat m) = Z.of_nat m).
  { rewrite <- positive_nat_Z, Nat2Pos.id; [reflexivity | lia]. }
  rewrite Hpos. lia.
Qed.

Lemma as_value_zero c : (c <= 0)%nat -> (0 <= as_value c <= 1)%Q.
Proof.
  intros Hc. assert (c = 0%nat) as -> by lia.
  unfold as_value, Qle; cbn. lia.
Qed.

(** What [plot_state_heatmap] hands to [sns.heatmap]. *)
Lemma plot_state_heatmap_cases r h :
  plot_state_heatmap r = Return h ->
  exists zeros counts m,
    np_zeros (default 16 (environment r !! "size")) = Return zeros /\
    count_positions (collect_positions (results r)) zeros = Return counts /\
    np_max counts = Return m /\
    (((0 < m)%nat /\ h = map (map (fun c => quotient c m)) counts) \/
     (m = 0%nat /\ h = map (map as_value) counts)).
Proof.
  unfold plot_state_heatmap.
  destruct (np_zeros _) as [zeros | e] eqn:Hzeros; [| discriminate].
  destruct (count_positions _ zeros) as [counts | e] eqn:Hcounts;
    [| discriminate].
  destruct (np_max counts) as [m | e] eqn:Hmax; [| discriminate].
  destruct (Nat.ltb_spec 0 m) as [Hm | Hm]; intros [= <-];
    exists zeros, counts, m; (do 3 (split; [first [assumption | reflexivity] |])).
  - left. split; [exact Hm | reflexivity].
  - right. split; [lia | reflexivity].
Qed.

Lemma plot_state_heatmap_range r h :
  plot_state_heatmap r = Return h ->
  forall row v, row ∈ h -> v ∈ row -> (0 <= v <= 1)%Q.
Proof.
  intros (zeros & counts & m & _ & _ & Hmax & Hh)%plot_state_heatmap_cases
    row v Hrow Hv.
  pose proof (np_max_bound counts m Hmax) as Hbound.
  destruct Hh as [[Hm ->] | [-> ->]];
    apply list_elem_of_fmap in Hrow as (row0 & -> & Hrow0);
    apply list_elem_of_fmap in Hv as (c & -> & Hc).
  - apply quotient_range; [eapply Hbound; eassumption | exact Hm].
  - apply as_value_zero. eapply Hbound; eassumption.
Qed.

Lemma plot_state_heatmap_returns r :
  0 < default 16 (environment r !! "size") ->
  Forall (within (Z.to_nat (default 16 (environment r !! "size"))))
    (collect_positions (results r)) ->
  exists h, plot_state_heatmap r = Return h.
Proof.
  unfold plot_state_heatmap, np_zeros.
  generalize (default 16 (environment r !! "size")).
  intros grid_size Hsize Hin. destruct (Z.ltb_spec grid_size 0) as [Hneg | _]; [lia |].
  destruct (count_positions_square (Z.to_nat grid_size)
              (collect_positions (results r))
              (replicate (Z.to_nat grid_size)
                 (replicate (Z.to_nat grid_size) 0%nat)))
    as (counts & -> & Hsq); [| exact Hin |].
  { split; [apply length_replicate |].
    apply Forall_replicate, length_replicate. }
  destruct (np_max_square (Z.to_nat grid_size) counts) as [m ->];
    [lia | exact Hsq |].
  destruct (0 <? m)%nat; eauto.
Qed.


(** C9.  For every state grid [plot_state_heatmap] records at most one
    position: that of the first cell equal to 4 in row-major order, and none
    for a grid without such a cell; so there are at most as many positions as
    states.  The count grid is divided by its maximum only when the maximum is
    positive (otherwise it is all zero and left as it is), and every value of
    the array handed to the heatmap lies between 0 and 1.  The array is
    produced whenever the grid size is positive and every position is an
    index of the count grid. *)
Theorem heatmap_first_agent_and_range (r : EvalResults) :
  (forall state,
     match agent_position state with
     | Some (x, y) =>
         cell state x y = Some 4 /\
         forall x' y', before (x', y') (x, y) -> cell state x' y' <> Some 4
     | None => forall x y, cell state x y <> Some 4
     end) /\
  collect_positions (results r) =
    omap agent_position (concat (map states (results r))) /\
  (length (collect_positions (results r)) <= number_of_states (results r))%nat /\
  (forall h,
     plot_state_heatmap r = Return h ->
     (exists zeros counts m,
        np_zeros (default 16 (environment r !! "size")) = Return zeros /\
        count_positions (collect_positions (results r)) zeros =
          Return counts /\
        np_max counts = Return m /\
        (((0 < m)%nat /\ h = map (map (fun c => quotient c m)) counts) \/
         (m = 0%nat /\ h = map (map as_value) counts))) /\
     forall row v, row ∈ h -> v ∈ row -> (0 <= v <= 1)%Q) /\
  (0 < default 16 (environment r !! "size") ->
   Forall (within (Z.to_nat (default 16 (environment r !! "size"))))
     (collect_positions (results r)) ->
   exists h, plot_state_heatmap r = Return h).
Proof.
  split; [exact agent_position_first |].
  split; [apply collect_positions_omap |].
  split.
  { rewrite collect_positions_omap. apply omap_length_le. }
  split; [| exact (plot_state_heatmap_returns r)].
  intros h Hh. split.
  - exact (plot_state_heatmap_cases r h Hh).
  - exact (plot_state_heatmap_range r h Hh).
Qed.

Lemma heatmap_witness :
  collect_positions (results sample) = [(1, 1); (0, 0); (1, 1)]%nat /\
  plot_state_heatmap sample = Return sample_heatmap /\
  forall row v, row ∈ sample_heatmap -> v ∈ row -> (0 <= v <= 1)%Q.
Proof.
  split; [reflexivity |]. split; [reflexivity |].
  destruct (heatmap_first_agent_and_range sample)
    as (_ & _ & _ & Hrange & _).
  apply (Hrange sample_heatmap eq_refl).
Defined.

End HeatmapFacts.

(** * The entry point *)

Module ScriptFacts.
Import Script.

Section Facts.
Context {H : Type} `{Host H}.

(** [present] only asks the host. *)
Lemma present_asks path (p : Process H) :
  exists b, present path p = Some (Return b, p).
Proof.
  unfold present. destruct path as [s |]; [| eexists; reflexivity].
  destruct (String.eqb s ""); eexists; reflexivity.
Qed.

Lemma load_or_default_cases eval_results_path (p : Process H) :
  (exists config p',
     load_or_default eval_results_path p = Some (Return config, p') /\
     host p' = host p) \/
  (exists e,
     load_or_default eval_results_path p = Some (Raise e, p) /\
     load_config (str eval_results_path) (host p) = Raise e).
Proof.
  unfold load_or_default, bind.
  destruct (present_asks eval_results_path p) as [[|] ->].
  - unfold fallible.
    destruct (load_config (str eval_results_path) (host p)) as [config | e].
    + left. exists config, p. split; reflexivity.
    + right. exists e. split; reflexivity.
  - left. eexists _, _. split; reflexivity.
Qed.

(** C10.  Called with neither [save_dir] nor [timestamp], [main] raises
    before it has changed anything on the host: either the evaluation results
    could not be loaded, or -- [save_dir] being still [None] -- the directory
    creation in the [Visualizer] constructor raises [TypeError].  No plotting
    or recording call is reached, so no output file is produced. *)
Theorem main_needs_save_dir
    (tensorboard_log_dir eval_results_path model_path : option string)
    (p : Process H) :
  exists e p',
    main tensorboard_log_dir eval_results_path model_path None None p =
      Some (Raise e, p') /\
    host p' = host p /\
    (e = TypeError "expected str, bytes or os.PathLike object, not NoneType" \/
     load_config (str eval_results_path) (host p) = Raise e).
Proof.
  assert (Hmain : forall q,
            main tensorboard_log_dir eval_results_path model_path None None q =
              (config <- load_or_default eval_results_path ;;
               raise (A := unit)
                 (TypeError
                    "expected str, bytes or os.PathLike object, not NoneType"))
                q).
  { intros q. unfold main, bind.
    destruct (load_or_default eval_results_path q) as [[[c | e] q1] |];
      reflexivity. }
  rewrite Hmain. unfold bind.
  destruct (load_or_default_cases eval_results_path p)
    as [(config & p' & -> & Hhost) | (e & -> & Hload)].
  - eexists _, p'. split; [reflexivity |]. auto.
  - exists e, p. auto.
Qed.

End Facts.
End ScriptFacts.

(** * More about the episode recorder *)

Module RecorderMore.
Import PyFormat Recorder RecorderFacts RunFacts RecorderClaims Pace.

Section More.
Context {W : Type} `{Collaborators W}.

Lemma in_encoder_events e (l : list event) :
  e ∈ l -> is_encoder_event e = true -> e ∈ encoder_events l.
Proof.
  intros Hin He. unfold encoder_events.
  apply list_elem_of_In, List.filter_In.
  split; [apply list_elem_of_In, Hin | exact He].
Qed.

(** X1.  When [create_episode_video] is left with [out] unbound -- the
    writer was never constructed, or [cv2.VideoWriter] itself raised -- no
    frame was handed to [out.write], [out.release()] was not called and no
    video is reported as saved. *)
Theorem encoder_untouched_unless_opened fuel path (w : W) r m :
  create_episode_video fuel path w = Some (r, m) ->
  out m = false ->
  written (log m) = [] /\ (EvRelease ∉ log m) /\ ~ video_saved path m.
Proof.
  intros Hrun Hout.
  destruct (encoder_account _ _ _ _ _ Hrun)
    as [[[Hnone _] Hns] | (Hfs & k & j & Hlog & Hk & Hoff & _ & Hsaved)].
  - split; [rewrite written_encoder_events, Hnone; reflexivity |].
    split; [| exact Hns].
    intros Hin. apply in_encoder_events in Hin; [| reflexivity].
    rewrite Hnone in Hin. inversion Hin.
  - destruct (Hoff Hout) as [-> ->].
    split; [rewrite written_encoder_events, Hlog, written_trace; apply take_0 |].
    split.
    + intros Hin. apply in_encoder_events in Hin; [| reflexivity].
      rewrite Hlog in Hin. unfold encoder_trace in Hin. cbn in Hin.
      rewrite take_0 in Hin. cbn in Hin.
      apply list_elem_of_singleton in Hin. discriminate.
    + intros (_ & [=] & _)%Hsaved.
Qed.

(** *** A status mapping that lacks a key *)

Lemma annotate_missing_key (m : Machine W) img d :
  info m = Some d ->
  ~ (is_Some (d !! "health") /\ is_Some (d !! "hunger") /\
     is_Some (d !! "attack")) ->
  exists key,
    key ∈ ["health"; "hunger"; "attack"] /\ d !! key = None /\
    annotate_and_collect img m = Some (Raise (KeyError key), m).
Proof.
  intros Hinfo Hmiss.
  unfold annotate_and_collect, bind, gets, subscript, ret, raise. rewrite Hinfo.
  destruct (d !! "health") as [hl |] eqn:Hhl.
  2:{ exists "health". split; [set_solver | auto]. }
  destruct (d !! "hunger") as [hu |] eqn:Hhu.
  2:{ exists "hunger". split; [set_solver | auto]. }
  destruct (d !! "attack") as [ak |] eqn:Hak.
  2:{ exists "attack". split; [set_solver | auto]. }
  exfalso. apply Hmiss. eauto.
Qed.

(** X2.  In a pass whose [env.render()] yields an image while [info] is a
    mapping without one of [health], [hunger] and [attack], the overlay
    raises [KeyError] for a missing key: the pass is given up with a
    warning and the loop is left, the image of the pass is not collected, no
    action is chosen and no step is taken. *)
Theorem overlay_missing_key (m : Machine W) img w1 d :
  env_render (world m) = (Return (Some img), w1) ->
  info m = Some d ->
  ~ (is_Some (d !! "health") /\ is_Some (d !! "hunger") /\
     is_Some (d !! "attack")) ->
  exists key,
    key ∈ ["health"; "hunger"; "attack"] /\ d !! key = None /\
    iteration m = Some (Raise (KeyError key), set_world w1 m) /\
    guarded_iteration m =
      Some (Return Break,
            emit (EvPrint ("Warning: Error during episode recording: '"
                           +:+ key +:+ "'"))
              (set_world w1 m)).
Proof.
  intros Hrender Hinfo Hmiss.
  destruct (annotate_missing_key (set_world w1 m) img d Hinfo Hmiss)
    as (key & Hkey & Hnone & Hann).
  exists key. split; [exact Hkey |]. split; [exact Hnone |].
  assert (Hit : iteration m = Some (Raise (KeyError key), set_world w1 m)).
  { rewrite iteration_parts. unfold bind at 1.
    unfold render_and_collect, bind at 1, call at 1.
    rewrite Hrender, Hann. reflexivity. }
  split; [exact Hit |].
  unfold guarded_iteration, try_except. unfold bind at 1. rewrite Hit.
  reflexivity.
Qed.

(** X3.  If [import cv2] or [env.reset()] raises, nothing else is called:
    an [Exception] is reported by the one line of the outer handler and
    [create_episode_video] returns normally; an exception that is no
    [Exception] is passed on to the caller, with nothing printed. *)
Theorem start_failure_reported fuel path (w : W) e w1 :
  import_cv2 w = (Raise e, w1) \/
  (exists w0, import_cv2 w = (Return tt, w0) /\ env_reset w0 = (Raise e, w1)) ->
  create_episode_video fuel path w =
    if catchable e then
      Some (Return tt,
            emit (EvPrint ("Warning: Failed to create video: " +:+ message e))
              (set_world w1 (fresh w)))
    else Some (Raise e, set_world w1 (fresh w)).
Proof.
  intros Hstart.
  assert (Hbody : record_episode fuel path (fresh w) =
                    Some (Raise e, set_world w1 (fresh w))).
  { unfold record_episode. unfold bind at 1, call at 1; cbn.
    destruct Hstart as [-> | (w0 & -> & Hreset)]; [reflexivity |].
    unfold bind at 1, modify at 1; cbn. unfold bind at 1, call at 1; cbn.
    rewrite Hreset. reflexivity. }
  unfold create_episode_video, try_except. rewrite Hbody.
  destruct (catchable e); reflexivity.
Qed.

(** X4.  The only [Exception] that [create_episode_video] lets out is one
    raised by the [out.release()] of its outer handler: whenever the call
    raises an [Exception], the writer had been opened and the last two
    things the run did were to print the failure warning and to call
    [out.release()]. *)
Theorem exception_only_from_handler_release fuel path (w : W) e m :
  create_episode_video fuel path w = Some (Raise e, m) ->
  catchable e = true ->
  out m = true /\
  exists e0 before,
    log m =
      before ++
      [EvPrint ("Warning: Failed to create video: " +:+ message e0);
       EvRelease].
Proof.
  intros Hrun He.
  pose (Q := fun (r : result unit) (m0 : Machine W) =>
               forall e1, r = Raise e1 -> catchable e1 = true ->
                 out m0 = true /\
                 exists e0 before,
                   log m0 =
                     before ++
                     [EvPrint ("Warning: Failed to create video: "
                               +:+ message e0);
                      EvRelease]).
  assert (Hq : forall r m0,
            create_episode_video fuel path w = Some (r, m0) -> Q r m0).
  { apply (create_episode_video_triple (fun _ _ => True) Q).
    - auto.
    - intros m0 _ e1 [=].
    - intros e0 _ m0 r m1 _ Hfail e1 -> He1.
      destruct (out m0) eqn:Hout.
      + destruct (on_failure_bound e0 m0 Hout) as (r' & w' & Heq).
        rewrite Heq in Hfail. injection Hfail as _ <-.
        split; [reflexivity |]. exists e0, (log m0). reflexivity.
      + rewrite (on_failure_unbound e0 m0 Hout) in Hfail. discriminate.
    - intros e1 m0 Hpass _ e2 [= <-] He2. congruence. }
  exact (Hq _ _ Hrun e eq_refl He).
Qed.

(** *** An exception that is no [Exception] *)

Lemma rollout_interrupted w s d rs w' s' d' r e w1 (m : Machine W) fuel :
  plays w s d rs w' s' d' ->
  last_pass w' s' d' r (Raise e) w1 ->
  catchable e = false ->
  world m = w -> state m = s -> info m = Some d ->
  done m = false -> truncated m = false ->
  rollout (length rs + S fuel) m =
    Some (Raise e,
          set_world w1
            (set_frames
               (frames m ++ annotated_from (total_reward m) (rs ++ [r]))
               (after_passes m rs w' s' d'))).
Proof.
  intros Hplays Hlast He Hw Hs Hi Hd Ht.
  rewrite (rollout_plays _ _ _ _ _ _ _ Hplays m (S fuel)) by assumption.
  cbn [rollout after_passes done truncated orb].
  unfold bind at 1, guarded_iteration, try_except. unfold bind at 1.
  erewrite iteration_step_raises; [| reflexivity | exact Hlast].
  rewrite He. cbn. rewrite annotated_from_app, app_assoc. reflexivity.
Qed.

(** X5.  If the [K]-th call of [env.step] raises an exception that is no
    [Exception] (a [KeyboardInterrupt], say) after [K - 1] passes that went
    through, neither handler catches it: [create_episode_video] raises it.
    The [K] frames collected so far are dropped: the encoder is not called
    and nothing is printed. *)
Theorem interrupt_passes_through
    (w0 : W) s0 d0 w1 rs w2 s d r e w3 path fuel :
  starts w0 s0 d0 w1 ->
  plays w1 s0 d0 rs w2 s d ->
  last_pass w2 s d r (Raise e) w3 ->
  catchable e = false ->
  (S (length rs) <= fuel)%nat ->
  exists m,
    create_episode_video fuel path w0 = Some (Raise e, m) /\
    length (frames m) = S (length rs) /\
    log m = map EvStep (map reward rs).
Proof.
  intros Hstart Hplays Hlast He Hfuel.
  unfold create_episode_video, try_except.
  rewrite (record_episode_starts _ _ _ _ _ _ Hstart).
  unfold bind at 1.
  replace fuel with (length rs + S (fuel - length rs - 1))%nat by lia.
  erewrite rollout_interrupted
    by (first [exact Hplays | exact Hlast | exact He | reflexivity]).
  rewrite He. eexists. split; [reflexivity |]. cbn.
  rewrite annotated_from_length, length_app. cbn. split; [lia | reflexivity].
Qed.

(** *** Frames and steps *)

Lemma annotate_cases (m : Machine W) img r m' :
  annotate_and_collect img m = Some (r, m') ->
  (m' = m /\ exists e, r = Raise e) \/
  (exists f, m' = set_frames (frames m ++ [f]) m /\ r = Return tt).
Proof.
  unfold annotate_and_collect, bind, gets, subscript, ret, raise, modify.
  destruct (info m) as [d |]; [| intros [= <- <-]; eauto].
  destruct (d !! "health"); [| intros [= <- <-]; eauto].
  destruct (d !! "hunger"); [| intros [= <- <-]; eauto].
  destruct (d !! "attack"); [| intros [= <- <-]; eauto].
  intros [= <- <-]. right. eauto.
Qed.

Lemma pace_render :
  triple (fun m => paced 0 m /\ done m = false /\ truncated m = false)
    render_and_collect (fun _ => rendered).
Proof.
  intros m r m' (Hp & Hd & Ht).
  unfold render_and_collect, bind, call.
  assert (Hstart : forall w1, rendered (set_world w1 m)).
  { intros w1. split; [unfold paced in *; cbn [frames log set_world]; lia |].
    auto. }
  destruct (env_render (world m)) as [[[img |] | e] w1].
  - intros [[-> _] | (f & -> & _)]%annotate_cases; [apply Hstart |].
    split; [| auto]. unfold paced in *. cbn [frames log set_world set_frames].
    rewrite length_app. cbn [length]. lia.
  - intros [= <- <-]. apply Hstart.
  - intros [= <- <-]. apply Hstart.
Qed.

Lemma pace_step :
  triple rendered recover_and_step
    (fun r m => match r with Return _ => paced 0 m | Raise _ => rendered m end).
Proof.
  intros m r m' (Hp & Hd & Ht).
  unfold recover_and_step, step_onwards, step_and_unpack.
  unfold bind, gets, call, modify, ret.
  assert (Hsame : forall w i, rendered (set_info i (set_world w m))).
  { intros w i. split; [exact Hp | auto]. }
  assert (Hstep : forall w i (a : Action) r m',
            (let '(r0, w0) := env_step a w in
             match r0 with
             | Return (s, rw, d, t, i') =>
                 Some (Return tt,
                       set_info i'
                         (set_state s
                            (set_total_reward
                               (total_reward (set_info i (set_world w m)) + rw)%float
                               (set_flags d t
                                  (emit (EvStep rw)
                                     (set_world w0 (set_info i (set_world w m))))))))
             | Raise e => Some (Raise e, set_world w0 (set_info i (set_world w m)))
             end) = Some (r, m') ->
            match r with Return _ => paced 0 m' | Raise _ => rendered m' end).
  { intros w i a r0 m0.
    destruct (env_step a w) as [[[[[[s rw] d] t] i'] | e] w0];
      intros [= <- <-].
    - unfold paced in *. cbn. rewrite step_rewards_app, length_app. cbn. lia.
    - split; [exact Hp | auto]. }
  destruct (info m) as [d |] eqn:Hinfo.
  - destruct (agent_select_action _ _ _ _) as [[a | e] w1] eqn:Hsel; cbn.
    + intros Hrun.
      apply (Hstep w1 (Some d) a r m').
      destruct (env_step a w1) as [[[[[[s rw] dn] tr] i'] | e] w0] eqn:Hs;
        cbn in Hrun |- *; rewrite <- Hrun; destruct m; cbn in *; subst;
        reflexivity.
    + intros [= <- <-]. split; [exact Hp | auto].
  - destruct (env_get_info (world m)) as [[i | e] w0]; cbn.
    2:{ intros [= <- <-]. split; [exact Hp | auto]. }
    destruct (agent_select_action _ _ _ _) as [[a | e] w1]; cbn.
    2:{ intros [= <- <-]. split; [exact Hp | auto]. }
    intros Hrun. apply (Hstep w1 i a r m').
    destruct (env_step a w1) as [[[[[[s rw] dn] tr] i'] | e] w2];
      cbn in Hrun |- *; rewrite <- Hrun; reflexivity.
Qed.

Lemma pace_iteration :
  triple (fun m => paced 0 m /\ done m = false /\ truncated m = false)
    iteration
    (fun r m => match r with Return _ => paced 0 m | Raise _ => rendered m end).
Proof.
  eapply triple_ext; [exact iteration_parts |].
  eapply triple_bind; [exact pace_render | intros []; exact pace_step | auto].
Qed.

Lemma rendered_warning (m : Machine W) line :
  rendered m -> rendered (emit (EvPrint line) m).
Proof.
  intros (Hp & Hd & Ht). split; [| auto].
  unfold paced in *. cbn [frames log emit].
  rewrite step_rewards_other by done. exact Hp.
Qed.

Lemma pace_guarded :
  triple (fun m => paced 0 m /\ done m = false /\ truncated m = false)
    guarded_iteration
    (fun r m =>
       match r with
       | Return Continue => paced 0 m
       | _ => rendered m
       end).
Proof.
  unfold guarded_iteration.
  eapply triple_try
    with (R := fun r m =>
                 match r with
                 | Return Continue => paced 0 m
                 | Return Break => False
                 | Raise _ => rendered m
                 end).
  - eapply triple_bind; [exact pace_iteration | | auto].
    intros []. apply triple_ret. auto.
  - intros [|] m; [auto | intros []].
  - intros e _. eapply triple_bind with (R := fun _ => rendered).
    + apply triple_modify. intros m Hm. apply rendered_warning, Hm.
    + intros _. apply triple_ret. auto.
    + auto.
  - auto.
Qed.

Lemma paced_kept (m : Machine W) : paced 0 m -> kept_pace m.
Proof. intros Hp. split; [unfold paced in *; lia | auto]. Qed.

Lemma rendered_kept (m : Machine W) : rendered m -> kept_pace m.
Proof.
  intros (Hp & Hd & Ht). split; [exact Hp |]. rewrite Hd, Ht. discriminate.
Qed.

Lemma pace_rollout fuel : triple (paced 0) (rollout fuel) (fun _ => kept_pace).
Proof.
  induction fuel as [| fuel IH]; intros m r m' Hm; cbn [rollout].
  - destruct (done m || truncated m); [| discriminate].
    intros [= <- <-]. apply paced_kept, Hm.
  - destruct (done m || truncated m) eqn:Hflags;
      [intros [= <- <-]; apply paced_kept, Hm |].
    apply orb_false_elim in Hflags as [Hd Ht].
    assert (Hpre : paced 0 m /\ done m = false /\ truncated m = false) by auto.
    clear Hm Hd Ht. revert m r m' Hpre.
    eapply triple_bind; [exact pace_guarded | |].
    + intros [|]; [exact IH |].
      apply triple_ret. intros m Hm. apply rendered_kept, Hm.
    + intros e m Hm. apply rendered_kept, Hm.
Qed.

Lemma kept_pace_calm : calm (kept_pace (W:=W)).
Proof.
  split.
  - intros m w Hm. exact Hm.
  - intros m Hm. exact Hm.
  - intros m e He [Hp Hend]. unfold kept_pace, paced in *.
    cbn [frames log emit done truncated].
    rewrite step_rewards_other by exact He. auto.
Qed.

(** X6.  The frames never run ahead of the steps by more than one: when
    [create_episode_video] is left, however that happens, it has collected
    at most one frame more than [env.step] has returned results; and when the
    episode has ended ([done] or [truncated]) it holds at most one frame for
    each step, so the state reached by the last step is never rendered. *)
Theorem frames_keep_pace fuel path (w : W) r m :
  create_episode_video fuel path w = Some (r, m) ->
  (length (frames m) <= S (length (step_rewards (log m))))%nat /\
  (done m || truncated m = true ->
   (length (frames m) <= length (step_rewards (log m)))%nat).
Proof.
  intros Hrun.
  assert (Hkept : kept_pace m); [| exact Hkept].
  revert r m Hrun.
  apply (create_episode_video_triple (fun _ => kept_pace) (fun _ => kept_pace)).
  - intros r m.
    destruct (record_episode_cases fuel path w)
      as [(e & w' & ->) | (s & i & w' & ->)].
    + intros [= <- <-]. apply paced_kept. unfold paced. cbn. lia.
    + assert (Hentered : paced 0 (entered w' s i))
        by (unfold paced; cbn; lia).
      revert r m. generalize dependent (entered w' s i).
      intros m0 Hm0 r m. revert m0 r m Hm0.
      eapply triple_bind; [apply pace_rollout | | auto].
      intros []. apply keeps_save_video, kept_pace_calm.
  - auto.
  - intros e _. apply keeps_on_failure, kept_pace_calm.
  - auto.
Qed.

End More.

Import Stub Faults.

(** *** Runs of the stub worlds *)

Lemma unopened_run :
  create_episode_video (H := closed_encoder) 3 "episode.mp4" three_steps =
    Some (Return tt, unopened_end).
Proof. vm_compute. reflexivity. Qed.

Lemma stuck_run :
  create_episode_video (H := stuck_encoder) 3 "episode.mp4"
    second_write_fails =
    Some (Raise (PyExc true "cannot release"), stuck_end).
Proof. vm_compute. reflexivity. Qed.

Lemma encoder_untouched_witness :
  length (frames unopened_end) = 3%nat /\
  out unopened_end = false /\
  written (log unopened_end) = [] /\
  (EvRelease ∉ log unopened_end) /\
  ~ video_saved "episode.mp4" unopened_end.
Proof.
  split; [reflexivity |]. split; [reflexivity |].
  apply (encoder_untouched_unless_opened (H := closed_encoder) 3
           "episode.mp4" three_steps (Return tt) unopened_end unopened_run).
  reflexivity.
Defined.

Lemma overlay_missing_key_witness :
  exists key,
    key ∈ ["health"; "hunger"; "attack"] /\
    (<["health" := 90%float]> (<["attack" := 30%float]> ∅)
       : gmap string float) !! key = None /\
    iteration hungerless =
      Some (Raise (KeyError key),
            set_world (stub_render three_steps).2 hungerless) /\
    guarded_iteration hungerless =
      Some (Return Break,
            emit (EvPrint ("Warning: Error during episode recording: '"
                           +:+ key +:+ "'"))
              (set_world (stub_render three_steps).2 hungerless)).
Proof.
  apply (overlay_missing_key hungerless (image 2 3)); [reflexivity .. |].
  intros (_ & [x Hx] & _). vm_compute in Hx. discriminate.
Defined.

Lemma start_failure_witness :
  create_episode_video 3 "episode.mp4" reset_fails =
    Some (Return tt,
          emit (EvPrint "Warning: Failed to create video: no such environment")
            (fresh reset_fails)).
Proof.
  apply (start_failure_reported 3 "episode.mp4" reset_fails
           (PyExc true "no such environment") reset_fails).
  right. exists reset_fails. split; reflexivity.
Defined.

Lemma exception_from_release_witness :
  out stuck_end = true /\
  exists e0 before,
    log stuck_end =
      before ++
      [EvPrint ("Warning: Failed to create video: " +:+ message e0);
       EvRelease].
Proof.
  apply (exception_only_from_handler_release (H := stuck_encoder) 3
           "episode.mp4" second_write_fails (PyExc true "cannot release")
           stuck_end stuck_run).
  reflexivity.
Defined.

Lemma interrupt_witness :
  exists m,
    create_episode_video 2 "episode.mp4" interrupted =
      Some (Raise (PyExc false "KeyboardInterrupt"), m) /\
    length (frames m) = 2%nat /\
    log m = [EvStep 1.0%float].
Proof.
  eapply (interrupt_passes_through interrupted _ _ _
            [first_pass] _ _ _ (later_pass 0)
            (PyExc false "KeyboardInterrupt")).
  - eexists. split; reflexivity.
  - eapply plays_cons; [play_pass |]. apply plays_nil.
  - play_pass.
  - reflexivity.
  - cbn. lia.
Defined.

Lemma frames_keep_pace_witness :
  (length (frames second_step_raises_end) <=
   S (length (step_rewards (log second_step_raises_end))))%nat /\
  (done second_step_raises_end || truncated second_step_raises_end = true ->
   (length (frames second_step_raises_end) <=
    length (step_rewards (log second_step_raises_end)))%nat).
Proof.
  exact (frames_keep_pace 2 "episode.mp4" second_step_raises (Return tt)
           second_step_raises_end second_step_raises_run).
Defined.

End RecorderMore.

(** * More about the position heatmap *)

Module HeatmapMore.
Import Heatmap HeatmapFacts Visits.

Lemma entry_map {A B} (f : A -> B) (grid : list (list A)) x y :
  entry (map (map f) grid) x y = f <$> entry grid x y.
Proof.
  unfold entry. change (map (map f) grid) with (map f <$> grid).
  rewrite list_lookup_fmap. destruct (grid !! x) as [row |]; [| reflexivity].
  cbn. change (map f row) with (f <$> row). apply list_lookup_fmap.
Qed.

Lemma entry_square {A} n (grid : list (list A)) x y :
  length grid = n -> Forall (fun row => length row = n) grid ->
  (x < n)%nat -> (y < n)%nat -> is_Some (entry grid x y).
Proof.
  intros Hrows Hcols Hx Hy. unfold entry.
  destruct (lookup_lt_is_Some_2 grid x) as [row Hrow]; [lia |].
  rewrite Hrow. cbn. apply lookup_lt_is_Some_2.
  rewrite (Forall_lookup_1 _ _ _ _ Hcols Hrow). exact Hy.
Qed.

Lemma increment_entry counts p counts' :
  increment counts p = Return counts' ->
  is_Some (entry counts p.1 p.2) /\
  forall q,
    entry counts' q.1 q.2 =
      if decide (p = q) then S <$> entry counts q.1 q.2
      else entry counts q.1 q.2.
Proof.
  destruct p as [x y]. unfold increment.
  destruct (counts !! x) as [row |] eqn:Hrow; [| discriminate].
  destruct (row !! y) as [c |] eqn:Hc; [| discriminate].
  intros [= <-]. split.
  { unfold entry. cbn. rewrite Hrow. cbn. rewrite Hc. eauto. }
  intros [x' y']. cbn [fst snd]. unfold entry.
  pose proof (lookup_lt_Some _ _ _ Hrow) as Hx.
  pose proof (lookup_lt_Some _ _ _ Hc) as Hy.
  destruct (decide ((x, y) = (x', y'))) as [[= <- <-] | Hne].
  - rewrite list_lookup_insert_eq by exact Hx. cbn.
    rewrite list_lookup_insert_eq by exact Hy.
    rewrite Hrow. cbn. rewrite Hc. reflexivity.
  - destruct (decide (x = x')) as [<- | Hx'].
    + rewrite list_lookup_insert_eq by exact Hx. cbn. rewrite Hrow. cbn.
      apply list_lookup_insert_ne. congruence.
    + rewrite list_lookup_insert_ne by exact Hx'. reflexivity.
Qed.

(** The counter of a cell grows by the number of positions that name it. *)
Lemma count_positions_entry positions counts counts' q c :
  count_positions positions counts = Return counts' ->
  entry counts q.1 q.2 = Some c ->
  entry counts' q.1 q.2 =
    Some (c + length (filter (fun p => p = q) positions))%nat.
Proof.
  revert counts c. induction positions as [| p positions IH]; intros counts c.
  - intros [= <-] ->. cbn. f_equal. lia.
  - cbn [count_positions].
    destruct (increment counts p) as [counts1 | e] eqn:Hinc; [| discriminate].
    intros Hrest Hc.
    destruct (increment_entry _ _ _ Hinc) as [_ Hq]. specialize (Hq q).
    rewrite Hc in Hq. rewrite filter_cons.
    destruct (decide (p = q)) as [-> | Hne].
    + rewrite (IH _ _ Hrest Hq). cbn. f_equal. lia.
    + rewrite (IH _ _ Hrest Hq). reflexivity.
Qed.

Lemma count_positions_first p positions counts counts' :
  count_positions (p :: positions) counts = Return counts' ->
  exists c, entry counts' p.1 p.2 = Some c /\ (0 < c)%nat.
Proof.
  intros Hcount. pose proof Hcount as Hfirst.
  cbn [count_positions] in Hfirst.
  destruct (increment counts p) as [counts1 | e] eqn:Hinc; [| discriminate].
  destruct (increment_entry _ _ _ Hinc) as [[c Hc] _].
  rewrite (count_positions_entry _ _ _ p c Hcount Hc).
  eexists. split; [reflexivity |].
  rewrite filter_cons_True by reflexivity. cbn. lia.
Qed.

Lemma filter_omap {A B} `{EqDecision B} (f : A -> option B) (q : B) l :
  length (filter (fun p => p = q) (omap f l)) =
    length (filter (fun a => f a = Some q) l).
Proof.
  induction l as [| a l IH]; [reflexivity |].
  cbn [omap list_omap]. rewrite (filter_cons (fun a => f a = Some q)).
  destruct (f a) as [b |] eqn:Hb.
  - rewrite filter_cons.
    destruct (decide (b = q)) as [Hbq | Hbq];
      destruct (decide (Some b = Some q)) as [Heq | Hne];
      try congruence; cbn; rewrite IH; reflexivity.
  - destruct (decide (None = Some q)); [discriminate | exact IH].
Qed.

Lemma visits_positions r q :
  visits r q =
    length (filter (fun p => p = q) (collect_positions (results r))).
Proof.
  unfold visits. rewrite collect_positions_omap, filter_omap. reflexivity.
Qed.

Lemma zeros_entry n x y :
  (x < n)%nat -> (y < n)%nat ->
  entry (replicate n (replicate n 0%nat)) x y = Some 0%nat.
Proof.
  intros Hx Hy. unfold entry. rewrite lookup_replicate_2 by exact Hx.
  cbn. apply lookup_replicate_2, Hy.
Qed.

Lemma np_zeros_returns size zeros :
  np_zeros size = Return zeros ->
  0 <= size /\
  zeros = replicate (Z.to_nat size) (replicate (Z.to_nat size) 0%nat).
Proof.
  unfold np_zeros. destruct (Z.ltb_spec size 0); [discriminate |].
  intros [= <-]. auto.
Qed.

Lemma fold_max_in cs c0 : fold_left Nat.max cs c0 ∈ c0 :: cs.
Proof.
  revert c0. induction cs as [| c cs IH]; intros c0; cbn; [set_solver |].
  specialize (IH (Nat.max c0 c)).
  apply elem_of_cons in IH as [-> | Hin]; [| set_solver].
  destruct (Nat.max_spec c0 c) as [[_ ->] | [_ ->]]; set_solver.
Qed.

Lemma np_max_attained counts m :
  np_max counts = Return m -> exists x y, entry counts x y = Some m.
Proof.
  unfold np_max. intros Hmax.
  assert (Hin : m ∈ concat counts).
  { destruct (concat counts) as [| c cs]; [discriminate |].
    injection Hmax as <-. apply fold_max_in. }
  apply list_elem_of_In, in_concat in Hin as (row & Hrow & Hm).
  apply list_elem_of_In, list_elem_of_lookup in Hrow as [x Hx].
  apply list_elem_of_In, list_elem_of_lookup in Hm as [y Hy].
  exists x, y. unfold entry. rewrite Hx. exact Hy.
Qed.

Lemma quotient_one m : (0 < m)%nat -> (quotient m m == 1)%Q.
Proof.
  intros Hm. unfold quotient, Qeq. cbn [Qnum Qden].
  rewrite <- (positive_nat_Z (Pos.of_nat m)), Nat2Pos.id by lia. lia.
Qed.

(** X8.  The normalisation makes the most visited cell exactly 1: if the
    agent was found in at least one state, some entry of the array handed to
    [sns.heatmap] equals 1; if it was found in none, the count grid is not
    divided and every entry is 0. *)
Theorem heatmap_hottest_cell r h :
  plot_state_heatmap r = Return h ->
  (collect_positions (results r) <> [] ->
   exists x y v, entry h x y = Some v /\ (v == 1)%Q) /\
  (collect_positions (results r) = [] ->
   forall x y v, entry h x y = Some v -> (v == 0)%Q).
Proof.
  intros (zeros & counts & m & Hzeros & Hcounts & Hmax & Hh)
    %plot_state_heatmap_cases.
  destruct (np_max_attained counts m Hmax) as (xm & ym & Hm).
  split.
  - intros Hsome.
    destruct (collect_positions (results r)) as [| p positions]; [done |].
    destruct (count_positions_first _ _ _ _ Hcounts) as (c & Hc & Hpos).
    assert (Hle : (c <= m)%nat).
    { unfold entry in Hc.
      destruct (counts !! p.1) as [row |] eqn:Hrow; [| discriminate].
      eapply (np_max_bound counts m Hmax row);
        eapply list_elem_of_lookup_2; eassumption. }
    destruct Hh as [[Hm0 ->] | [-> ->]]; [| lia].
    exists xm, ym, (quotient m m).
    split; [rewrite entry_map, Hm; reflexivity | apply quotient_one, Hm0].
  - intros Hnone x y v. rewrite Hnone in Hcounts. injection Hcounts as <-.
    apply np_zeros_returns in Hzeros as [_ ->].
    assert (Hzero : forall x y c,
              entry (replicate (Z.to_nat (default 16 (environment r !! "size")))
                       (replicate (Z.to_nat (default 16 (environment r !! "size")))
                          0%nat)) x y = Some c -> c = 0%nat).
    { intros x0 y0 c. unfold entry.
      destruct (replicate _ _ !! x0) as [row |] eqn:Hrow; [| discriminate].
      apply lookup_replicate_1 in Hrow as [-> _]. cbn.
      intros [-> _]%lookup_replicate_1. reflexivity. }
    apply Hzero in Hm as ->.
    destruct Hh as [[Hm0 _] | [_ ->]]; [lia |].
    rewrite entry_map.
    destruct (entry _ x y) as [c |] eqn:Hc; [| discriminate].
    apply Hzero in Hc as ->. intros [= <-]. reflexivity.
Qed.

Lemma count_positions_raises n positions counts :
  square n counts ->
  ~ Forall (within n) positions ->
  exists e,
    count_positions positions counts = Raise e /\
    (e = IndexError "index is out of bounds for axis 0" \/
     e = IndexError "index is out of bounds for axis 1").
Proof.
  revert counts. induction positions as [| p positions IH];
    intros counts Hsq Hout; [exfalso; apply Hout; constructor |].
  cbn [count_positions].
  destruct (decide (within n p)) as [Hin | Hnot].
  - destruct (increment_square n counts p Hsq Hin) as (counts1 & -> & Hsq1).
    apply IH; [exact Hsq1 |]. intros Hrest. apply Hout. constructor; assumption.
  - destruct p as [x y]. destruct Hsq as [Hrows Hcols]. unfold increment.
    destruct (counts !! x) as [row |] eqn:Hrow.
    + pose proof (Forall_lookup_1 _ _ _ _ Hcols Hrow) as Hlen.
      cbn beta in Hlen.
      pose proof (lookup_lt_Some _ _ _ Hrow) as Hx.
      destruct (row !! y) as [c |] eqn:Hc.
      * exfalso. apply Hnot. pose proof (lookup_lt_Some _ _ _ Hc).
        split; cbn; lia.
      * eauto.
    + eauto.
Qed.

(** X9.  A position outside the count grid is an error, not a clipped
    cell: with a grid size that is not negative, if the agent is found in
    some state at a row or a column that is no index of the
    [grid_size] x [grid_size] array, [plot_state_heatmap] raises
    [IndexError]. *)
Theorem heatmap_position_out_of_range r :
  0 <= grid_size r ->
  ~ Forall (within (Z.to_nat (grid_size r))) (collect_positions (results r)) ->
  exists e,
    plot_state_heatmap r = Raise e /\
    (e = IndexError "index is out of bounds for axis 0" \/
     e = IndexError "index is out of bounds for axis 1").
Proof.
  intros Hsize Hout. unfold plot_state_heatmap, np_zeros.
  fold (grid_size r). destruct (Z.ltb_spec (grid_size r) 0); [lia |].
  destruct (count_positions_raises (Z.to_nat (grid_size r))
              (collect_positions (results r))
              (replicate (Z.to_nat (grid_size r))
                 (replicate (Z.to_nat (grid_size r)) 0%nat)))
    as (e & -> & He); [| exact Hout | eauto].
  split; [apply length_replicate |].
  apply Forall_replicate, length_replicate.
Qed.

Lemma count_positions_length positions counts counts' :
  count_positions positions counts = Return counts' ->
  length counts' = length counts /\
  (forall n, Forall (fun row => length row = n) counts ->
             Forall (fun row => length row = n) counts').
Proof.
  revert counts. induction positions as [| [x y] positions IH]; intros counts.
  - intros [= <-]. auto.
  - cbn [count_positions increment].
    destruct (counts !! x) as [row |] eqn:Hrow; [| discriminate].
    destruct (row !! y) as [c |] eqn:Hc; [| discriminate].
    intros [Hlen Hall]%IH. rewrite length_insert in Hlen.
    split; [exact Hlen |]. intros n Hn. apply Hall.
    apply Forall_insert; [exact Hn |]. rewrite length_insert.
    exact (Forall_lookup_1 _ _ _ _ Hn Hrow).
Qed.

Lemma entry_within {A} n (grid : list (list A)) x y v :
  length grid = n -> Forall (fun row => length row = n) grid ->
  entry grid x y = Some v -> within n (x, y).
Proof.
  intros Hrows Hcols. unfold entry.
  destruct (grid !! x) as [row |] eqn:Hrow; [| discriminate].
  cbn. intros Hy.
  pose proof (Forall_lookup_1 _ _ _ _ Hcols Hrow) as Hlen. cbn beta in Hlen.
  apply lookup_lt_Some in Hrow, Hy. split; cbn; lia.
Qed.

(** X7.  The heatmap shows visit counts: whenever [plot_state_heatmap]
    hands an array to [sns.heatmap], its entry at an index [(x, y)] of the
    grid is the number of states whose agent was found at [(x, y)], divided
    by [m], the largest number of visits of any cell of the grid (a number
    that some cell attains and none exceeds), when that is positive, and
    left as it is (zero) otherwise. *)
Theorem heatmap_counts_visits r h :
  plot_state_heatmap r = Return h ->
  exists m,
    (exists p, within (Z.to_nat (grid_size r)) p /\ visits r p = m) /\
    forall x y,
      within (Z.to_nat (grid_size r)) (x, y) ->
      (visits r (x, y) <= m)%nat /\
      entry h x y =
        Some (if (0 <? m)%nat then quotient (visits r (x, y)) m
              else as_value (visits r (x, y))).
Proof.
  intros (zeros & counts & m & Hzeros & Hcounts & Hmax & Hh)
    %plot_state_heatmap_cases.
  apply np_zeros_returns in Hzeros as [Hsize ->]. fold (grid_size r) in *.
  assert (Hvisits : forall x y,
            within (Z.to_nat (grid_size r)) (x, y) ->
            entry counts x y = Some (visits r (x, y))).
  { intros x y [Hx Hy]. cbn [fst snd] in Hx, Hy.
    pose proof (count_positions_entry _ _ _ (x, y) 0%nat Hcounts
                  (zeros_entry _ x y Hx Hy)) as Hentry.
    cbn [fst snd Nat.add] in Hentry.
    rewrite <- visits_positions in Hentry. exact Hentry. }
  exists m. split.
  - destruct (np_max_attained counts m Hmax) as (xm & ym & Hm).
    destruct (count_positions_length _ _ _ Hcounts) as [Hlen Hall].
    rewrite length_replicate in Hlen.
    specialize (Hall (Z.to_nat (grid_size r))
                  (Forall_replicate _ _ _ (length_replicate _ _))).
    pose proof (entry_within _ _ _ _ _ Hlen Hall Hm) as Hin.
    exists (xm, ym). split; [exact Hin |].
    rewrite (Hvisits _ _ Hin) in Hm. congruence.
  - intros x y Hxy. pose proof (Hvisits x y Hxy) as Hentry. split.
    + unfold entry in Hentry.
      destruct (counts !! x) as [row |] eqn:Hrow; [| discriminate].
      cbn in Hentry. eapply (np_max_bound counts m Hmax row).
      * eapply list_elem_of_lookup_2, Hrow.
      * eapply list_elem_of_lookup_2, Hentry.
    + destruct Hh as [[Hm ->] | [-> ->]]; rewrite entry_map, Hentry.
      * apply Nat.ltb_lt in Hm. rewrite Hm. reflexivity.
      * reflexivity.
Qed.

(** X10.  The grid size decides whether there is a heatmap at all.  A
    negative size is refused by [np.zeros]; a size of 0 with no agent found
    fails in [position_counts.max()], the array having no entry; and whenever
    an array is handed to [sns.heatmap] the size is positive and the array has
    [grid_size] rows of [grid_size] entries -- 16 of 16 when the
    configuration names no size. *)
Theorem heatmap_grid_size r :
  (grid_size r < 0 ->
   plot_state_heatmap r =
     Raise (ValueError "negative dimensions are not allowed")) /\
  (grid_size r = 0 -> collect_positions (results r) = [] ->
   plot_state_heatmap r =
     Raise (ValueError
       "zero-size array to reduction operation maximum which has no identity")) /\
  (environment r !! "size" = None -> grid_size r = 16) /\
  (forall h,
     plot_state_heatmap r = Return h ->
     0 < grid_size r /\
     length h = Z.to_nat (grid_size r) /\
     Forall (fun row => length row = Z.to_nat (grid_size r)) h).
Proof.
  split; [| split; [| split]].
  - intros Hneg. unfold plot_state_heatmap, np_zeros. fold (grid_size r).
    destruct (Z.ltb_spec (grid_size r) 0); [reflexivity | lia].
  - intros Hzero Hnone. unfold plot_state_heatmap, np_zeros.
    fold (grid_size r). rewrite Hzero, Hnone. reflexivity.
  - intros Hnone. unfold grid_size. rewrite Hnone. reflexivity.
  - intros h (zeros & counts & m & Hzeros & Hcounts & Hmax & Hh)
      %plot_state_heatmap_cases.
    apply np_zeros_returns in Hzeros as [Hsize ->]. fold (grid_size r) in *.
    destruct (count_positions_length _ _ _ Hcounts) as [Hlen Hall].
    rewrite length_replicate in Hlen.
    specialize (Hall (Z.to_nat (grid_size r))
                  (Forall_replicate _ _ _ (length_replicate _ _))).
    assert (Hdims : length h = Z.to_nat (grid_size r) /\
                    Forall (fun row => length row = Z.to_nat (grid_size r)) h).
    { destruct Hh as [[_ ->] | [_ ->]]; rewrite length_map;
        (split; [exact Hlen |]); apply Forall_map;
        (eapply Forall_impl; [exact Hall |]); intros row Hrow; cbn;
        rewrite length_map; exact Hrow. }
    split; [| exact Hdims].
    destruct (Z.to_nat (grid_size r)) as [| n] eqn:Hn; [| lia].
    apply nil_length_inv in Hlen. subst counts. discriminate.
Qed.

Lemma heatmap_counts_witness :
  exists m,
    (exists p, within 3 p /\ visits sample p = m) /\
    forall x y,
      within 3 (x, y) ->
      (visits sample (x, y) <= m)%nat /\
      entry sample_heatmap x y =
        Some (if (0 <? m)%nat then quotient (visits sample (x, y)) m
              else as_value (visits sample (x, y))).
Proof.
  exact (heatmap_counts_visits sample sample_heatmap eq_refl).
Defined.

Lemma heatmap_hottest_witness :
  (collect_positions (results sample) <> [] ->
   exists x y v, entry sample_heatmap x y = Some v /\ (v == 1)%Q) /\
  (collect_positions (results sample) = [] ->
   forall x y v, entry sample_heatmap x y = Some v -> (v == 0)%Q).
Proof.
  exact (heatmap_hottest_cell sample sample_heatmap eq_refl).
Defined.

Lemma heatmap_out_of_range_witness :
  collect_positions (results off_grid) = [(0, 0); (0, 1)]%nat /\
  exists e,
    plot_state_heatmap off_grid = Raise e /\
    (e = IndexError "index is out of bounds for axis 0" \/
     e = IndexError "index is out of bounds for axis 1").
Proof.
  split; [reflexivity |].
  apply (heatmap_position_out_of_range off_grid); [vm_compute; discriminate |].
  intros Hall. vm_compute in Hall.
  inversion Hall as [| ? ? _ Hrest]; subst.
  inversion Hrest as [| ? ? [_ Hy] _]; subst. cbn in Hy. lia.
Defined.

End HeatmapMore.

(** * The plots *)

Module PyplotFacts.
Import Pyplot.

Section Facts.
Context {B : Type} `{Backend B}.

Lemma draw_accepted (Hacc : accepts_all) d (c : Canvas B) :
  exists b,
    draw d c = Some (Return tt, {| backend := b; drawn := drawn c ++ [d] |}).
Proof.
  unfold draw. specialize (Hacc d (backend c)).
  destruct (plt d (backend c)) as [r b]. cbn in Hacc. subst r. eauto.
Qed.

Lemma saved_files_app l1 l2 :
  saved_files (l1 ++ l2) = saved_files l1 ++ saved_files l2.
Proof. apply omap_app. Qed.

End Facts.

(** One accepted [draw] call at the head of a sequence. *)
Ltac draw_step Hacc :=
  unfold bind at 1;
  match goal with
  | |- context [draw ?d ?c] =>
      let b := fresh "b" in
      destruct (draw_accepted Hacc d c) as [b ->]
  end.

(** The last call of a sequence. *)
Ltac draw_last Hacc :=
  match goal with
  | |- context [draw ?d ?c] =>
      let b := fresh "b" in
      destruct (draw_accepted Hacc d c) as [b ->]
  end.

End PyplotFacts.

(** ** The training curves *)

Module CurvesFacts.
Import Pyplot PyplotFacts Curves.

Section Facts.
Context {B : Type} `{Backend B}.

Lemma zip_star_series (series : list ScalarEvent) :
  series <> [] ->
  zip_star (map (fun s => (step s, value s)) series) =
    Return (map step series, map value series).
Proof.
  destruct series as [| s series]; [done |]. intros _. cbn [zip_star map].
  rewrite !map_map. reflexivity.
Qed.

(** One block: skipped, drawn, or stopped by an empty series. *)
Lemma curve_cases (Hacc : accepts_all) event_acc tag ax title xlabel ylabel
    (c : Canvas B) :
  (event_acc !! tag <> Some [] /\
   exists b,
     curve event_acc tag ax title xlabel ylabel c =
       Some (Return tt,
             {| backend := b;
                drawn := drawn c ++
                  curve_calls event_acc tag ax title xlabel ylabel |})) \/
  (event_acc !! tag = Some [] /\
   curve event_acc tag ax title xlabel ylabel c =
     Some (Raise
             (ValueError "not enough values to unpack (expected 2, got 0)"),
           c)).
Proof.
  unfold curve, curve_calls.
  destruct (event_acc !! tag) as [[| s series] |].
  - right. split; reflexivity.
  - left. split; [discriminate |].
    unfold bind at 1, lift. rewrite zip_star_series by discriminate.
    do 3 draw_step Hacc.
    draw_last Hacc.
    eexists. cbn [drawn]. rewrite <- !app_assoc. reflexivity.
  - left. split; [discriminate |]. exists (backend c).
    rewrite app_nil_r. destruct c; reflexivity.
Qed.

Ltac curve_step Hacc :=
  unfold bind at 1;
  match goal with
  | |- context [curve ?ea ?tag ?ax ?t ?x ?y ?c] =>
      let b := fresh "b" in
      let Hne := fresh "Hne" in
      let Hempty := fresh "Hempty" in
      destruct (curve_cases Hacc ea tag ax t x y c)
        as [(Hne & b & ->) | (Hempty & ->)]
  end.

Ltac in_slots :=
  unfold slots;
  repeat first [apply list_elem_of_here | apply list_elem_of_further].

Lemma plotted_app l1 l2 : plotted (l1 ++ l2) = plotted l1 ++ plotted l2.
Proof. apply omap_app. Qed.

Lemma plotted_curve event_acc tag ax title xlabel ylabel :
  plotted (curve_calls event_acc tag ax title xlabel ylabel) =
    option_list (as_curve ax <$> event_acc !! tag).
Proof. unfold curve_calls. destruct (event_acc !! tag); reflexivity. Qed.

Lemma saved_files_curve event_acc tag ax title xlabel ylabel :
  saved_files (curve_calls event_acc tag ax title xlabel ylabel) = [].
Proof. unfold curve_calls. destruct (event_acc !! tag); reflexivity. Qed.



(** X11.  [plot_training_curves] draws the series that are there and skips
    the others: with a plotting library that accepts every call and no empty
    series among the four tags, it returns, the curves drawn are those of
    the tags present among [Train/Episode_Reward], [Eval/Average_Reward],
    [Train/Health] and [Train/Average_Loss], in this order, each on its own
    axes with the steps as abscissae and the values as ordinates; any other
    tag of the log is ignored.  Exactly one file is written,
    [training_curves.png] in the save directory, and the figure is closed
    last. *)
Theorem present_series_plotted save_dir event_acc (c : Canvas B) :
  accepts_all ->
  (forall tag ax, (tag, ax) ∈ slots -> event_acc !! tag <> Some []) ->
  exists c',
    plot_training_curves save_dir event_acc c = Some (Return tt, c') /\
    plotted (drawn c') =
      plotted (drawn c) ++
      omap (fun slot => as_curve slot.2 <$> event_acc !! slot.1) slots /\
    saved_files (drawn c') =
      saved_files (drawn c) ++
      [Script.path_join save_dir "training_curves.png"] /\
    last (drawn c') = Some plt_close.
Proof.
  intros Hacc Hfull. unfold plot_training_curves.
  do 2 draw_step Hacc.
  curve_step Hacc; [| exfalso; eapply Hfull; [| exact Hempty]; in_slots].
  curve_step Hacc; [| exfalso; eapply Hfull; [| exact Hempty]; in_slots].
  curve_step Hacc; [| exfalso; eapply Hfull; [| exact Hempty]; in_slots].
  curve_step Hacc; [| exfalso; eapply Hfull; [| exact Hempty]; in_slots].
  do 2 draw_step Hacc.
  draw_last Hacc.
  eexists. split; [reflexivity |]. cbn [drawn].
  split; [| split; [| apply last_snoc]].
  - rewrite !plotted_app, !plotted_curve. cbn [plotted omap list_omap slots fst snd].
    rewrite !app_nil_r, <- !app_assoc.
    destruct (event_acc !! "Train/Episode_Reward");
      destruct (event_acc !! "Eval/Average_Reward");
      destruct (event_acc !! "Train/Health");
      destruct (event_acc !! "Train/Average_Loss"); reflexivity.
  - rewrite !saved_files_app, !saved_files_curve. cbn [saved_files omap list_omap].
    rewrite !app_nil_r. reflexivity.
Qed.


End Facts.

Lemma present_series_witness :
  exists c',
    plot_training_curves "out" two_tags blank_canvas = Some (Return tt, c') /\
    plotted (drawn c') =
      [((0, 0), [1; 2], [0.5; 1.5]%float); ((1, 1), [1], [0.25]%float)] /\
    saved_files (drawn c') = ["out/training_curves.png"] /\
    last (drawn c') = Some plt_close.
Proof.
  apply (present_series_plotted "out" two_tags blank_canvas).
  - intros d b. reflexivity.
  - intros tag ax Hin. unfold slots in Hin.
    repeat (apply elem_of_cons in Hin as [[= -> ->] | Hin];
            [vm_compute; discriminate |]).
    inversion Hin.
Defined.


End CurvesFacts.

(** ** The action histogram *)

Module ActionsFacts.
Import Pyplot PyplotFacts Heatmap Actions.

Lemma gather_concat episodes : gather episodes = concat (map actions episodes).
Proof.
  unfold gather.
  assert (Hgen : forall acc,
            fold_left (fun all_actions episode => all_actions ++ actions episode)
              episodes acc = acc ++ concat (map actions episodes)).
  { induction episodes as [| ep episodes IH]; intros acc; cbn;
      [rewrite app_nil_r; reflexivity |].
    rewrite IH, app_assoc. reflexivity. }
  apply (Hgen []).
Qed.

Lemma no_negative x :
  existsb (fun a => a <? 0) x = false <-> Forall (fun a => 0 <= a) x.
Proof.
  induction x as [| a x IH]; cbn; [split; auto |].
  rewrite orb_false_iff, IH, Forall_cons, Z.ltb_ge. reflexivity.
Qed.

Lemma occurrences_cons i a x :
  occurrences i (a :: x) =
    if decide (a = Z.of_nat i) then S (occurrences i x) else occurrences i x.
Proof.
  unfold occurrences. rewrite filter_cons.
  destruct (decide (a = Z.of_nat i)); reflexivity.
Qed.

Lemma tally_lookup x :
  Forall (fun a => 0 <= a) x ->
  forall (counts : list nat) i c,
    counts !! i = Some c ->
    fold_left (fun counts a => alter S (Z.to_nat a) counts) x counts !! i =
      Some (c + occurrences i x)%nat.
Proof.
  induction x as [| a x IH]; intros Hnn counts i c Hc; cbn [fold_left].
  - rewrite Hc. f_equal. unfold occurrences. cbn. lia.
  - apply Forall_cons in Hnn as [Ha Hnn]. rewrite occurrences_cons.
    destruct (decide (a = Z.of_nat i)) as [-> | Hne].
    + rewrite (IH Hnn _ i (S c)).
      * f_equal. lia.
      * rewrite Nat2Z.id, list_lookup_alter_eq, Hc. reflexivity.
    + apply (IH Hnn). rewrite list_lookup_alter_ne by lia. exact Hc.
Qed.

Lemma tally_length x (counts : list nat) :
  length (fold_left (fun counts a => alter S (Z.to_nat a) counts) x counts) =
    length counts.
Proof.
  revert counts. induction x as [| a x IH]; intros counts; cbn; [reflexivity |].
  rewrite IH. apply length_alter.
Qed.

Lemma sum_list_alter_S i (l : list nat) :
  (i < length l)%nat -> sum_list (alter S i l) = S (sum_list l).
Proof.
  revert i. induction l as [| c l IH]; intros [| i] Hi; cbn in *; try lia.
  rewrite IH by lia. lia.
Qed.

Lemma tally_sum x :
  forall counts : list nat,
    Forall (fun a => (Z.to_nat a < length counts)%nat) x ->
    sum_list (fold_left (fun counts a => alter S (Z.to_nat a) counts) x counts) =
      (sum_list counts + length x)%nat.
Proof.
  induction x as [| a x IH]; intros counts Hin; cbn [fold_left length]; [lia |].
  apply Forall_cons in Hin as [Ha Hin].
  rewrite IH by (rewrite length_alter; exact Hin).
  rewrite sum_list_alter_S by exact Ha. lia.
Qed.

Lemma fold_zmax_ge x m :
  m <= fold_left Z.max x m /\ Forall (fun a => a <= fold_left Z.max x m) x.
Proof.
  revert m. induction x as [| a x IH]; intros m; cbn; [split; [lia | auto] |].
  destruct (IH (Z.max m a)) as [Hm Hall]. split; [lia |].
  constructor; [lia | exact Hall].
Qed.


Lemma sum_replicate_zero n : sum_list (replicate n 0%nat) = 0%nat.
Proof. rewrite sum_list_replicate. lia. Qed.

(** [np.bincount] on actions that are indices. *)
Lemma np_bincount_counts x :
  Forall (fun a => 0 <= a) x ->
  exists counts,
    np_bincount x = Return counts /\
    length counts =
      match x with
      | [] => 0%nat
      | _ :: _ => S (Z.to_nat (largest x))
      end /\
    (forall i, (i < length counts)%nat ->
               counts !! i = Some (occurrences i x)) /\
    sum_list counts = length x.
Proof.
  intros Hnn. unfold np_bincount.
  rewrite (proj2 (no_negative x) Hnn). fold (largest x).
  set (size := match x with [] => 0%nat | _ :: _ => S (Z.to_nat (largest x)) end).
  eexists. split; [reflexivity |].
  assert (Hlen : length
            (fold_left (fun counts a => alter S (Z.to_nat a) counts) x
               (replicate size 0%nat)) = size).
  { rewrite tally_length. apply length_replicate. }
  split; [exact Hlen |]. split.
  - intros i Hi. rewrite Hlen in Hi.
    rewrite (tally_lookup x Hnn _ i 0%nat); [reflexivity |].
    apply lookup_replicate_2, Hi.
  - rewrite tally_sum; [rewrite sum_replicate_zero; reflexivity |].
    rewrite length_replicate.
    destruct (fold_zmax_ge x 0) as [_ Hall]. fold (largest x) in Hall.
    rewrite Forall_forall in Hall |- *. intros a Ha.
    specialize (Hall a Ha). unfold size. destruct x; [inversion Ha | lia].
Qed.

Section Facts.
Context {B : Type} `{Backend B}.


Lemma bars_snoc l x h : bars (l ++ [plt_bar x h]) = bars l ++ [(x, h)].
Proof. unfold bars. rewrite omap_app. reflexivity. Qed.

Lemma bars_other l d :
  (forall x h, d <> plt_bar x h) -> bars (l ++ [d]) = bars l.
Proof.
  intros Hd. unfold bars. rewrite omap_app.
  destruct d; cbn; rewrite ?app_nil_r; try reflexivity.
  exfalso. eapply Hd. reflexivity.
Qed.

Lemma saved_files_other l d :
  (forall f, d <> plt_savefig f) -> saved_files (l ++ [d]) = saved_files l.
Proof.
  intros Hd. rewrite saved_files_app.
  destruct d; cbn; rewrite ?app_nil_r; try reflexivity.
  exfalso. eapply Hd. reflexivity.
Qed.

Ltac charted :=
  cbn [drawn];
  repeat first
    [ rewrite bars_snoc
    | rewrite bars_other by discriminate
    | rewrite saved_files_other by discriminate
    | rewrite saved_files_app ].

(** X13.  The bars count the actions.  For results whose actions are all
    indices (none negative), the heights that [plot_action_distribution]
    hands to [plt.bar] beside the five action names -- it does so whenever
    [plt.figure] returned -- count the actions: the [a]-th height is the
    number of times action [a] occurs in the episodes of the results taken
    together, every action taken is counted by one of the heights, and the
    heights add up to the number of actions.  Whether a chart comes of it is
    the library's decision: when the function returns,
    [action_distribution.png] in the save directory is the one file it has
    written; when [plt.bar] refuses the heights (as [matplotlib] does when
    they are neither five nor one) the function raises and writes no
    file. *)
Theorem bars_count_actions save_dir r (c : Canvas B) :
  Forall (fun a => 0 <= a) (concat (map actions (results r))) ->
  exists heights res c',
    plot_action_distribution save_dir r c = Some (res, c') /\
    (forall a, (a < length heights)%nat ->
       heights !! a =
         Some (occurrences a (concat (map actions (results r))))) /\
    (forall a, a ∈ concat (map actions (results r)) ->
       (Z.to_nat a < length heights)%nat) /\
    sum_list heights = length (concat (map actions (results r))) /\
    ((plt (plt_figure (10, 6)) (backend c)).1 = Return tt ->
     bars (drawn c') = bars (drawn c) ++ [(action_names, heights)]) /\
    (res = Return tt ->
     saved_files (drawn c') =
       saved_files (drawn c) ++
       [Script.path_join save_dir "action_distribution.png"]) /\
    ((forall b, (plt (plt_bar action_names heights) b).1 <> Return tt) ->
     res <> Return tt /\ saved_files (drawn c') = saved_files (drawn c)).
Proof.
  intros Hnn.
  destruct (np_bincount_counts _ Hnn) as (counts & Hrun & Hlen & Hcount & Hsum).
  rewrite <- gather_concat in Hrun.
  exists counts.
  assert (Hcovers : forall a, a ∈ concat (map actions (results r)) ->
            (Z.to_nat a < length counts)%nat).
  { intros a Ha. rewrite Hlen.
    destruct (fold_zmax_ge (concat (map actions (results r))) 0) as [_ Hall].
    rewrite Forall_forall in Hall. specialize (Hall a Ha).
    fold (largest (concat (map actions (results r)))) in Hall.
    destruct (concat (map actions (results r))); [inversion Ha | lia]. }
  unfold plot_action_distribution.
  unfold bind at 1, draw at 1.
  destruct (plt (plt_figure (10, 6)) (backend c)) as [[[] | e] b1] eqn:Hfigure.
  2:{ eexists _, _. split; [reflexivity |]. charted.
      repeat split; auto; discriminate. }
  unfold bind at 1, lift. rewrite Hrun.
  unfold bind at 1, draw at 1. cbn [backend drawn].
  destruct (plt (plt_bar action_names counts) b1) as [[[] | e] b2] eqn:Hbar.
  2:{ eexists _, _. split; [reflexivity |]. charted.
      repeat split; auto; try discriminate. }
  assert (Haccepted :
            ~ forall b, (plt (plt_bar action_names counts) b).1 <> Return tt).
  { intros Hall. apply (Hall b1). rewrite Hbar. reflexivity. }
  repeat (unfold bind at 1, draw at 1; cbn [backend drawn];
          match goal with
          | |- context [plt ?d ?b] =>
              destruct (plt d b) as [[[] | ?] ?]
          end;
          [| eexists _, _; (split; [reflexivity |]); charted;
             repeat split; auto; try discriminate; try contradiction]).
  unfold draw. cbn [backend drawn].
  match goal with
  | |- context [plt ?d ?b] => destruct (plt d b) as [[[] | ?] ?]
  end.
  all: eexists _, _; (split; [reflexivity |]); charted.
  all: repeat split; auto; try discriminate; try contradiction.
Qed.



End Facts.

Lemma bars_count_witness :
  exists heights res c',
    plot_action_distribution (H := exacting) "out" never_right blank_canvas =
      Some (res, c') /\
    (forall a, (a < length heights)%nat ->
       heights !! a =
         Some (occurrences a (concat (map actions (results never_right))))) /\
    (forall a, a ∈ concat (map actions (results never_right)) ->
       (Z.to_nat a < length heights)%nat) /\
    sum_list heights = 6%nat /\
    ((plt (Backend := exacting) (plt_figure (10, 6)) (backend blank_canvas)).1
       = Return tt ->
     bars (drawn c') = [] ++ [(action_names, heights)]) /\
    (res = Return tt ->
     saved_files (drawn c') = [] ++ ["out/action_distribution.png"]) /\
    ((forall b,
        (plt (Backend := exacting) (plt_bar action_names heights) b).1
          <> Return tt) ->
     res <> Return tt /\ saved_files (drawn c') = []).
Proof.
  apply (bars_count_actions (H := exacting) "out" never_right blank_canvas).
  repeat constructor; discriminate.
Defined.



End ActionsFacts.

(** ** The value heatmap *)

Module ValueFunctionFacts.
Import Pyplot PyplotFacts ValueFunction.

Lemma index_injective g i j i' j' :
  (j < g)%nat -> (j' < g)%nat ->
  (i' * g + j' = i * g + j)%nat -> i' = i /\ j' = j.
Proof.
  intros Hj Hj' Heq.
  assert (Hi : i' = i).
  { destruct (Nat.lt_trichotomy i' i) as [Hlt | [Heq' | Hgt]]; [| exact Heq' |].
    - assert ((S i') * g <= i * g)%nat by (apply Nat.mul_le_mono_r; lia). lia.
    - assert ((S i) * g <= i' * g)%nat by (apply Nat.mul_le_mono_r; lia). lia. }
  subst i'. split; [reflexivity | lia].
Qed.

Lemma index_bound g i j : (i < g)%nat -> (j < g)%nat -> (i * g + j < g * g)%nat.
Proof.
  intros Hi Hj.
  assert ((S i) * g <= g * g)%nat by (apply Nat.mul_le_mono_r; lia). lia.
Qed.

Lemma assign_marked g c i j states :
  marked g c (i * g + j) states ->
  (i < g)%nat -> (j < g)%nat -> (j < c)%nat ->
  exists states',
    assign states (i * g + j) i j 4%float = Return states' /\
    marked g c (S (i * g + j)) states'.
Proof.
  unfold marked, assign, State. intros [Hlen Hm] Hi Hj Hc.
  rewrite (Hm i j Hi Hj), Nat.ltb_irrefl. cbv beta iota.
  rewrite lookup_replicate_2 by exact Hi.
  rewrite lookup_replicate_2 by exact Hc.
  eexists. split; [reflexivity |].
  split; [rewrite length_insert; exact Hlen |].
  intros i' j' Hi' Hj'.
  destruct (decide (i' * g + j' = i * g + j)%nat) as [Heq | Hne].
  - destruct (index_injective g i j i' j' Hj Hj' Heq) as [-> ->].
    rewrite list_lookup_insert_eq
      by (rewrite Hlen; apply index_bound; assumption).
    rewrite (proj2 (Nat.ltb_lt _ _)) by lia. reflexivity.
  - rewrite list_lookup_insert_ne by congruence.
    rewrite (Hm i' j' Hi' Hj').
    destruct (Nat.ltb_spec (i' * g + j') (i * g + j));
      destruct (Nat.ltb_spec (i' * g + j') (S (i * g + j)));
      try lia; reflexivity.
Qed.

Lemma mark_row g c i :
  (i < g)%nat -> (g <= c)%nat ->
  forall n j0 states,
    (j0 + n = g)%nat ->
    marked g c (i * g + j0) states ->
    exists states',
      for_each (seq j0 n)
        (fun j states => assign states (i * g + j) i j 4%float) states =
        Return states' /\
      marked g c (i * g + g) states'.
Proof.
  intros Hi Hgc. induction n as [| n IH]; intros j0 states Hsum Hm;
    cbn [seq for_each].
  - exists states. split; [reflexivity |].
    replace (i * g + g)%nat with (i * g + j0)%nat by lia. exact Hm.
  - destruct (assign_marked g c i j0 states Hm) as (s1 & -> & Hm1);
      [lia .. |].
    apply (IH (S j0)); [lia |].
    replace (i * g + S j0)%nat with (S (i * g + j0)) by lia. exact Hm1.
Qed.

Lemma mark_rows g c :
  (g <= c)%nat ->
  forall n i0 states,
    (i0 + n = g)%nat ->
    marked g c (i0 * g) states ->
    exists states',
      for_each (seq i0 n)
        (fun i states =>
           for_each (seq 0 g)
             (fun j states => assign states (i * g + j) i j 4%float) states)
        states = Return states' /\
      marked g c (g * g) states'.
Proof.
  intros Hgc. induction n as [| n IH]; intros i0 states Hsum Hm;
    cbn [seq for_each].
  - exists states. split; [reflexivity |].
    assert (i0 = g) as -> by lia. exact Hm.
  - destruct (mark_row g c i0 ltac:(lia) Hgc g 0%nat states) as (s1 & -> & Hm1);
      [lia | rewrite Nat.add_0_r; exact Hm |].
    apply (IH (S i0)); [lia |].
    replace (S i0 * g)%nat with (i0 * g + g)%nat by lia. exact Hm1.
Qed.

Lemma zeros_marked g c : marked g c 0 (np_zeros (g * g) g c).
Proof.
  split; [apply length_replicate |]. intros i j Hi Hj.
  unfold np_zeros. rewrite lookup_replicate_2 by (apply index_bound; assumption).
  reflexivity.
Qed.

Lemma lone_agent_cell g c i j x y :
  (i < g)%nat -> (j < c)%nat -> (x < g)%nat -> (y < c)%nat ->
  cell (lone_agent g c i j) x y =
    Some (if bool_decide (x = i /\ y = j) then 4%float else 0%float).
Proof.
  intros Hi Hj Hx Hy. unfold cell, lone_agent.
  destruct (decide (x = i)) as [-> | Hne].
  - rewrite list_lookup_insert_eq by (rewrite length_replicate; exact Hi). cbn.
    destruct (decide (y = j)) as [-> | Hne].
    + rewrite list_lookup_insert_eq by (rewrite length_replicate; exact Hj).
      rewrite bool_decide_eq_true_2 by auto. reflexivity.
    + rewrite list_lookup_insert_ne by congruence.
      rewrite lookup_replicate_2 by exact Hy.
      rewrite bool_decide_eq_false_2 by (intros [_ ?]; congruence).
      reflexivity.
  - rewrite list_lookup_insert_ne by congruence.
    rewrite lookup_replicate_2 by exact Hx. cbn.
    rewrite lookup_replicate_2 by exact Hy.
    rewrite bool_decide_eq_false_2 by (intros [? _]; congruence).
    reflexivity.
Qed.

(** The batch of lines 125-129 for an observation at least as wide as it
    is high. *)
Lemma mark_agents_batch g c :
  (g <= c)%nat ->
  exists states,
    mark_agents g (np_zeros (g * g) g c) = Return states /\
    length states = (g * g)%nat /\
    forall i j, (i < g)%nat -> (j < g)%nat ->
      states !! (i * g + j)%nat = Some (lone_agent g c i j).
Proof.
  intros Hgc.
  destruct (mark_rows g c Hgc g 0%nat (np_zeros (g * g) g c))
    as (states & Hrun & Hlen & Hm); [lia | apply zeros_marked |].
  exists states. split; [exact Hrun |]. split; [exact Hlen |].
  intros i j Hi Hj. rewrite (Hm i j Hi Hj).
  rewrite (proj2 (Nat.ltb_lt _ _)) by (apply index_bound; assumption).
  reflexivity.
Qed.

Lemma reshape_cell values g :
  length values = (g * g)%nat ->
  exists grid,
    reshape values g g = Return grid /\
    forall i j, (i < g)%nat -> (j < g)%nat ->
      cell grid i j = values !! (i * g + j)%nat.
Proof.
  intros Hlen. unfold reshape. rewrite Hlen, Nat.eqb_refl.
  eexists. split; [reflexivity |]. intros i j Hi Hj. unfold cell.
  change (map ?f ?l) with (f <$> l).
  rewrite list_lookup_fmap, lookup_seq_lt by exact Hi. cbn.
  rewrite lookup_take_lt by exact Hj. apply lookup_drop.
Qed.

Lemma narrow_row g c :
  (c < g)%nat ->
  forall n j0 states,
    (j0 <= c)%nat -> (c < j0 + n)%nat -> (j0 + n <= g)%nat ->
    marked g c (0 * g + j0) states ->
    for_each (seq j0 n)
      (fun j states => assign states (0 * g + j) 0 j 4%float) states =
      Raise (IndexError "index is out of bounds for axis 2").
Proof.
  intros Hcg. induction n as [| n IH]; intros j0 states Hlo Hhi Hg Hm;
    [lia |].
  cbn [seq for_each].
  destruct (decide (j0 = c)) as [-> | Hne].
  - unfold marked, assign, State in *. destruct Hm as [_ Hm].
    rewrite (Hm 0%nat c) by lia. rewrite Nat.ltb_irrefl. cbv beta iota.
    rewrite lookup_replicate_2 by lia.
    rewrite (proj1 (lookup_replicate_None c 0%float c)) by lia. reflexivity.
  - destruct (assign_marked g c 0 j0 states Hm) as (s1 & -> & Hm1);
      [lia .. |].
    apply (IH (S j0)); [lia .. |].
    replace (0 * g + S j0)%nat with (S (0 * g + j0)) by lia. exact Hm1.
Qed.

Lemma for_each_first_raises {A S} (a : A) l (body : A -> S -> result S) s e :
  body a s = Raise e -> for_each (a :: l) body s = Raise e.
Proof. intros Hbody. cbn. rewrite Hbody. reflexivity. Qed.

Lemma mark_agents_narrow g c :
  (c < g)%nat ->
  mark_agents g (np_zeros (g * g) g c) =
    Raise (IndexError "index is out of bounds for axis 2").
Proof.
  intros Hcg. unfold mark_agents.
  destruct g as [| g']; [lia |].
  apply (for_each_first_raises 0%nat (seq 1 g')).
  apply (narrow_row (S g') c Hcg (S g') 0%nat); [lia .. |].
  apply zeros_marked.
Qed.

Section Facts.
Context {B : Type} `{Backend B} `{PolicyNet B}.

(** X16.  The value heatmap is indexed by the agent's position.  For an
    observation of [g] rows and at least [g] columns, the batch handed to the
    policy network has [g * g] states, the state of index [i * g + j] being
    all zero but for a 4 at row [i], column [j], together with a row of three
    ones for each state.  When the network answers with one value for each
    state and the plotting library accepts every call,
    [visualize_value_function] returns, the heatmap drawn shows at row [i],
    column [j] the value of the state with the agent at [(i, j)], and one
    file is written, at [save_path]. *)
Theorem value_grid_by_position g c save_path (cv : Canvas B) :
  accepts_all ->
  (g <= c)%nat ->
  exists states : list State,
    length states = (g * g)%nat /\
    (forall i j x y,
       (i < g)%nat -> (j < g)%nat -> (x < g)%nat -> (y < c)%nat ->
       states !! (i * g + j)%nat ≫= (fun s => cell s x y) =
         Some (if bool_decide (x = i /\ y = j) then 4%float else 0%float)) /\
    forall values b,
      state_values states (replicate (g * g) (replicate 3 1%float))
        (backend cv) = (Return values, b) ->
      length values = (g * g)%nat ->
      exists c' grid,
        visualize_value_function (g, c) save_path cv = Some (Return tt, c') /\
        heatmaps (drawn c') = heatmaps (drawn cv) ++ [grid] /\
        (forall i j, (i < g)%nat -> (j < g)%nat ->
           cell grid i j = values !! (i * g + j)%nat) /\
        saved_files (drawn c') = saved_files (drawn cv) ++ [save_path].
Proof.
  intros Hacc Hgc.
  destruct (mark_agents_batch g c Hgc) as (states & Hmark & Hlen & Hlone).
  exists states. split; [exact Hlen |]. split.
  { intros i j x y Hi Hj Hx Hy. unfold State in *.
    rewrite (Hlone i j Hi Hj). cbn.
    apply lone_agent_cell; lia. }
  intros values b Hvalues Hcount.
  destruct (reshape_cell values g Hcount) as (grid & Hgrid & Hcell).
  unfold visualize_value_function. cbn [fst snd].
  unfold bind at 1, lift. rewrite Hmark, Hlen.
  unfold bind at 1, query. rewrite Hvalues.
  unfold bind at 1, lift. rewrite Hgrid.
  do 7 draw_step Hacc. draw_last Hacc.
  eexists _, grid. split; [reflexivity |]. cbn [drawn].
  split; [| split; [exact Hcell |]].
  - unfold heatmaps. rewrite !omap_app. cbn. rewrite !app_nil_r. reflexivity.
  - rewrite !saved_files_app. cbn. rewrite !app_nil_r. reflexivity.
Qed.

(** X17.  An observation with fewer columns than rows stops
    [visualize_value_function] while it builds its batch: marking the agent
    at column [c] of the first row raises [IndexError]; the network is not
    asked and nothing is drawn or written. *)
Theorem narrow_observation_raises g c save_path (cv : Canvas B) :
  (c < g)%nat ->
  visualize_value_function (g, c) save_path cv =
    Some (Raise (IndexError "index is out of bounds for axis 2"), cv).
Proof.
  intros Hcg. unfold visualize_value_function. cbn [fst snd].
  unfold bind at 1, lift. rewrite (mark_agents_narrow g c Hcg). reflexivity.
Qed.

End Facts.

Lemma value_grid_witness :
  exists states : list State,
    length states = 4%nat /\
    (forall i j x y,
       (i < 2)%nat -> (j < 2)%nat -> (x < 2)%nat -> (y < 2)%nat ->
       states !! (i * 2 + j)%nat ≫= (fun s => cell s x y) =
         Some (if bool_decide (x = i /\ y = j) then 4%float else 0%float)) /\
    forall values b,
      state_values states (replicate 4 (replicate 3 1%float))
        (backend nothing_asked) = (Return values, b) ->
      length values = 4%nat ->
      exists c' grid,
        visualize_value_function (2%nat, 2%nat) "value_function.png"
          nothing_asked = Some (Return tt, c') /\
        heatmaps (drawn c') = [] ++ [grid] /\
        (forall i j, (i < 2)%nat -> (j < 2)%nat ->
           cell grid i j = values !! (i * 2 + j)%nat) /\
        saved_files (drawn c') = [] ++ ["value_function.png"].
Proof.
  apply (value_grid_by_position 2 2 "value_function.png" nothing_asked).
  - intros d b. reflexivity.
  - lia.
Defined.

Lemma narrow_observation_witness :
  visualize_value_function (3%nat, 2%nat) "value_function.png" nothing_asked =
    Some (Raise (IndexError "index is out of bounds for axis 2"),
          nothing_asked).
Proof.
  apply (narrow_observation_raises 3 2 "value_function.png" nothing_asked).
  lia.
Defined.

End ValueFunctionFacts.

(** * More about the entry point *)

Module ScriptMore.
Import Script ScriptFacts Instrumented.

Section Generic.
Context {H : Type} `{Host H}.



End Generic.

Section Observed.
Context {H : Type} `{Host H}.

Lemma present_cases path (p : Process H) :
  present path p = Some (Return false, p) \/
  (present path p = Some (Return true, p) /\
   exists s, path = Some s /\ path_exists s (host p) = true).
Proof.
  unfold present. destruct path as [s |]; [| auto].
  destruct (String.eqb s ""); [auto |]. unfold query, gets.
  destruct (path_exists s (host p)) eqn:Hex; [right | left]; eauto.
Qed.

Lemma logging_result {A} c (f : H -> result A * H) l r l' :
  logging c f l = (r, l') ->
  made l' = made l ++ [(c, returned r)].
Proof.
  unfold logging. destruct (f (inner l)) as [r0 h0].
  intros [= <- <-]. reflexivity.
Qed.

End Observed.

(** Every way through [main] on an observed host: the case distinction on
    what the host answers, each case with the list of calls made. *)
Ltac run_main Hrun :=
  unfold main, load_or_default, Visualizer, observed in Hrun;
  unfold bind, call, fallible, print, modify, ret, raise in Hrun;
  cbn -[present path_join String.append get] in Hrun;
  repeat (match type of Hrun with
          | context [present ?path ?p] =>
              let Hb := fresh "Hb" in
              let s := fresh "s" in
              let Hs := fresh "Hs" in
              let Hex := fresh "Hex" in
              destruct (present_cases path p)
                as [Hb | (Hb & s & Hs & Hex)];
              rewrite Hb in Hrun; clear Hb
          | context [match ?x with _ => _ end] =>
              lazymatch x with
              | context [match _ with _ => _ end] => fail
              | context [present _ _] => fail
              | _ => destruct x eqn:?
              end
          end;
          cbn -[present path_join String.append get] in Hrun);
  injection Hrun as <- <-;
  repeat match goal with
         | Hlog : logging _ _ _ = (_, _) |- _ =>
             apply logging_result in Hlog; cbn [made] in Hlog
         end;
  subst;
  cbn [host made];
  repeat match goal with
         | Hlog : made ?l = _ |- _ => rewrite Hlog; clear Hlog
         end;
  cbn [app returned].

Section Calls.
Context {H : Type} `{Host H}.

(** What the list of calls of any run of [main] satisfies. *)
Lemma main_calls tb ev model sd ts (h : H) r p' :
  main tb ev model sd ts (observed h) = Some (r, p') ->
  (forall c, (c, false) ∈ made (host p') ->
     last (made (host p')) = Some (c, false) /\ exists e, r = Raise e) /\
  (forall mode kwargs, (GymMake mode kwargs, true) ∈ made (host p') ->
     ((EnvClose, true) ∈ made (host p') <-> r = Return tt)) /\
  (made (host p') <> [] ->
   exists dir b,
     head (made (host p')) = Some (Makedirs dir, b) /\
     (sd = Some dir \/
      (sd = None /\
       exists t, ts = Some t /\
                 dir = "results/evaluation/experiment_" +:+ t)) /\
     Forall (fun call => under dir call.1) (made (host p'))) /\
  (forall mode kwargs b, (GymMake mode kwargs, b) ∈ made (host p') ->
     mode = "rgb_array" /\
     ((forall s, ev = Some s -> path_exists s h = false) ->
      kwargs = default_kwargs)).
Proof.
  intros Hrun. run_main Hrun.
  all: repeat match goal with u : unit |- _ => destruct u end.
  all: split; [| split; [| split]].
  (* the first failure is the last call *)
  all: try (intros c Hin;
            repeat (apply elem_of_cons in Hin as [Hin | Hin];
                    [try discriminate Hin; injection Hin as -> |]);
            first [ solve [inversion Hin]
                  | solve [split; [reflexivity | eauto]] ]).
  (* the environment is closed if and only if [main] returns *)
  all: try (intros mode kwargs Hin;
            repeat (apply elem_of_cons in Hin as [Hin | Hin];
                    [try discriminate Hin |]);
            first
              [ solve [inversion Hin]
              | solve
                  [ split;
                    [ intros Hc;
                      first
                        [ reflexivity
                        | repeat (apply elem_of_cons in Hc as [Hc | Hc];
                                  [try discriminate Hc |]);
                          inversion Hc ]
                    | intros Hr;
                      first
                        [ discriminate Hr
                        | apply list_elem_of_In; cbn; tauto ] ] ] ]).
  (* every output below the save directory *)
  all: try (intros Hne;
            first
              [ solve [exfalso; apply Hne; reflexivity]
              | solve
                  [ eexists _, _; split; [reflexivity |];
                    split; [first [left; reflexivity | right; eauto] |];
                    repeat constructor ] ]).
  (* the arguments of [gym.make] *)
  all: intros mode kwargs b Hin;
       repeat (apply elem_of_cons in Hin as [Hin | Hin];
               [try discriminate Hin |]);
       first
         [ solve [inversion Hin]
         | injection Hin as -> -> ->;
           (split; [reflexivity |]); intros Hmiss;
           first
             [ reflexivity
             | match goal with
               | Hex : path_exists ?s _ = true |- _ =>
                   cbn in Hex; rewrite (Hmiss s eq_refl) in Hex;
                   discriminate Hex
               end ] ].
Qed.

(** X19.  [main] has no handler of its own: the first call on the host that
    raises is the last call it makes, and [main] raises too. *)
Theorem main_stops_at_first_failure tb ev model sd ts (h : H) r p' :
  main tb ev model sd ts (observed h) = Some (r, p') ->
  forall c, (c, false) ∈ made (host p') ->
    last (made (host p')) = Some (c, false) /\ exists e, r = Raise e.
Proof. intros Hrun. apply (main_calls _ _ _ _ _ _ _ _ Hrun). Qed.

(** X20.  Once [gym.make] has returned, the environment is closed exactly
    when [main] returns: if loading the agent, recording the episode or
    drawing the value function raises, [env.close()] is never called. *)
Theorem environment_closed_iff_returned tb ev model sd ts (h : H) r p'
    mode kwargs :
  main tb ev model sd ts (observed h) = Some (r, p') ->
  (GymMake mode kwargs, true) ∈ made (host p') ->
  ((EnvClose, true) ∈ made (host p') <-> r = Return tt).
Proof. intros Hrun. apply (main_calls _ _ _ _ _ _ _ _ Hrun). Qed.

(** X21.  Everything is written below one directory, which is created
    first: in a run of [main] that makes any call on the host, the first
    call creates the save directory -- the [save_dir] argument when it is
    given, and [results/evaluation/experiment_<timestamp>] otherwise -- and
    every plot goes to that directory, the video to [episode.mp4] and the
    value heatmap to [value_function.png] in it. *)
Theorem outputs_below_save_dir tb ev model sd ts (h : H) r p' :
  main tb ev model sd ts (observed h) = Some (r, p') ->
  made (host p') <> [] ->
  exists dir b,
    head (made (host p')) = Some (Makedirs dir, b) /\
    (sd = Some dir \/
     (sd = None /\
      exists t, ts = Some t /\
                dir = "results/evaluation/experiment_" +:+ t)) /\
    Forall (fun call => under dir call.1) (made (host p')).
Proof. intros Hrun. apply (main_calls _ _ _ _ _ _ _ _ Hrun). Qed.


End Calls.

Lemma model_only_run :
  main None None (Some "model.pt") (Some "out") None (observed model_only) =
    Some (Raise (PyExc true "size mismatch"), model_only_end).
Proof. vm_compute. reflexivity. Qed.


Lemma first_failure_witness :
  last (made (host model_only_end)) =
    Some (VisualizeValueFunction "out/value_function.png", false) /\
  exists e, Raise (PyExc true "size mismatch") = Raise (A := unit) e.
Proof.
  apply (main_stops_at_first_failure _ _ _ _ _ _ _ _ model_only_run).
  apply list_elem_of_In. cbn. tauto.
Defined.

Lemma environment_left_open_witness :
  (EnvClose, true) ∈ made (host model_only_end) <->
  Raise (PyExc true "size mismatch") = Return tt.
Proof.
  apply (environment_closed_iff_returned _ _ _ _ _ _ _ _ "rgb_array"
           default_kwargs model_only_run).
  apply list_elem_of_In. cbn. tauto.
Defined.

Lemma outputs_below_witness :
  exists dir b,
    head (made (host model_only_end)) = Some (Makedirs dir, b) /\
    (Some "out" = Some dir \/
     (Some "out" = None /\
      exists t, None = Some t /\
                dir = "results/evaluation/experiment_" +:+ t)) /\
    Forall (fun call => under dir call.1) (made (host model_only_end)).
Proof.
  apply (outputs_below_save_dir _ _ _ _ _ _ _ _ model_only_run).
  discriminate.
Defined.


End ScriptMore.
